(** * Modelia AI Studio: the generation request lifecycle

    A shallow embedding of the validator ([utils.ts], [api.ts]), the mock
    generation endpoint and its retry loop ([api.ts]), the request manager
    ([api.ts]), the history store ([storage.ts]) and the generation actions
    of the application store ([store.ts]), with the properties of the
    design document stated and settled against them.

    Conventions.
    - A JavaScript string is a [string]; one [ascii] stands for one code
      unit, so the model covers the code units below 256 (Latin-1).
    - A JavaScript number that the code only uses as a count is a [nat] or
      a [Z]; a number that takes part in the delay arithmetic is a
      rational [Q] (exact arithmetic). The doubles of the code round: at
      the largest draws a sum or a product can reach a bound that the
      exact value stays below, so the bounds stated are those that hold of
      the rounded values too (closed intervals, 2001 ms for the longest
      processing delay).
    - [Math.random()] reads the next draw of a stream carried by the world.
    - A record field [f] of a TypeScript interface [I] is named with a
      short prefix for [I], since Rocq record fields share one name space.
    - An [async] function is a resumption: it has settled, or it waits on
      a timer with the rest of its run as a continuation. Other code of
      the tab (a user action) may run while it waits.
    - [localStorage] holds typed documents in place of their JSON text; a
      text that is no document of the type read stands for one that
      [JSON.parse] rejects. Each storage operation consults an oracle that
      says whether the browser makes it throw.
    - The [persist] middleware of the application store, which mirrors
      the settings, theme and sidebar slices under a key of its own, is
      left out, as are those slices: the history the properties speak of
      is the one [storage.ts] keeps. [set] is thus a plain update; the
      write [persist] makes after it can only fail on a store that
      refuses it, and a property of a submission run to its end is stated
      for a store that accepts every operation.
    - [crypto.randomUUID()] is assumed to exist and reads the UUID the
      world supplies; no property compares the ids of two sessions
      started by different calls.
    - A console message is kept without its emoji prefix.
    - An instant (a [Date], an ISO date string, [Date.now()]) is its
      number of milliseconds, a [Z]; an invalid [Date] is not modelled.
    - The text logged before a backoff wait is shortened to "Retrying". *)

From Stdlib Require Import Ascii QArith Qround Qminmax Lqa.
From Stdlib Require Import Qpower.
From stdpp Require Import gmap strings list.
From stdpp Require Import pretty.

Local Open Scope string_scope.
Local Open Scope list_scope.

(* ===================================================================== *)
(** ** JavaScript strings                                                 *)
(* ===================================================================== *)

Module JsString.

(** White space and line terminators removed by [String.prototype.trim],
    among the code units below 256: TAB, LF, VT, FF, CR, SP, NBSP. *)
Definition isWhiteSpace (c : ascii) : bool :=
  let n := nat_of_ascii c in
  ((9 <=? n)%nat && (n <=? 13)%nat) || (n =? 32)%nat || (n =? 160)%nat.

Fixpoint trimStart (s : string) : string :=
  match s with
  | EmptyString => EmptyString
  | String c s' => if isWhiteSpace c then trimStart s' else s
  end.

Fixpoint trimEnd (s : string) : string :=
  match s with
  | EmptyString => EmptyString
  | String c s' =>
      match trimEnd s' with
      | EmptyString => if isWhiteSpace c then EmptyString else String c EmptyString
      | t => String c t
      end
  end.

(** [s.trim()] *)
Definition trim (s : string) : string := trimEnd (trimStart s).

(** [s.startsWith(p)] *)
Definition startsWith (s p : string) : bool := String.prefix p s.

(** [s.includes(w)] *)
Fixpoint includes (s w : string) : bool :=
  String.prefix w s ||
  match s with
  | EmptyString => false
  | String _ s' => includes s' w
  end.

(** [toLowerCase] on one code unit below 256: A-Z, and the Latin-1
    capitals U+00C0..U+00DE except the multiplication sign U+00D7. *)
Definition lowerChar (c : ascii) : ascii :=
  let n := nat_of_ascii c in
  if ((65 <=? n)%nat && (n <=? 90)%nat)
     || ((192 <=? n)%nat && (n <=? 222)%nat && negb (n =? 215)%nat)
  then ascii_of_nat (n + 32) else c.

Fixpoint toLowerCase (s : string) : string :=
  match s with
  | EmptyString => EmptyString
  | String c s' => String (lowerChar c) (toLowerCase s')
  end.

(** Truthiness of a string: the empty string is falsy. *)
Definition truthy (s : string) : bool :=
  match s with EmptyString => false | _ => true end.

(** [a || b] on strings. *)
Definition orElse (a b : string) : string := if truthy a then a else b.

End JsString.

(* ===================================================================== *)
(** ** Prompt validation ([utils.ts])                                     *)
(* ===================================================================== *)

(** [ValidationResult] of [types/index.ts]. [errors] and [warnings] are
    objects used as maps from a rule name to its messages. *)
Record ValidationResult := {
  isValid : bool;
  errors : gmap string (list string);
  warnings : option (gmap string (list string));
}.

(** [Object.keys(o).length === 0] *)
Definition hasNoKeys (o : gmap string (list string)) : bool :=
  bool_decide (size o = 0%nat).

Definition problematicWords : list string := ["nsfw"; "nude"; "explicit"].

(** [problematicWords.some(word => trimmed.toLowerCase().includes(word))] *)
Definition hasProblematic (trimmed : string) : bool :=
  existsb (fun word => JsString.includes (JsString.toLowerCase trimmed) word)
          problematicWords.

Definition validatePrompt (prompt : string) : ValidationResult :=
  let trimmed := JsString.trim prompt in
  let '(errors, warnings) :=
    if negb (JsString.truthy trimmed) then
      (<["required" := ["Prompt is required"]]> (∅ : gmap string (list string)),
       (∅ : gmap string (list string)))
    else
      let e0 : gmap string (list string) := ∅ in
      let w0 : gmap string (list string) := ∅ in
      let e1 := if (String.length trimmed <? 3)%nat
                then <["minLength" := ["Prompt must be at least 3 characters"]]> e0
                else e0 in
      let e2 := if (500 <? String.length trimmed)%nat
                then <["maxLength" := ["Prompt must be less than 500 characters"]]> e1
                else e1 in
      let w1 := if (String.length trimmed <? 10)%nat
                then <["suggestion" := ["Consider adding more detail for better results"]]> w0
                else w0 in
      let e3 := if hasProblematic trimmed
                then <["content" := ["Prompt contains inappropriate content"]]> e2
                else e2 in
      (e3, w1) in
  {| isValid := hasNoKeys errors;
     errors := errors;
     warnings := if negb (hasNoKeys warnings) then Some warnings else None |}.


(* ===================================================================== *)
(** ** Data model ([types/index.ts])                                      *)
(* ===================================================================== *)

(** [StyleOption] is a union of string literals; at run time a style is a
    string, which [isValidStyle] checks against the five literals. *)
Definition StyleOption := string.

Record ImageFile := {
  img_dataUrl : string;
  img_originalSize : Z;
}.

Record GenerationRequest := {
  req_imageDataUrl : string;
  req_prompt : string;
  req_style : StyleOption;
  req_requestId : option string;
}.

(** Timestamps ([new Date().toISOString()]) are the clock reading in
    milliseconds. *)
Record GenerationResponse := {
  res_id : string;
  res_imageUrl : string;
  res_prompt : string;
  res_style : StyleOption;
  res_createdAt : Z;
  res_processingTime : option Z;
}.

Record ApiError := {
  err_name : string;
  err_message : string;
  err_code : string;
  err_retryable : bool;
  err_timestamp : Z;
}.

(** [HistoryItem extends GenerationResponse]: the optional fields are
    absent ([None]) on an item that never set them. *)
Record HistoryItem := {
  hi_id : string;
  hi_imageUrl : string;
  hi_prompt : string;
  hi_style : StyleOption;
  hi_createdAt : Z;
  hi_processingTime : option Z;
  hi_thumbnail : option string;
  hi_isFavorite : option bool;
  hi_tags : option (list string);
}.

Record RetryConfig := {
  maxAttempts : nat;
  baseDelay : Q;
  maxDelay : Q;
  backoffMultiplier : Q;
}.

Definition MAX_HISTORY_ITEMS : nat := 5.

Definition RETRY_CONFIG : RetryConfig :=
  {| maxAttempts := 3; baseDelay := 1000; maxDelay := 8000; backoffMultiplier := 2 |}.

Inductive Status := idle | uploading | generating | success | error | aborted.

Record GenerationState := {
  status : Status;
  progress : Z;
  currentRequest : option GenerationRequest;
  result : option GenerationResponse;
  gen_error : option ApiError;
  retryCount : nat;
  canRetry : bool;
}.

Record PreviewState := {
  currentImage : option ImageFile;
  currentPrompt : string;
  currentStyle : StyleOption;
  isGenerating : bool;
  showComparison : bool;
}.

Record HistoryState := {
  hs_items : list HistoryItem;
  hs_maxItems : nat;
  hs_currentItem : option HistoryItem;
}.

Record PromptField := {
  pf_value : string;
  pf_error : option string;
  pf_isValid : bool;
}.

Record StyleField := {
  sf_value : StyleOption;
  sf_isValid : bool;
}.

Record ImageField := {
  if_file : option ImageFile;
  if_error : option string;
  if_isValid : bool;
}.

Record FormState := {
  form_prompt : PromptField;
  form_style : StyleField;
  form_image : ImageField;
}.

(** The slices of [AppState] that the generation and history actions read
    or write (upload, theme, modal stack, PWA, metrics and settings slices
    are left out). *)
Record AppState := {
  preview : PreviewState;
  generation : GenerationState;
  history : HistoryState;
  form : FormState;
}.

(** What a [throw] can carry: an object with the five [ApiError] fields
    (an [ApiErrorClass] instance or the literal of [createMockError]), a
    plain [Error], or a [DOMException] of the storage API. *)
Inductive Thrown :=
| ThrownApiError (e : ApiError)
| ThrownError (message : string)
| ThrownDOMException (name : string).

(** [isApiError]: the five property names are all present. *)
Definition isApiError (thrown : Thrown) : option ApiError :=
  match thrown with
  | ThrownApiError e => Some e
  | _ => None
  end.

(** [new ApiErrorClass(message, code, retryable)] at clock reading [now]. *)
Definition ApiErrorClass (message code : string) (retryable : bool) (now : Z) : ApiError :=
  {| err_name := "ApiError"; err_message := message; err_code := code;
     err_retryable := retryable; err_timestamp := now |}.

(* ===================================================================== *)
(** ** Persisted documents ([storage.ts])                                 *)
(* ===================================================================== *)

Record HistoryStorage := {
  hst_items : list HistoryItem;
  hst_lastUpdated : Z;
  hst_version : Z;
}.

Inductive Theme := dark | light.

Record UserSettings := {
  us_theme : Theme;
  us_autoRetry : bool;
  us_saveToHistory : bool;
  us_compressionQuality : Q;
  us_maxFileSize : Z;
  us_defaultStyle : string;
  us_showTutorial : bool;
  us_enableNotifications : bool;
  us_version : Z;
}.

(** [Partial<UserSettings>] *)
Record PartialUserSettings := {
  pus_theme : option Theme;
  pus_autoRetry : option bool;
  pus_saveToHistory : option bool;
  pus_compressionQuality : option Q;
  pus_maxFileSize : option Z;
  pus_defaultStyle : option string;
  pus_showTutorial : option bool;
  pus_enableNotifications : option bool;
  pus_version : option Z;
}.

Record SessionData := {
  sd_sessionId : string;
  sd_startTime : Z;
  sd_lastActivity : Z;
  sd_generationCount : Z;
  sd_totalUploadSize : Z;
  sd_version : Z;
}.

Inductive PreferredFormat := webp | jpeg.

Record UploadPreferences := {
  up_autoResize : bool;
  up_preferredFormat : PreferredFormat;
  up_quality : Q;
}.

Record UiPreferences := {
  ui_sidebarCollapsed : bool;
  ui_gridView : bool;
  ui_showPreviewInfo : bool;
}.

Record UserPreferences := {
  pr_recentPrompts : list string;
  pr_favoriteStyles : list string;
  pr_uploadPreferences : UploadPreferences;
  pr_uiPreferences : UiPreferences;
  pr_version : Z;
}.

(** [Partial<UserPreferences>] *)
Record PartialUserPreferences := {
  ppr_recentPrompts : option (list string);
  ppr_favoriteStyles : option (list string);
  ppr_uploadPreferences : option UploadPreferences;
  ppr_uiPreferences : option UiPreferences;
  ppr_version : option Z;
}.

(** A value held by [localStorage]: the text that [JSON.stringify] wrote,
    kept as the document it encodes. [StoredText] is a bare string (the
    probe of [isStorageAvailable], or any text that is no document). *)
Inductive Stored :=
| StoredText (s : string)
| StoredHistory (h : HistoryStorage)
| StoredSettings (s : UserSettings)
| StoredSession (s : SessionData)
| StoredPreferences (p : UserPreferences).

(** [JSON.stringify] and [JSON.parse] at a document type. A stored text
    that is not a document of the expected type makes [parse] fail, which
    stands for [JSON.parse] throwing a [SyntaxError]. *)
Class Json (T : Type) := {
  stringify : T -> Stored;
  parse : Stored -> option T;
}.

#[export] Instance Json_HistoryStorage : Json HistoryStorage :=
  {| stringify := StoredHistory;
     parse := fun s => match s with StoredHistory h => Some h | _ => None end |}.

#[export] Instance Json_UserSettings : Json UserSettings :=
  {| stringify := StoredSettings;
     parse := fun s => match s with StoredSettings h => Some h | _ => None end |}.

#[export] Instance Json_UserPreferences : Json UserPreferences :=
  {| stringify := StoredPreferences;
     parse := fun s => match s with StoredPreferences h => Some h | _ => None end |}.

#[export] Instance Json_SessionData : Json SessionData :=
  {| stringify := StoredSession;
     parse := fun s => match s with StoredSession h => Some h | _ => None end |}.

(** [SessionData | null]: [null] is never written by the program. *)
#[export] Instance Json_SessionData_or_null : Json (option SessionData) :=
  {| stringify := fun o => match o with Some s => StoredSession s | None => StoredText "null" end;
     parse := fun s => match s with StoredSession h => Some (Some h) | _ => None end |}.

(** The operations of the [Storage] interface, by key. *)
Inductive StorageOp :=
| OpGetItem (key : string)
| OpSetItem (key : string)
| OpRemoveItem (key : string).

Inductive ConsoleEntry :=
| ConsoleLog (text : string)
| ConsoleWarn (text : string)
| ConsoleError (text : string).

(** [window.dispatchEvent(new CustomEvent(type, { detail }))] *)
Inductive CustomEvent :=
| historyUpdated (detail : option HistoryItem)
| historyCleared
| settingsUpdated (detail : UserSettings)
| settingsReset
| preferencesUpdated (detail : UserPreferences).

(* ===================================================================== *)
(** ** The world: everything the program reads or mutates                 *)
(* ===================================================================== *)

(** One browser tab: the zustand store, the [requestManager] singleton with
    the [AbortController] objects it allocated (an [AbortSignal] is the
    address of its controller, so that the controller removed from the map
    is still the one an in-flight request observes), [window.localStorage]
    together with the operations that currently throw, the window events
    and console lines emitted so far, the stream behind [Math.random], the
    clock, and the number of [generateImage] invocations (a counter kept
    for the statements only). *)
Record World := {
  app : AppState;
  activeRequests : gmap string nat;
  controllers : list bool;
  entries : gmap string Stored;
  throws : StorageOp -> bool;
  dispatched : list CustomEvent;
  console : list ConsoleEntry;
  random : nat -> Q;
  randomText : nat -> string;
  drawn : nat;
  clock : Z;
  uuid : string;
  endpointCalls : nat;
}.

Definition with_app (f : AppState -> AppState) (w : World) : World :=
  {| app := f (app w); activeRequests := activeRequests w; controllers := controllers w;
     entries := entries w; throws := throws w; dispatched := dispatched w;
     console := console w; random := random w; randomText := randomText w;
     drawn := drawn w; clock := clock w; uuid := uuid w;
     endpointCalls := endpointCalls w |}.

Definition with_activeRequests (f : gmap string nat -> gmap string nat) (w : World) : World :=
  {| app := app w; activeRequests := f (activeRequests w); controllers := controllers w;
     entries := entries w; throws := throws w; dispatched := dispatched w;
     console := console w; random := random w; randomText := randomText w;
     drawn := drawn w; clock := clock w; uuid := uuid w;
     endpointCalls := endpointCalls w |}.

Definition with_controllers (f : list bool -> list bool) (w : World) : World :=
  {| app := app w; activeRequests := activeRequests w; controllers := f (controllers w);
     entries := entries w; throws := throws w; dispatched := dispatched w;
     console := console w; random := random w; randomText := randomText w;
     drawn := drawn w; clock := clock w; uuid := uuid w;
     endpointCalls := endpointCalls w |}.

Definition with_entries (f : gmap string Stored -> gmap string Stored) (w : World) : World :=
  {| app := app w; activeRequests := activeRequests w; controllers := controllers w;
     entries := f (entries w); throws := throws w; dispatched := dispatched w;
     console := console w; random := random w; randomText := randomText w;
     drawn := drawn w; clock := clock w; uuid := uuid w;
     endpointCalls := endpointCalls w |}.

Definition with_dispatched (f : list CustomEvent -> list CustomEvent) (w : World) : World :=
  {| app := app w; activeRequests := activeRequests w; controllers := controllers w;
     entries := entries w; throws := throws w; dispatched := f (dispatched w);
     console := console w; random := random w; randomText := randomText w;
     drawn := drawn w; clock := clock w; uuid := uuid w;
     endpointCalls := endpointCalls w |}.

Definition with_console (f : list ConsoleEntry -> list ConsoleEntry) (w : World) : World :=
  {| app := app w; activeRequests := activeRequests w; controllers := controllers w;
     entries := entries w; throws := throws w; dispatched := dispatched w;
     console := f (console w); random := random w; randomText := randomText w;
     drawn := drawn w; clock := clock w; uuid := uuid w;
     endpointCalls := endpointCalls w |}.

Definition with_drawn (f : nat -> nat) (w : World) : World :=
  {| app := app w; activeRequests := activeRequests w; controllers := controllers w;
     entries := entries w; throws := throws w; dispatched := dispatched w;
     console := console w; random := random w; randomText := randomText w;
     drawn := f (drawn w); clock := clock w; uuid := uuid w;
     endpointCalls := endpointCalls w |}.

Definition with_clock (f : Z -> Z) (w : World) : World :=
  {| app := app w; activeRequests := activeRequests w; controllers := controllers w;
     entries := entries w; throws := throws w; dispatched := dispatched w;
     console := console w; random := random w; randomText := randomText w;
     drawn := drawn w; clock := f (clock w); uuid := uuid w;
     endpointCalls := endpointCalls w |}.

Definition with_endpointCalls (f : nat -> nat) (w : World) : World :=
  {| app := app w; activeRequests := activeRequests w; controllers := controllers w;
     entries := entries w; throws := throws w; dispatched := dispatched w;
     console := console w; random := random w; randomText := randomText w;
     drawn := drawn w; clock := clock w; uuid := uuid w;
     endpointCalls := f (endpointCalls w) |}.

(* ===================================================================== *)
(** ** Synchronous code: state and exceptions                             *)
(* ===================================================================== *)

Inductive Completion (A : Type) :=
| Normal (a : A)
| Throw (e : Thrown).
Arguments Normal {A} a.
Arguments Throw {A} e.

(** A synchronous JavaScript computation: it runs to completion on the
    world and either returns or throws. *)
Definition Sync (A : Type) : Type := World -> Completion A * World.

Definition ret {A} (a : A) : Sync A := fun w => (Normal a, w).

Definition throw {A} (e : Thrown) : Sync A := fun w => (Throw e, w).

Definition bind {A B} (m : Sync A) (f : A -> Sync B) : Sync B :=
  fun w =>
    match m w with
    | (Normal a, w') => f a w'
    | (Throw e, w') => (Throw e, w')
    end.

(** [try { body } catch (e) { handler(e) }] *)
Definition try_catch {A} (body : Sync A) (handler : Thrown -> Sync A) : Sync A :=
  fun w =>
    match body w with
    | (Normal a, w') => (Normal a, w')
    | (Throw e, w') => handler e w'
    end.

Declare Scope sync_scope.
Delimit Scope sync_scope with sync.
Notation "x <- m ;; k" := (bind m (fun x => k))
  (at level 100, m at next level, right associativity) : sync_scope.
Notation "m ;; k" := (bind m (fun _ => k))
  (at level 100, right associativity) : sync_scope.
Local Open Scope sync_scope.

Definition get : Sync World := fun w => (Normal w, w).

Definition modify (f : World -> World) : Sync unit := fun w => (Normal tt, f w).

(** zustand's [get()] and [set(state => ...)]: the update of the state;
    the write [persist] makes after a [set] is not part of it. *)
Definition getState : Sync AppState := fun w => (Normal (app w), w).

Definition setState (f : AppState -> AppState) : Sync unit := modify (with_app f).

(** [Date.now()], also the reading behind [new Date().toISOString()]. *)
Definition now : Sync Z := fun w => (Normal (clock w), w).

(** [Math.random()]: the next draw of the stream. *)
Definition Math_random : Sync Q :=
  fun w => (Normal (random w (drawn w)), with_drawn S w).

Definition console_log (text : string) : Sync unit :=
  modify (with_console (fun c => c ++ [ConsoleLog text])).

Definition console_warn (text : string) : Sync unit :=
  modify (with_console (fun c => c ++ [ConsoleWarn text])).

Definition console_error (text : string) : Sync unit :=
  modify (with_console (fun c => c ++ [ConsoleError text])).

Definition dispatchEvent (e : CustomEvent) : Sync unit :=
  modify (with_dispatched (fun d => d ++ [e])).

(* ===================================================================== *)
(** ** Random utilities ([utils.ts])                                      *)
(* ===================================================================== *)

(** [Math.random().toString(36).substring(2) + Date.now().toString(36)]:
    one draw is consumed; [randomText] gives the text rendered from it. *)
Definition randomId : Sync string :=
  fun w => (Normal (randomText w (drawn w)), with_drawn S w).

(** [array[Math.floor(Math.random() * array.length)]]; an index outside
    the array reads [undefined], rendered as the empty string. *)
Definition randomChoice (array : list string) : Sync string :=
  r <- Math_random ;;
  ret (default "" (array !! Z.to_nat (Qfloor (r * inject_Z (Z.of_nat (length array)))%Q))).

Definition MOCK_GENERATED_IMAGES : list string :=
  [ "https://images.unsplash.com/photo-1469334031218-e382a71b716b?w=800&h=1200&fit=crop&crop=center";
    "https://images.unsplash.com/photo-1515886657613-9f3515b0c78f?w=800&h=1200&fit=crop&crop=center";
    "https://images.unsplash.com/photo-1506629905607-d52b3e5eb4bb?w=800&h=1200&fit=crop&crop=center";
    "https://images.unsplash.com/photo-1558618666-fcd25c85cd64?w=800&h=1200&fit=crop&crop=center";
    "https://images.unsplash.com/photo-1544966503-7e3ac882b2f7?w=800&h=1200&fit=crop&crop=center" ].

(** [Math.floor(Math.random() * (max - min + 1)) + min], for integer
    bounds. *)
Definition randomBetween (min max : Z) : Sync Z :=
  r <- Math_random ;;
  ret (Qfloor (r * inject_Z (max - min + 1))%Q + min)%Z.

(** [formatRelativeTime(date)]: [date] is the instant of the [Date], in
    milliseconds, and [toLocaleDateString] the rendering of a date in the
    locale of the host. *)
Definition formatRelativeTime (toLocaleDateString : Z -> string) (date : Z) : Sync string :=
  t <- now ;;
  let diffInMs := (t - date)%Z in
  let diffInMinutes := (diffInMs / (1000 * 60))%Z in
  let diffInHours := (diffInMs / (1000 * 60 * 60))%Z in
  let diffInDays := (diffInMs / (1000 * 60 * 60 * 24))%Z in
  ret (if (diffInMinutes <? 1)%Z then "Just now"
       else if (diffInMinutes <? 60)%Z then pretty diffInMinutes +:+ "m ago"
       else if (diffInHours <? 24)%Z then pretty diffInHours +:+ "h ago"
       else if (diffInDays <? 7)%Z then pretty diffInDays +:+ "d ago"
       else toLocaleDateString date).

(* ===================================================================== *)
(** ** [window.localStorage]                                              *)
(* ===================================================================== *)

Module localStorage.

(** Each call throws when the collaborator refuses it (storage disabled,
    private browsing, quota exceeded), as recorded by [throws]. *)
Definition setItem (key : string) (value : Stored) : Sync unit :=
  fun w =>
    if throws w (OpSetItem key)
    then (Throw (ThrownDOMException "QuotaExceededError"), w)
    else (Normal tt, with_entries (insert key value) w).

Definition getItem (key : string) : Sync (option Stored) :=
  fun w =>
    if throws w (OpGetItem key)
    then (Throw (ThrownDOMException "SecurityError"), w)
    else (Normal (entries w !! key), w).

Definition removeItem (key : string) : Sync unit :=
  fun w =>
    if throws w (OpRemoveItem key)
    then (Throw (ThrownDOMException "SecurityError"), w)
    else (Normal tt, with_entries (delete key) w).

End localStorage.

(** [JSON.parse(item)] at the expected document type. *)
Definition JSON_parse {T} `{Json T} (item : Stored) : Sync T :=
  match parse item with
  | Some t => ret t
  | None => throw (ThrownError "SyntaxError")
  end.

(* ===================================================================== *)
(** ** Storage utilities ([storage.ts])                                   *)
(* ===================================================================== *)

Module STORAGE_KEYS.
Definition HISTORY := "modelia_generation_history".
Definition SETTINGS := "modelia_user_settings".
Definition SESSION := "modelia_session_data".
Definition PREFERENCES := "modelia_user_preferences".
End STORAGE_KEYS.

Definition isStorageAvailable : Sync bool :=
  try_catch
    (let test := "__storage_test__" in
     localStorage.setItem test (StoredText test) ;;
     localStorage.removeItem test ;;
     ret true)
    (fun _ => ret false).

Definition safeStorageOperation {T} (operation : Sync T) (fallback : T)
    (operationName : string) : Sync T :=
  try_catch
    (available <- isStorageAvailable ;;
     if negb available then
       console_warn ("localStorage not available for " +:+ operationName) ;;
       ret fallback
     else operation)
    (fun _ =>
       console_error ("Storage operation failed (" +:+ operationName +:+ "):") ;;
       ret fallback).

Definition setItem {T} `{Json T} (key : string) (value : T) : Sync unit :=
  safeStorageOperation
    (localStorage.setItem key (stringify value))
    tt
    ("setItem(" +:+ key +:+ ")").

Definition getItem {T} `{Json T} (key : string) (fallback : T) : Sync T :=
  safeStorageOperation
    (item <- localStorage.getItem key ;;
     match item with
     | Some text => JSON_parse text
     | None => ret fallback
     end)
    fallback
    ("getItem(" +:+ key +:+ ")").

Definition removeItem (key : string) : Sync unit :=
  safeStorageOperation
    (localStorage.removeItem key)
    tt
    ("removeItem(" +:+ key +:+ ")").

(* --------------------------------------------------------------------- *)
(** *** History management                                                *)
(* --------------------------------------------------------------------- *)

Definition migrateHistoryV1 (oldStorage : HistoryStorage) : Sync (list HistoryItem) :=
  console_log "Migrating history storage to v1" ;;
  ret [].

Definition getHistoryItems : Sync (list HistoryItem) :=
  t <- now ;;
  historyStorage <- getItem STORAGE_KEYS.HISTORY
                      {| hst_items := []; hst_lastUpdated := t; hst_version := 1 |} ;;
  if (hst_version historyStorage <? 1)%Z
  then migrateHistoryV1 historyStorage
  else ret (hst_items historyStorage).

Definition saveHistoryItem (item : HistoryItem) : Sync unit :=
  history <- getHistoryItems ;;
  (* Remove item if it already exists (by ID) *)
  let filteredHistory :=
    filter (fun h => hi_id h ≠ hi_id item) history in
  (* Add new item to the beginning *)
  let newHistory := item :: filteredHistory in
  (* Keep only the last MAX_HISTORY_ITEMS *)
  let trimmedHistory := take MAX_HISTORY_ITEMS newHistory in
  t <- now ;;
  let historyStorage :=
    {| hst_items := trimmedHistory; hst_lastUpdated := t; hst_version := 1 |} in
  setItem STORAGE_KEYS.HISTORY historyStorage ;;
  dispatchEvent (historyUpdated (Some item)).

Definition removeHistoryItem (id : string) : Sync unit :=
  history <- getHistoryItems ;;
  let filteredHistory := filter (fun item => hi_id item ≠ id) history in
  t <- now ;;
  let historyStorage :=
    {| hst_items := filteredHistory; hst_lastUpdated := t; hst_version := 1 |} in
  setItem STORAGE_KEYS.HISTORY historyStorage ;;
  dispatchEvent (historyUpdated None).

Definition clearHistory : Sync unit :=
  removeItem STORAGE_KEYS.HISTORY ;;
  dispatchEvent historyCleared.

(** [!item.isFavorite]: an absent flag is falsy. *)
Definition notFavorite (item : HistoryItem) : bool :=
  negb (default false (hi_isFavorite item)).

(** [{ ...item, isFavorite: !item.isFavorite }] *)
Definition flipFavorite (item : HistoryItem) : HistoryItem :=
  {| hi_id := hi_id item; hi_imageUrl := hi_imageUrl item; hi_prompt := hi_prompt item;
     hi_style := hi_style item; hi_createdAt := hi_createdAt item;
     hi_processingTime := hi_processingTime item; hi_thumbnail := hi_thumbnail item;
     hi_isFavorite := Some (notFavorite item); hi_tags := hi_tags item |}.

Definition toggleHistoryItemFavorite (id : string) : Sync unit :=
  history <- getHistoryItems ;;
  let updatedHistory :=
    map (fun item => if decide (hi_id item = id) then flipFavorite item else item) history in
  t <- now ;;
  let historyStorage :=
    {| hst_items := updatedHistory; hst_lastUpdated := t; hst_version := 1 |} in
  setItem STORAGE_KEYS.HISTORY historyStorage ;;
  dispatchEvent (historyUpdated None).

(* --------------------------------------------------------------------- *)
(** *** User settings                                                     *)
(* --------------------------------------------------------------------- *)

Definition DEFAULT_SETTINGS : UserSettings :=
  {| us_theme := dark; us_autoRetry := true; us_saveToHistory := true;
     us_compressionQuality := 8 # 10; us_maxFileSize := 10 * 1024 * 1024;
     us_defaultStyle := "editorial"; us_showTutorial := true;
     us_enableNotifications := true; us_version := 1 |}.

Definition getSettings : Sync UserSettings :=
  getItem STORAGE_KEYS.SETTINGS DEFAULT_SETTINGS.

(** [{ ...currentSettings, ...settings, version: DEFAULT_SETTINGS.version }] *)
Definition mergeSettings (current : UserSettings) (settings : PartialUserSettings)
    : UserSettings :=
  {| us_theme := default (us_theme current) (pus_theme settings);
     us_autoRetry := default (us_autoRetry current) (pus_autoRetry settings);
     us_saveToHistory := default (us_saveToHistory current) (pus_saveToHistory settings);
     us_compressionQuality :=
       default (us_compressionQuality current) (pus_compressionQuality settings);
     us_maxFileSize := default (us_maxFileSize current) (pus_maxFileSize settings);
     us_defaultStyle := default (us_defaultStyle current) (pus_defaultStyle settings);
     us_showTutorial := default (us_showTutorial current) (pus_showTutorial settings);
     us_enableNotifications :=
       default (us_enableNotifications current) (pus_enableNotifications settings);
     us_version := us_version DEFAULT_SETTINGS |}.

Definition saveSettings (settings : PartialUserSettings) : Sync unit :=
  currentSettings <- getSettings ;;
  let updatedSettings := mergeSettings currentSettings settings in
  setItem STORAGE_KEYS.SETTINGS updatedSettings ;;
  dispatchEvent (settingsUpdated updatedSettings).

Definition resetSettings : Sync unit :=
  setItem STORAGE_KEYS.SETTINGS DEFAULT_SETTINGS ;;
  dispatchEvent settingsReset.

(* --------------------------------------------------------------------- *)
(** *** Session data                                                      *)
(* --------------------------------------------------------------------- *)

(** [crypto.randomUUID()] is taken to be present; it returns [uuid]. *)
Definition crypto_randomUUID : Sync string := fun w => (Normal (uuid w), w).

Definition initializeSession : Sync SessionData :=
  sessionId <- crypto_randomUUID ;;
  t <- now ;;
  let sessionData :=
    {| sd_sessionId := sessionId; sd_startTime := t; sd_lastActivity := t;
       sd_generationCount := 0; sd_totalUploadSize := 0; sd_version := 1 |} in
  setItem STORAGE_KEYS.SESSION sessionData ;;
  ret sessionData.

Definition getSessionData : Sync SessionData :=
  session <- getItem STORAGE_KEYS.SESSION (None : option SessionData) ;;
  match session with
  | None => initializeSession
  | Some session => ret session
  end.

Definition updateSessionActivity : Sync unit :=
  sessionData <- getSessionData ;;
  t <- now ;;
  setItem STORAGE_KEYS.SESSION
    {| sd_sessionId := sd_sessionId sessionData; sd_startTime := sd_startTime sessionData;
       sd_lastActivity := t; sd_generationCount := sd_generationCount sessionData;
       sd_totalUploadSize := sd_totalUploadSize sessionData;
       sd_version := sd_version sessionData |}.

Definition incrementGenerationCount : Sync unit :=
  sessionData <- getSessionData ;;
  t <- now ;;
  setItem STORAGE_KEYS.SESSION
    {| sd_sessionId := sd_sessionId sessionData; sd_startTime := sd_startTime sessionData;
       sd_lastActivity := t; sd_generationCount := sd_generationCount sessionData + 1;
       sd_totalUploadSize := sd_totalUploadSize sessionData;
       sd_version := sd_version sessionData |}.

Definition addToUploadSize (bytes : Z) : Sync unit :=
  sessionData <- getSessionData ;;
  t <- now ;;
  setItem STORAGE_KEYS.SESSION
    {| sd_sessionId := sd_sessionId sessionData; sd_startTime := sd_startTime sessionData;
       sd_lastActivity := t; sd_generationCount := sd_generationCount sessionData;
       sd_totalUploadSize := sd_totalUploadSize sessionData + bytes;
       sd_version := sd_version sessionData |}.

Definition clearSession : Sync unit :=
  removeItem STORAGE_KEYS.SESSION.

(* --------------------------------------------------------------------- *)
(** *** User preferences                                                  *)
(* --------------------------------------------------------------------- *)

Definition DEFAULT_PREFERENCES : UserPreferences :=
  {| pr_recentPrompts := []; pr_favoriteStyles := ["editorial"];
     pr_uploadPreferences :=
       {| up_autoResize := true; up_preferredFormat := webp; up_quality := 8 # 10 |};
     pr_uiPreferences :=
       {| ui_sidebarCollapsed := false; ui_gridView := true; ui_showPreviewInfo := true |};
     pr_version := 1 |}.

Definition getPreferences : Sync UserPreferences :=
  getItem STORAGE_KEYS.PREFERENCES DEFAULT_PREFERENCES.

(** [{ ...currentPreferences, ...preferences, version: DEFAULT_PREFERENCES.version }] *)
Definition mergePreferences (current : UserPreferences)
    (preferences : PartialUserPreferences) : UserPreferences :=
  {| pr_recentPrompts := default (pr_recentPrompts current) (ppr_recentPrompts preferences);
     pr_favoriteStyles := default (pr_favoriteStyles current) (ppr_favoriteStyles preferences);
     pr_uploadPreferences :=
       default (pr_uploadPreferences current) (ppr_uploadPreferences preferences);
     pr_uiPreferences := default (pr_uiPreferences current) (ppr_uiPreferences preferences);
     pr_version := pr_version DEFAULT_PREFERENCES |}.

Definition savePreferences (preferences : PartialUserPreferences) : Sync unit :=
  currentPreferences <- getPreferences ;;
  let updatedPreferences := mergePreferences currentPreferences preferences in
  setItem STORAGE_KEYS.PREFERENCES updatedPreferences ;;
  dispatchEvent (preferencesUpdated updatedPreferences).

Definition addRecentPrompt (prompt : string) : Sync unit :=
  preferences <- getPreferences ;;
  let trimmedPrompt := JsString.trim prompt in
  if negb (JsString.truthy trimmedPrompt)
     || bool_decide (trimmedPrompt ∈ pr_recentPrompts preferences)
  then ret tt
  else
    let updatedPrompts := take 10 (trimmedPrompt :: pr_recentPrompts preferences) in
    savePreferences
      {| ppr_recentPrompts := Some updatedPrompts; ppr_favoriteStyles := None;
         ppr_uploadPreferences := None; ppr_uiPreferences := None;
         ppr_version := None |}.

Definition toggleFavoriteStyle (style : string) : Sync unit :=
  preferences <- getPreferences ;;
  let favoriteStyles :=
    if bool_decide (style ∈ pr_favoriteStyles preferences)
    then filter (fun s => s ≠ style) (pr_favoriteStyles preferences)
    else pr_favoriteStyles preferences ++ [style] in
  savePreferences
    {| ppr_recentPrompts := None; ppr_favoriteStyles := Some favoriteStyles;
       ppr_uploadPreferences := None; ppr_uiPreferences := None;
       ppr_version := None |}.

(* --------------------------------------------------------------------- *)
(** *** Cleanup                                                           *)
(* --------------------------------------------------------------------- *)

(** The default of [maxAge]: 30 days, in milliseconds. *)
Definition DEFAULT_MAX_AGE : Z := 30 * 24 * 60 * 60 * 1000.


(* ===================================================================== *)
(** ** Request validation ([api.ts])                                      *)
(* ===================================================================== *)

Definition isValidStyle (style : string) : bool :=
  let validStyles := ["editorial"; "streetwear"; "vintage"; "luxury"; "casual"] in
  bool_decide (style ∈ validStyles).

Definition validateGenerationRequest (request : GenerationRequest) : Sync unit :=
  t <- now ;;
  if negb (JsString.truthy (req_imageDataUrl request)) then
    throw (ThrownApiError (ApiErrorClass "Image data URL is required" "VALIDATION_ERROR" false t))
  else if negb (JsString.truthy (req_prompt request))
          || (String.length (JsString.trim (req_prompt request)) =? 0)%nat then
    throw (ThrownApiError (ApiErrorClass "Prompt is required" "VALIDATION_ERROR" false t))
  else if (500 <? String.length (JsString.trim (req_prompt request)))%nat then
    throw (ThrownApiError
             (ApiErrorClass "Prompt is too long (max 500 characters)" "VALIDATION_ERROR" false t))
  else if negb (isValidStyle (req_style request)) then
    throw (ThrownApiError (ApiErrorClass "Invalid style option" "VALIDATION_ERROR" false t))
  else if negb (JsString.startsWith (req_imageDataUrl request) "data:image/") then
    throw (ThrownApiError
             (ApiErrorClass "Invalid image data URL format" "VALIDATION_ERROR" false t))
  else ret tt.

(* ===================================================================== *)
(** ** Asynchronous code: suspension at [await delay(ms)]                 *)
(* ===================================================================== *)

(** The run of an [async] function from a world: it has settled (resolved
    or rejected) leaving a world, or it is suspended at [await delay(ms)],
    having left the world [w]; the continuation takes the world found when
    the timer fires, which other code (a user action, another request) may
    have changed in between. *)
Inductive Run (A : Type) : Type :=
| Settled (c : Completion A) (w : World)
| Pending (ms : Q) (w : World) (k : World -> Run A).
Arguments Settled {A} c w.
Arguments Pending {A} ms w k.

Definition Async (A : Type) : Type := World -> Run A.

(** A synchronous step inside an [async] function. *)
Definition lift {A} (m : Sync A) : Async A :=
  fun w => let '(c, w') := m w in Settled c w'.

Fixpoint Run_bind {A B} (r : Run A) (f : A -> Async B) : Run B :=
  match r with
  | Settled (Normal a) w => f a w
  | Settled (Throw e) w => Settled (Throw e) w
  | Pending ms w k => Pending ms w (fun w' => Run_bind (k w') f)
  end.

(** [const x = await m; ...] *)
Definition await {A B} (m : Async A) (f : A -> Async B) : Async B :=
  fun w => Run_bind (m w) f.

(** The completion of the awaited computation, for [try]/[catch] around an
    [await]: [reify m] never rejects. *)
Fixpoint Run_reify {A} (r : Run A) : Run (Completion A) :=
  match r with
  | Settled c w => Settled (Normal c) w
  | Pending ms w k => Pending ms w (fun w' => Run_reify (k w'))
  end.

Definition reify {A} (m : Async A) : Async (Completion A) :=
  fun w => Run_reify (m w).

(** [delay(ms)] of [utils.ts]: a promise resolved by [setTimeout]. *)
Definition delay (ms : Q) : Async unit :=
  fun w => Pending ms w (fun w' => Settled (Normal tt) w').

Declare Scope async_scope.
Delimit Scope async_scope with async.
Notation "x <~ m ;; k" := (await m (fun x => k))
  (at level 100, m at next level, right associativity) : async_scope.
Notation "m ~;; k" := (await m (fun _ => k))
  (at level 100, right associativity) : async_scope.
Notation "x <- m ;; k" := (await (lift m) (fun x => k))
  (at level 100, m at next level, right associativity) : async_scope.
Notation "m ;; k" := (await (lift m) (fun _ => k))
  (at level 100, right associativity) : async_scope.

Definition resolve {A} (a : A) : Async A := lift (ret a).
Definition reject {A} (e : Thrown) : Async A := lift (throw e).

(* ===================================================================== *)
(** ** Mock API ([api.ts])                                                *)
(* ===================================================================== *)

Definition ERROR_RATE : Q := 2 # 10.
Definition MIN_PROCESSING_TIME : Z := 1000.
Definition MAX_PROCESSING_TIME : Z := 2000.

Definition Qlt_bool (a b : Q) : bool := negb (Qle_bool b a).

Definition shouldSimulateError : Sync bool :=
  r <- Math_random ;;
  ret (Qlt_bool r ERROR_RATE).

Definition createMockError : Sync ApiError :=
  let errorMessages :=
    [ "Model overloaded"; "Server temporarily unavailable";
      "Generation queue is full"; "Processing capacity exceeded" ] in
  message <- randomChoice errorMessages ;;
  t <- now ;;
  ret {| err_name := "ApiError"; err_message := message; err_code := "MODEL_OVERLOADED";
         err_retryable := true; err_timestamp := t |}.

(** [Math.floor(Math.random() * (MAX - MIN + 1) + MIN)], in exact
    arithmetic. *)
Definition drawProcessingTime : Sync Z :=
  r <- Math_random ;;
  ret (Qfloor (r * inject_Z (MAX_PROCESSING_TIME - MIN_PROCESSING_TIME + 1)
               + inject_Z MIN_PROCESSING_TIME)%Q).

Definition createMockResponse (request : GenerationRequest) : Sync GenerationResponse :=
  processingTime <- drawProcessingTime ;;
  id <- randomId ;;
  imageUrl <- randomChoice MOCK_GENERATED_IMAGES ;;
  t <- now ;;
  ret {| res_id := id; res_imageUrl := imageUrl; res_prompt := req_prompt request;
         res_style := req_style request; res_createdAt := t;
         res_processingTime := Some processingTime |}.

(** [signal?.aborted]: the flag of the controller behind the signal. *)
Definition abortedIn (signal : option nat) (w : World) : bool :=
  match signal with
  | Some address => default false (controllers w !! address)
  | None => false
  end.

Definition signal_aborted (signal : option nat) : Sync bool :=
  fun w => (Normal (abortedIn signal w), w).

(** [generateImage] from the point where [await delay(processingTime)]
    resumes. *)
Definition afterProcessing (request : GenerationRequest) (signal : option nat)
    : Async GenerationResponse :=
  ((* Check for abort *)
   isAborted <- signal_aborted signal ;;
   if isAborted then reject (ThrownError "Request aborted")
   else
     (* Simulate error *)
     simulateError <- shouldSimulateError ;;
     if simulateError then
       mockError <- createMockError ;;
       reject (ThrownApiError mockError)
     else
       (* Return successful response *)
       lift (createMockResponse request))%async.

Definition generateImage (request : GenerationRequest) (signal : option nat)
    : Async GenerationResponse :=
  (modify (with_endpointCalls S) ;;
   (* Validate request *)
   validateGenerationRequest request ;;
   (* Simulate network delay *)
   processingTime <- drawProcessingTime ;;
   delay (inject_Z processingTime) ~;;
   afterProcessing request signal)%async.

(** [Math.min(config.baseDelay * Math.pow(config.backoffMultiplier, attempt - 1),
              config.maxDelay)] *)
Definition backoffDelay (config : RetryConfig) (attempt : nat) : Q :=
  Qmin (baseDelay config * backoffMultiplier config ^ (Z.of_nat attempt - 1))%Q
       (maxDelay config).

(** [Math.max(0, backoffDelay + backoffDelay * 0.25 * (r * 2 - 1))] for the
    draw [r] of [Math.random()]. *)
Definition delayWithJitter (config : RetryConfig) (attempt : nat) (r : Q) : Q :=
  let jitter := (backoffDelay config attempt * (25 # 100) * (r * 2 - 1))%Q in
  Qmax 0 (backoffDelay config attempt + jitter)%Q.

(** [onRetry?.(attempt, error)] *)
Definition callRetry (callback : option (nat -> ApiError -> Sync unit))
    (attempt : nat) (apiError : ApiError) : Sync unit :=
  match callback with
  | Some callback => callback attempt apiError
  | None => ret tt
  end.

(** The body of the [for] loop of [generateImageWithRetry], from iteration
    [attempt] on, with [remaining] iterations left before the loop
    condition [attempt <= config.maxAttempts] fails. *)
Fixpoint retryLoop (request : GenerationRequest) (config : RetryConfig)
    (signal : option nat) (onRetry : option (nat -> ApiError -> Sync unit))
    (remaining attempt : nat) (lastError : option ApiError)
    : Async GenerationResponse :=
  match remaining with
  | O =>
      reject (match lastError with
              | Some e => ThrownApiError e
              | None => ThrownError "Maximum retry attempts exceeded"
              end)
  | S remaining' =>
      (outcome <~ reify (generateImage request signal) ;;
       match outcome with
       | Normal response => resolve response
       | Throw thrown =>
           (* Check for abort *)
           isAborted <- signal_aborted signal ;;
           if isAborted then reject (ThrownError "Request aborted")
           else
             (* Handle API errors *)
             match isApiError thrown with
             | Some apiError =>
                 (* Don't retry non-retryable errors *)
                 if negb (err_retryable apiError) then reject thrown
                 (* Don't retry on last attempt *)
                 else if (attempt =? maxAttempts config)%nat then reject thrown
                 else
                   (* Notify retry callback *)
                   callRetry onRetry attempt apiError ;;
                   r <- Math_random ;;
                   console_log "Retrying" ;;
                   delay (delayWithJitter config attempt r) ~;;
                   retryLoop request config signal onRetry remaining' (S attempt)
                             (Some apiError)
             | None =>
                 (* Unknown error, don't retry *)
                 reject thrown
             end
       end)%async
  end.

Definition generateImageWithRetry (request : GenerationRequest) (config : RetryConfig)
    (signal : option nat) (onRetry : option (nat -> ApiError -> Sync unit))
    : Async GenerationResponse :=
  retryLoop request config signal onRetry (maxAttempts config) 1 None.

(* --------------------------------------------------------------------- *)
(** *** Request management                                                *)
(* --------------------------------------------------------------------- *)

Module RequestManager.

(** [controller.abort()] on the controller at [address]. *)
Definition abort (address : nat) : Sync unit :=
  modify (with_controllers (fun cs => <[address := true]> cs)).

(** [new AbortController()]: a fresh address, flag not set. *)
Definition newAbortController : Sync nat :=
  fun w => (Normal (length (controllers w)),
            with_controllers (fun cs => cs ++ [false]) w).

Definition cancelRequest (requestId : string) : Sync unit :=
  w <- get ;;
  match activeRequests w !! requestId with
  | Some controller =>
      abort controller ;;
      modify (with_activeRequests (delete requestId))
  | None => ret tt
  end.

Definition makeRequest {T} (requestId : string) (requestFn : nat -> Async T) : Async T :=
  ((* Cancel existing request with same ID *)
   cancelRequest requestId ;;
   (* Create new abort controller *)
   controller <- newAbortController ;;
   modify (with_activeRequests (insert requestId controller)) ;;
   outcome <~ reify (requestFn controller) ;;
   match outcome with
   | Normal result =>
       modify (with_activeRequests (delete requestId)) ;;
       resolve result
   | Throw thrown =>
       modify (with_activeRequests (delete requestId)) ;;
       reject thrown
   end)%async.

Definition cancelAllRequests : Sync unit :=
  w <- get ;;
  modify (with_controllers
            (fun cs => foldr (fun kv acc => <[kv.2 := true]> acc) cs
                             (map_to_list (activeRequests w)))) ;;
  modify (with_activeRequests (fun _ => ∅)).

Definition isRequestActive (requestId : string) : Sync bool :=
  w <- get ;;
  ret (bool_decide (is_Some (activeRequests w !! requestId))).

Definition getActiveRequestCount : Sync nat :=
  w <- get ;;
  ret (size (activeRequests w)).

End RequestManager.

(* --------------------------------------------------------------------- *)
(** *** High-level API interface                                          *)
(* --------------------------------------------------------------------- *)

(** [Partial<RetryConfig>] *)
Record PartialRetryConfig := {
  prc_maxAttempts : option nat;
  prc_baseDelay : option Q;
  prc_maxDelay : option Q;
  prc_backoffMultiplier : option Q;
}.

Record GenerationOptions := {
  retryConfig : option PartialRetryConfig;
  onRetry : option (nat -> ApiError -> Sync unit);
  onProgress : option (Z -> Sync unit);
}.

(** [{ ...RETRY_CONFIG, ...options.retryConfig }] *)
Definition mergeRetryConfig (partial : option PartialRetryConfig) : RetryConfig :=
  match partial with
  | None => RETRY_CONFIG
  | Some p =>
      {| maxAttempts := default (maxAttempts RETRY_CONFIG) (prc_maxAttempts p);
         baseDelay := default (baseDelay RETRY_CONFIG) (prc_baseDelay p);
         maxDelay := default (maxDelay RETRY_CONFIG) (prc_maxDelay p);
         backoffMultiplier :=
           default (backoffMultiplier RETRY_CONFIG) (prc_backoffMultiplier p) |}
  end.

Definition callProgress (options : GenerationOptions) (percent : Z) : Sync unit :=
  match onProgress options with
  | Some callback => callback percent
  | None => ret tt
  end.

Definition createGeneration (request : GenerationRequest) (options : GenerationOptions)
    : Async GenerationResponse :=
  (requestId <- match req_requestId request with
                | Some id => if JsString.truthy id then ret id else randomId
                | None => randomId
                end ;;
   let retryConfig := mergeRetryConfig (retryConfig options) in
   RequestManager.makeRequest requestId (fun signal =>
     (* Simulate progress updates *)
     match onProgress options with
     | Some callback =>
         callback 10%Z ;;
         delay 100 ~;;
         callback 30%Z ;;
         delay 200 ~;;
         callback 60%Z ;;
         delay 300 ~;;
         lift (callback 90%Z)
     | None => resolve tt
     end ~;;
     result <~ generateImageWithRetry request retryConfig (Some signal) (onRetry options) ;;
     callProgress options 100%Z ;;
     resolve result))%async.

Definition cancelGeneration (requestId : string) : Sync unit :=
  RequestManager.cancelRequest requestId.

Definition cancelAllGenerations : Sync unit :=
  RequestManager.cancelAllRequests.

(* --------------------------------------------------------------------- *)
(** *** API status                                                        *)
(* --------------------------------------------------------------------- *)

Record ApiStatus := {
  online : bool;
  latency : Z;
  as_errorRate : Q;
  as_activeRequests : nat;
}.

Definition getApiStatus : Async ApiStatus :=
  (start <- now ;;
   outcome <~ reify
     ((* Simulate health check *)
      r <- Math_random ;;
      delay (r * 100 + 50)%Q ~;;
      t <- now ;;
      count <- RequestManager.getActiveRequestCount ;;
      resolve {| online := true; latency := t - start; as_errorRate := ERROR_RATE;
                 as_activeRequests := count |}) ;;
   match outcome with
   | Normal apiStatus => resolve apiStatus
   | Throw _ =>
       count <- RequestManager.getActiveRequestCount ;;
       resolve {| online := false; latency := -1; as_errorRate := 1;
                  as_activeRequests := count |}
   end)%async.

(* ===================================================================== *)
(** ** The application store ([store.ts])                                 *)
(* ===================================================================== *)

Definition with_generation (f : GenerationState -> GenerationState) (s : AppState) : AppState :=
  {| preview := preview s; generation := f (generation s);
     history := history s; form := form s |}.

Definition with_preview (f : PreviewState -> PreviewState) (s : AppState) : AppState :=
  {| preview := f (preview s); generation := generation s;
     history := history s; form := form s |}.

Definition with_history (f : HistoryState -> HistoryState) (s : AppState) : AppState :=
  {| preview := preview s; generation := generation s;
     history := f (history s); form := form s |}.

Definition with_form (f : FormState -> FormState) (s : AppState) : AppState :=
  {| preview := preview s; generation := generation s;
     history := history s; form := f (form s) |}.

(** [{ ...state.preview, isGenerating }] *)
Definition with_isGenerating (b : bool) (p : PreviewState) : PreviewState :=
  {| currentImage := currentImage p; currentPrompt := currentPrompt p;
     currentStyle := currentStyle p; isGenerating := b;
     showComparison := showComparison p |}.

Module actions.

(* ------------------------------------------------------------------- *)
(** *** Form actions                                                    *)
(* ------------------------------------------------------------------- *)

(** [errors.required?.[0] || errors.minLength?.[0] || errors.maxLength?.[0]
     || errors.content?.[0]] *)
Definition firstMessage (errors : gmap string (list string)) : option string :=
  let at_ key := errors !! key ≫= head in
  let pick (a b : option string) :=
    match a with
    | Some m => if JsString.truthy m then a else b
    | None => b
    end in
  pick (at_ "required") (pick (at_ "minLength") (pick (at_ "maxLength") (at_ "content"))).

Definition setPrompt (prompt : string) : Sync unit :=
  let validation := validatePrompt prompt in
  setState (fun state =>
    {| preview :=
         {| currentImage := currentImage (preview state); currentPrompt := prompt;
            currentStyle := currentStyle (preview state);
            isGenerating := isGenerating (preview state);
            showComparison := showComparison (preview state) |};
       generation := generation state;
       history := history state;
       form :=
         {| form_prompt :=
              {| pf_value := prompt; pf_isValid := isValid validation;
                 pf_error := firstMessage (errors validation) |};
            form_style := form_style (form state);
            form_image := form_image (form state) |} |}).

Definition setStyle (style : StyleOption) : Sync unit :=
  setState (fun state =>
    {| preview :=
         {| currentImage := currentImage (preview state);
            currentPrompt := currentPrompt (preview state);
            currentStyle := style;
            isGenerating := isGenerating (preview state);
            showComparison := showComparison (preview state) |};
       generation := generation state;
       history := history state;
       form :=
         {| form_prompt := form_prompt (form state);
            form_style := {| sf_value := style; sf_isValid := true |};
            form_image := form_image (form state) |} |}).

Definition validateForm : Sync bool :=
  state <- getState ;;
  ret (pf_isValid (form_prompt (form state))
       && sf_isValid (form_style (form state))
       && if_isValid (form_image (form state))).

Definition resetForm : Sync unit :=
  setState (fun state =>
    {| preview :=
         {| currentImage := currentImage (preview state); currentPrompt := "";
            currentStyle := "editorial";
            isGenerating := isGenerating (preview state);
            showComparison := showComparison (preview state) |};
       generation := generation state;
       history := history state;
       form :=
         {| form_prompt := {| pf_value := ""; pf_error := None; pf_isValid := false |};
            form_style := {| sf_value := "editorial"; sf_isValid := true |};
            form_image := {| if_file := None; if_error := None; if_isValid := false |} |} |}).

(* ------------------------------------------------------------------- *)
(** *** History actions                                                 *)
(* ------------------------------------------------------------------- *)

Definition loadHistory : Sync unit :=
  items <- getHistoryItems ;;
  setState (with_history (fun h =>
    {| hs_items := items; hs_maxItems := hs_maxItems h;
       hs_currentItem := hs_currentItem h |})).

Definition selectHistoryItem (item : HistoryItem) : Sync unit :=
  setState (fun state =>
    {| preview :=
         {| currentImage := currentImage (preview state);
            currentPrompt := hi_prompt item;
            currentStyle := hi_style item;
            isGenerating := isGenerating (preview state);
            showComparison := true |};
       generation := generation state;
       history :=
         {| hs_items := hs_items (history state); hs_maxItems := hs_maxItems (history state);
            hs_currentItem := Some item |};
       form :=
         {| form_prompt :=
              {| pf_value := hi_prompt item; pf_error := None; pf_isValid := true |};
            form_style := {| sf_value := hi_style item; sf_isValid := true |};
            form_image := form_image (form state) |} |}).

Definition removeFromHistory (id : string) : Sync unit :=
  removeHistoryItem id ;;
  loadHistory.

Definition clearAllHistory : Sync unit :=
  clearHistory ;;
  setState (with_history (fun h =>
    {| hs_items := []; hs_maxItems := hs_maxItems h; hs_currentItem := None |})).

Definition toggleFavorite (id : string) : Sync unit :=
  toggleHistoryItemFavorite id ;;
  loadHistory.

(* ------------------------------------------------------------------- *)
(** *** Generation actions                                              *)
(* ------------------------------------------------------------------- *)

(** [{ ...result, thumbnail }] *)
Definition historyItemOf (result : GenerationResponse) (thumbnail : string) : HistoryItem :=
  {| hi_id := res_id result; hi_imageUrl := res_imageUrl result;
     hi_prompt := res_prompt result; hi_style := res_style result;
     hi_createdAt := res_createdAt result;
     hi_processingTime := res_processingTime result;
     hi_thumbnail := Some thumbnail; hi_isFavorite := None; hi_tags := None |}.

(** The [ApiError] built in the [catch] of [startGeneration]:
    [error.message || "Generation failed"], [error.code || "UNKNOWN_ERROR"],
    [error.retryable ?? true]. *)
Definition apiErrorOf (thrown : Thrown) (t : Z) : ApiError :=
  match thrown with
  | ThrownApiError e =>
      {| err_name := "ApiError";
         err_message := JsString.orElse (err_message e) "Generation failed";
         err_code := JsString.orElse (err_code e) "UNKNOWN_ERROR";
         err_retryable := err_retryable e;
         err_timestamp := t |}
  | ThrownError message | ThrownDOMException message =>
      {| err_name := "ApiError";
         err_message := JsString.orElse message "Generation failed";
         err_code := "UNKNOWN_ERROR";
         err_retryable := true;
         err_timestamp := t |}
  end.

(** The options [startGeneration] passes to [createGeneration]: the
    default retry configuration and the two observers writing to the
    store. *)
Definition generationOptions : GenerationOptions :=
  {| retryConfig :=
       Some {| prc_maxAttempts := Some (maxAttempts RETRY_CONFIG);
               prc_baseDelay := Some (baseDelay RETRY_CONFIG);
               prc_maxDelay := Some (maxDelay RETRY_CONFIG);
               prc_backoffMultiplier := Some (backoffMultiplier RETRY_CONFIG) |};
     onRetry := Some (fun attempt error =>
       setState (with_generation (fun g =>
         {| status := status g; progress := progress g;
            currentRequest := currentRequest g; result := result g;
            gen_error := Some error; retryCount := attempt;
            canRetry := canRetry g |})));
     onProgress := Some (fun percent =>
       setState (with_generation (fun g =>
         {| status := status g; progress := percent;
            currentRequest := currentRequest g; result := result g;
            gen_error := gen_error g; retryCount := retryCount g;
            canRetry := canRetry g |}))) |}.

Definition startGeneration : Async unit :=
  (state <- getState ;;
   formOk <- validateForm ;;
   if negb formOk then
     lift (console_error "Form validation failed")
   else
     match currentImage (preview state) with
     | None => lift (console_error "No image selected")
     | Some currentImage =>
         let currentPrompt := currentPrompt (preview state) in
         let currentStyle := currentStyle (preview state) in
         requestId <- randomId ;;
         let request :=
           {| req_imageDataUrl := img_dataUrl currentImage;
              req_prompt := JsString.trim currentPrompt;
              req_style := currentStyle;
              req_requestId := Some requestId |} in
         (* Update state to show generation in progress *)
         setState (fun state =>
           with_preview (with_isGenerating true)
             (with_generation (fun g =>
                {| status := generating; progress := 0;
                   currentRequest := Some request; result := None;
                   gen_error := None; retryCount := 0; canRetry := false |}) state)) ;;
         outcome <~ reify
           (result <~ createGeneration request generationOptions ;;
            (* Success - update state and save to history *)
            setState (fun state =>
              with_preview (with_isGenerating false)
                (with_generation (fun g =>
                   {| status := success; progress := 100;
                      currentRequest := currentRequest g; result := Some result;
                      gen_error := None; retryCount := retryCount g;
                      canRetry := false |}) state)) ;;
            (* Save to history *)
            let historyItem := historyItemOf result (img_dataUrl currentImage) in
            saveHistoryItem historyItem ;;
            loadHistory ;;
            (* Add prompt to recent prompts *)
            addRecentPrompt (JsString.trim currentPrompt) ;;
            (* Update session stats *)
            incrementGenerationCount ;;
            lift updateSessionActivity) ;;
         match outcome with
         | Normal _ => resolve tt
         | Throw thrown =>
             (* Handle error *)
             t <- now ;;
             let apiError := apiErrorOf thrown t in
             lift (setState (fun state =>
               with_preview (with_isGenerating false)
                 (with_generation (fun g =>
                    {| status := error; progress := progress g;
                       currentRequest := currentRequest g; result := result g;
                       gen_error := Some apiError; retryCount := retryCount g;
                       canRetry := err_retryable apiError
                                   && bool_decide (retryCount g < maxAttempts RETRY_CONFIG)%nat |})
                    state)))
         end
     end)%async.

Definition abortGeneration : Sync unit :=
  state <- getState ;;
  match currentRequest (generation state) ≫= req_requestId with
  | Some requestId =>
      if JsString.truthy requestId then cancelGeneration requestId else ret tt
  | None => ret tt
  end ;;
  setState (fun state =>
    with_preview (with_isGenerating false)
      (with_generation (fun g =>
         {| status := aborted; progress := 0;
            currentRequest := currentRequest g; result := result g;
            gen_error := None; retryCount := retryCount g;
            canRetry := false |}) state)).

Definition retryGeneration : Async unit :=
  (state <- getState ;;
   match currentRequest (generation state) with
   | Some _ =>
       if negb (canRetry (generation state)) then resolve tt
       else
         (* Reset state and retry *)
         setState (fun state =>
           with_preview (with_isGenerating true)
             (with_generation (fun g =>
                {| status := generating; progress := 0;
                   currentRequest := currentRequest g; result := result g;
                   gen_error := None; retryCount := retryCount g;
                   canRetry := canRetry g |}) state)) ;;
         (* Use the existing startGeneration logic *)
         startGeneration
   | None => resolve tt
   end)%async.

(* ------------------------------------------------------------------- *)
(** *** UI actions                                                      *)
(* ------------------------------------------------------------------- *)

(** The modal stack is a slice of its own; [openModal] and [closeModal]
    are given as the functions their updaters apply to it.
    [[...state.modalStack, modalId]] *)
Definition openModal (modalId : string) (modalStack : list string) : list string :=
  modalStack ++ [modalId].

(** [modalId ? state.modalStack.filter(id => id !== modalId)
             : state.modalStack.slice(0, -1)]; the argument is optional. *)
Definition closeModal (modalId : option string) (modalStack : list string) : list string :=
  match modalId with
  | Some modalId =>
      if JsString.truthy modalId then filter (fun id => id ≠ modalId) modalStack
      else take (length modalStack - 1) modalStack
  | None => take (length modalStack - 1) modalStack
  end.

(* ------------------------------------------------------------------- *)
(** *** Session actions                                                 *)
(* ------------------------------------------------------------------- *)

Definition initializeSession : Sync unit :=
  updateSessionActivity ;;
  loadHistory.

End actions.

(* ===================================================================== *)
(** ** Running asynchronous code                                          *)
(* ===================================================================== *)

(** The timer of a pending [delay(ms)] fires: the clock has advanced by at
    least [ms] (rounded up to a whole millisecond). *)
Definition elapse (ms : Q) (w : World) : World :=
  with_clock (fun t => (t + Qceiling ms)%Z) w.

(** Nothing else happens while the run is suspended: every timer fires in
    the world its suspension left. *)
Fixpoint settle {A} (r : Run A) : Completion A * World :=
  match r with
  | Settled c w => (c, w)
  | Pending ms w k => settle (k (elapse ms w))
  end.

(** The user takes [action] while the run is suspended for the [n]-th time
    (counting from 0): the rest of the run, resumed in the world the action
    left. There is none when the run settles before that. *)
Fixpoint resume {A} (n : nat) (action : Sync unit) (r : Run A) : option (Run A) :=
  match r with
  | Settled _ _ => None
  | Pending ms w k =>
      match n with
      | O => Some (k (elapse ms (snd (action w))))
      | S n' => resume n' action (k (elapse ms w))
      end
  end.

(** The suspensions a run goes through, in order. *)
Fixpoint delays {A} (r : Run A) : list Q :=
  match r with
  | Settled _ _ => []
  | Pending ms w k => ms :: delays (k (elapse ms w))
  end.

(* ===================================================================== *)
(** ** Vocabulary of the statements                                       *)
(* ===================================================================== *)

(** A computation that returns on every world, whatever the collaborators
    do: no exception reaches the caller. *)
Definition never_throws {A} (m : Sync A) : Prop :=
  forall w, exists a w', m w = (Normal a, w').

(** The store accepts every operation. *)
Definition healthy (w : World) : Prop := forall op, throws w op = false.

Definition probeKey : string := "__storage_test__".

(** The verdict of [isStorageAvailable] and the world its probe leaves. *)
Definition probeOk (w : World) : bool :=
  negb (throws w (OpSetItem probeKey)) && negb (throws w (OpRemoveItem probeKey)).

Definition afterProbe (w : World) : World :=
  if throws w (OpSetItem probeKey) then w
  else if throws w (OpRemoveItem probeKey)
       then with_entries (insert probeKey (StoredText probeKey)) w
       else with_entries (delete probeKey)
              (with_entries (insert probeKey (StoredText probeKey)) w).

(** A read, respectively a write, of [key] goes through. *)
Definition readable (w : World) (key : string) : bool :=
  probeOk w && negb (throws w (OpGetItem key)).

Definition writable (w : World) (key : string) : bool :=
  probeOk w && negb (throws w (OpSetItem key)).

Definition removable (w : World) (key : string) : bool :=
  probeOk w && negb (throws w (OpRemoveItem key)).

(** The history document as persisted, and the list a reader obtains from
    it (a document of a version below 1 is migrated to the empty list). *)
Definition storedItems (w : World) : list HistoryItem :=
  match entries w !! STORAGE_KEYS.HISTORY with
  | Some (StoredHistory h) => hst_items h
  | _ => []
  end.

Definition listed (w : World) : list HistoryItem :=
  match entries w !! STORAGE_KEYS.HISTORY with
  | Some (StoredHistory h) => if (hst_version h <? 1)%Z then [] else hst_items h
  | _ => []
  end.

(** The world a synchronous call leaves. *)
Definition exec {A} (m : Sync A) (w : World) : World := (m w).2.

(** The mutations of the history store. *)
Inductive HistoryOp :=
| OpRecord (item : HistoryItem)
| OpRemove (id : string)
| OpToggleFavorite (id : string)
| OpClear.

Definition applyOp (op : HistoryOp) : Sync unit :=
  match op with
  | OpRecord item => saveHistoryItem item
  | OpRemove id => removeHistoryItem id
  | OpToggleFavorite id => toggleHistoryItemFavorite id
  | OpClear => clearHistory
  end.

Fixpoint applyOps (ops : list HistoryOp) (w : World) : World :=
  match ops with
  | [] => w
  | op :: ops' => applyOps ops' (exec (applyOp op) w)
  end.

(** The favorite flag as every reader of the program takes it: an absent
    flag is falsy. *)
Definition favorite (item : HistoryItem) : bool := default false (hi_isFavorite item).

(** Two worlds agree on what the store accepts and on the document
    persisted under [key]. *)
Definition same_store (key : string) (w w' : World) : Prop :=
  throws w' = throws w /\ entries w' !! key = entries w !! key.

(** What a read of [key] at a document type yields. *)
Definition readItem {T} `{Json T} (key : string) (fallback : T) (w : World) : T :=
  if readable w key then
    match entries w !! key with
    | Some text => default fallback (parse text)
    | None => fallback
    end
  else fallback.

(** A store on which every operation throws. *)
Definition brokenWorld (w : World) : World :=
  {| app := app w; activeRequests := activeRequests w; controllers := controllers w;
     entries := entries w; throws := fun _ => true; dispatched := dispatched w;
     console := console w; random := random w; randomText := randomText w;
     drawn := drawn w; clock := clock w; uuid := uuid w;
     endpointCalls := endpointCalls w |}.

(* --------------------------------------------------------------------- *)
(** *** A concrete tab, for the examples                                  *)
(* --------------------------------------------------------------------- *)

Definition exampleImage : ImageFile :=
  {| img_dataUrl := "data:image/png;base64,AAAA"; img_originalSize := 4 |}.

(** The form filled in with the request of the end-to-end scenario. *)
Definition exampleApp : AppState :=
  {| preview :=
       {| currentImage := Some exampleImage; currentPrompt := "red dress on runway";
          currentStyle := "editorial"; isGenerating := false; showComparison := false |};
     generation :=
       {| status := idle; progress := 0; currentRequest := None; result := None;
          gen_error := None; retryCount := 0; canRetry := false |};
     history := {| hs_items := []; hs_maxItems := 5; hs_currentItem := None |};
     form :=
       {| form_prompt :=
            {| pf_value := "red dress on runway"; pf_error := None; pf_isValid := true |};
          form_style := {| sf_value := "editorial"; sf_isValid := true |};
          form_image :=
            {| if_file := Some exampleImage; if_error := None; if_isValid := true |} |} |}.

(** A fresh tab with a working, empty store, in which [Math.random()]
    yields the draws of [draws] and the n-th draw renders as "id-n". *)
Definition exampleWorld (draws : nat -> Q) : World :=
  {| app := exampleApp; activeRequests := ∅; controllers := [];
     entries := ∅; throws := fun _ => false; dispatched := []; console := [];
     random := draws;
     randomText := fun n => "id-" +:+ String (ascii_of_nat (48 + n)) "";
     drawn := 0; clock := 1000000; uuid := "00000000-0000-4000-8000-000000000000";
     endpointCalls := 0 |}.

Definition exampleItem (id : string) : HistoryItem :=
  {| hi_id := id; hi_imageUrl := "https://example.com/" +:+ id; hi_prompt := "red dress";
     hi_style := "editorial"; hi_createdAt := 0; hi_processingTime := Some 1500%Z;
     hi_thumbnail := Some "data:image/png;base64,AAAA"; hi_isFavorite := None;
     hi_tags := None |}.

(** What [getHistoryItems] returns. *)
Definition readList (w : World) : list HistoryItem :=
  if readable w STORAGE_KEYS.HISTORY then listed w else [].

(** The shape shared by [saveHistoryItem], [removeHistoryItem] and
    [toggleHistoryItemFavorite]: read the list, persist [f] of it under a
    fresh [lastUpdated], announce the change. *)
Definition rewriteHistory (f : list HistoryItem -> list HistoryItem) (e : CustomEvent)
    : Sync unit :=
  (history <- getHistoryItems ;;
   t <- now ;;
   setItem STORAGE_KEYS.HISTORY
     {| hst_items := f history; hst_lastUpdated := t; hst_version := 1 |} ;;
   dispatchEvent e)%sync.

(** The three list transformations. *)
Definition recorded (item : HistoryItem) (history : list HistoryItem) : list HistoryItem :=
  take MAX_HISTORY_ITEMS (item :: filter (fun h => hi_id h ≠ hi_id item) history).

Definition removed (id : string) (history : list HistoryItem) : list HistoryItem :=
  filter (fun item => hi_id item ≠ id) history.

Definition toggled (id : string) (history : list HistoryItem) : list HistoryItem :=
  map (fun item => if decide (hi_id item = id) then flipFavorite item else item) history.

(** [P] holds of the completion and the world whenever the run settles,
    whatever the rest of the program did to the world while the run was
    suspended. *)
Fixpoint at_settlement {A} (P : Completion A -> World -> Prop) (r : Run A) : Prop :=
  match r with
  | Settled c w => P c w
  | Pending _ _ k => forall w', at_settlement P (k w')
  end.

(** The controllers the manager holds for a request id. *)
Definition controllersOf (requestId : string) (w : World) : list (string * nat) :=
  filter (fun kv => kv.1 = requestId) (map_to_list (activeRequests w)).

(** The world in which [makeRequest] hands the fresh signal to the request
    function: the previous controller of the id, if any, is aborted and
    replaced. *)
Definition registered (requestId : string) (w : World) : World :=
  with_activeRequests (insert requestId (length (controllers w)))
    (with_controllers (fun cs => cs ++ [false])
       (exec (RequestManager.cancelRequest requestId) w)).

(** The request passes every check of [validateGenerationRequest]. *)
Definition validRequest (request : GenerationRequest) : bool :=
  JsString.truthy (req_imageDataUrl request)
  && JsString.truthy (req_prompt request)
  && negb (String.length (JsString.trim (req_prompt request)) =? 0)%nat
  && negb (500 <? String.length (JsString.trim (req_prompt request)))%nat
  && isValidStyle (req_style request)
  && JsString.startsWith (req_imageDataUrl request) "data:image/".

(** The processing time computed from a draw [r] of [Math.random()], in
    exact arithmetic. *)
Definition processingTimeOf (r : Q) : Z :=
  Qfloor (r * inject_Z (MAX_PROCESSING_TIME - MIN_PROCESSING_TIME + 1)
          + inject_Z MIN_PROCESSING_TIME)%Q.

(** The draws of [Math.random()] are in [0, 1). *)
Definition unit_draws (w : World) : Prop :=
  forall n, (0 <= random w n)%Q /\ (random w n < 1)%Q.

(** The error and the response the mock endpoint builds when its
    processing delay ends in world [w] (whose next draw decides between
    the two). *)
Definition mockErrorAt (w : World) : ApiError :=
  {| err_name := "ApiError";
     err_message :=
       default ""
         ([ "Model overloaded"; "Server temporarily unavailable";
            "Generation queue is full"; "Processing capacity exceeded" ]
            !! Z.to_nat (Qfloor (random w (S (drawn w)) * inject_Z (Z.of_nat 4))%Q));
     err_code := "MODEL_OVERLOADED";
     err_retryable := true;
     err_timestamp := clock w |}.

Definition mockResponseAt (request : GenerationRequest) (w : World) : GenerationResponse :=
  {| res_id := randomText w (S (S (drawn w)));
     res_imageUrl :=
       default ""
         (MOCK_GENERATED_IMAGES
            !! Z.to_nat (Qfloor (random w (S (S (S (drawn w))))
                                 * inject_Z (Z.of_nat (length MOCK_GENERATED_IMAGES)))%Q));
     res_prompt := req_prompt request;
     res_style := req_style request;
     res_createdAt := clock w;
     res_processingTime := Some (processingTimeOf (random w (S (drawn w)))) |}.

(** The simulated-error draw comes out as a failure. *)
Definition failsAt (w : World) : bool := Qlt_bool (random w (drawn w)) ERROR_RATE.

(** The request of the end-to-end scenario. *)
Definition exampleRequest : GenerationRequest :=
  {| req_imageDataUrl := "data:image/png;base64,AAAA";
     req_prompt := "red dress on runway"; req_style := "editorial";
     req_requestId := None |}.

(** Draws that differ: 0 first, then 1/2. *)
Definition unevenDraws (n : nat) : Q :=
  match n with
  | O => 0
  | S _ => 1 # 2
  end.

(** The request [startGeneration] builds from the form in world [w] for
    the selected image. *)
Definition requestOf (w : World) (image : ImageFile) : GenerationRequest :=
  {| req_imageDataUrl := img_dataUrl image;
     req_prompt := JsString.trim (currentPrompt (preview (app w)));
     req_style := currentStyle (preview (app w));
     req_requestId := Some (randomText w (drawn w)) |}.

(** The form is complete and what it holds passes the endpoint's checks. *)
Definition readyToGenerate (w : World) (image : ImageFile) : Prop :=
  (actions.validateForm w).1 = Normal true
  /\ currentImage (preview (app w)) = Some image
  /\ validRequest (requestOf w image) = true.


(** [randomId] never yields the empty string (its text ends with the
    digits of the clock reading). *)
Definition ids_nonempty (w : World) : Prop :=
  forall n, JsString.truthy (randomText w n) = true.

(** The world in which the processing delay of an endpoint call started in
    [w] ends, when nothing else happens in between. *)
Definition arrival (w : World) : World :=
  elapse (inject_Z (processingTimeOf (random w (drawn w))))
         (with_drawn S (with_endpointCalls S w)).

(** The world in which the retry loop resumes after the backoff wait that
    follows a failed attempt, [w] being the world the retry callback left. *)
Definition backedOff (config : RetryConfig) (attempt : nat) (w : World) : World :=
  elapse (delayWithJitter config attempt (random w (drawn w)))
         (with_console (fun c => c ++ [ConsoleLog "Retrying"]) (with_drawn S w)).

(** The parts of the tab that the retry loop leaves alone. *)
Definition same_tab (w w' : World) : Prop :=
  activeRequests w' = activeRequests w
  /\ controllers w' = controllers w
  /\ entries w' = entries w
  /\ throws w' = throws w
  /\ dispatched w' = dispatched w
  /\ random w' = random w
  /\ randomText w' = randomText w.

(** The world the retry observer of the store leaves: the attempt number
    and the error are recorded in the generation slice. *)
Definition noted (attempt : nat) (apiError : ApiError) (w : World) : World :=
  with_app (with_generation (fun g =>
    {| status := status g; progress := progress g;
       currentRequest := currentRequest g; result := result g;
       gen_error := Some apiError; retryCount := attempt;
       canRetry := canRetry g |})) w.

(** [onProgress(percent)] of the store. *)
Definition withProgress (percent : Z) (w : World) : World :=
  with_app (with_generation (fun g =>
    {| status := status g; progress := percent;
       currentRequest := currentRequest g; result := result g;
       gen_error := gen_error g; retryCount := retryCount g;
       canRetry := canRetry g |})) w.

(** The world after the synthetic progress milestones 10, 30, 60, 90 and
    their three waits. *)
Definition progressed (w : World) : World :=
  withProgress 90 (elapse 300 (withProgress 60 (elapse 200
    (withProgress 30 (elapse 100 (withProgress 10 w)))))).

(** The world in which [startGeneration] hands the request to
    [createGeneration]: an id drawn, the generation slice reset. *)
Definition started (w : World) (image : ImageFile) : World :=
  with_app (fun state =>
    with_preview (with_isGenerating true)
      (with_generation (fun g =>
         {| status := generating; progress := 0;
            currentRequest := Some (requestOf w image); result := None;
            gen_error := None; retryCount := 0; canRetry := false |}) state))
    (with_drawn S w).

(** The [catch] of [startGeneration]: the error is recorded and [canRetry]
    recomputed. *)
Definition failed (thrown : Thrown) (w : World) : World :=
  with_app (fun state =>
    with_preview (with_isGenerating false)
      (with_generation (fun g =>
         {| status := error; progress := progress g;
            currentRequest := currentRequest g; result := result g;
            gen_error := Some (actions.apiErrorOf thrown (clock w));
            retryCount := retryCount g;
            canRetry := err_retryable (actions.apiErrorOf thrown (clock w))
                        && bool_decide (retryCount g < maxAttempts RETRY_CONFIG)%nat |})
         state)) w.

(** The statements of [startGeneration] that follow a successful
    [createGeneration]: the only place where the history store is
    written. *)
Definition recordSuccess (result : GenerationResponse) (image : ImageFile)
    (prompt : string) : Sync unit :=
  (setState (fun state =>
     with_preview (with_isGenerating false)
       (with_generation (fun g =>
          {| status := success; progress := 100;
             currentRequest := currentRequest g; result := Some result;
             gen_error := None; retryCount := retryCount g;
             canRetry := false |}) state)) ;;
   saveHistoryItem (actions.historyItemOf result (img_dataUrl image)) ;;
   actions.loadHistory ;;
   addRecentPrompt (JsString.trim prompt) ;;
   incrementGenerationCount ;;
   updateSessionActivity)%sync.

(** A synchronous computation that leaves the generation slice of the
    store as it found it. *)
Definition keeps_generation {A} (m : Sync A) : Prop :=
  forall w, generation (app (m w).2) = generation (app w).

(** The two statuses in which a submission can end. *)
Definition ended (w : World) : Prop :=
  status (generation (app w)) = success \/ status (generation (app w)) = error.

(** The world a run is suspended in, if it is. *)
Definition suspendedIn {A} (r : Run A) : option World :=
  match r with
  | Pending _ w _ => Some w
  | Settled _ _ => None
  end.

(** The world in which a run suspended for the [n]-th time (from 0) sees
    the user take [action], right after the action. *)
Fixpoint interruptedIn {A} (n : nat) (action : Sync unit) (r : Run A) : option World :=
  match r with
  | Settled _ _ => None
  | Pending ms w k =>
      match n with
      | O => Some (snd (action w))
      | S n' => interruptedIn n' action (k (elapse ms w))
      end
  end.

(** The world [retryGeneration] hands to [startGeneration]: status,
    progress and error reset, the rest of the generation slice kept. *)
Definition retrying (w : World) : World :=
  with_app (fun state =>
    with_preview (with_isGenerating true)
      (with_generation (fun g =>
         {| status := generating; progress := 0;
            currentRequest := currentRequest g; result := result g;
            gen_error := None; retryCount := retryCount g;
            canRetry := canRetry g |}) state)) w.

(** The example tab after a submission whose three attempts failed. *)
Definition exhaustedWorld : World :=
  snd (settle (actions.startGeneration (exampleWorld (fun _ => 1 # 10)))).

(** The request of the store can be cancelled through the manager: it is
    recorded under a non-empty id, for which the manager holds the
    controller at [address]. *)
Definition cancellable (id : string) (address : nat) (w : World) : Prop :=
  currentRequest (generation (app w)) ≫= req_requestId = Some id
  /\ JsString.truthy id = true
  /\ activeRequests w !! id = Some address
  /\ (address < length (controllers w))%nat.

(** The world [abortGeneration] leaves when it cancels the request [id]
    held at [address]. *)
Definition cancelled (id : string) (address : nat) (w : World) : World :=
  with_app (fun state =>
    with_preview (with_isGenerating false)
      (with_generation (fun g =>
         {| status := aborted; progress := 0;
            currentRequest := currentRequest g; result := result g;
            gen_error := None; retryCount := retryCount g;
            canRetry := false |}) state))
    (with_activeRequests (delete id)
       (with_controllers (fun cs => <[address := true]> cs) w)).

(** A submission under way that the user can still cancel, started from
    [w0]: nothing has been persisted or dispatched since, and fewer
    retries than [maxAttempts] have been recorded. *)
Definition underWay (id : string) (address : nat) (w0 w : World) : Prop :=
  cancellable id address w
  /\ entries w = entries w0
  /\ dispatched w = dispatched w0
  /\ (retryCount (generation (app w)) < maxAttempts RETRY_CONFIG)%nat.

(** A submission started from [w0] and cut short by a cancellation. *)
Definition cutShort (w0 w : World) : Prop :=
  status (generation (app w)) = aborted
  /\ entries w = entries w0
  /\ dispatched w = dispatched w0
  /\ (retryCount (generation (app w)) < maxAttempts RETRY_CONFIG)%nat.

(* --------------------------------------------------------------------- *)
(** *** Vocabulary for the settings, preferences and session documents    *)
(* --------------------------------------------------------------------- *)

(** The world the probe of [isStorageAvailable] leaves on a store that
    accepts it: the probe key is gone, whether it was there or not. *)
Definition probed (w : World) : World :=
  with_entries (delete probeKey)
    (with_entries (insert probeKey (StoredText probeKey)) w).

(** A storage utility changes the documents and the console at most. *)
Definition only_storage (w w' : World) : Prop :=
  app w' = app w
  /\ activeRequests w' = activeRequests w
  /\ controllers w' = controllers w
  /\ throws w' = throws w
  /\ dispatched w' = dispatched w
  /\ random w' = random w
  /\ randomText w' = randomText w
  /\ drawn w' = drawn w
  /\ clock w' = clock w
  /\ uuid w' = uuid w
  /\ endpointCalls w' = endpointCalls w.

(** What [getSettings], [getPreferences] return. *)
Definition settingsOf (w : World) : UserSettings :=
  readItem STORAGE_KEYS.SETTINGS DEFAULT_SETTINGS w.

Definition preferencesOf (w : World) : UserPreferences :=
  readItem STORAGE_KEYS.PREFERENCES DEFAULT_PREFERENCES w.

(** The session document as persisted, and as [getItem] reads it. *)
Definition storedSession (w : World) : option SessionData :=
  match entries w !! STORAGE_KEYS.SESSION with
  | Some (StoredSession s) => Some s
  | _ => None
  end.

Definition sessionRead (w : World) : option SessionData :=
  readItem STORAGE_KEYS.SESSION (None : option SessionData) w.

(** The session [initializeSession] starts in world [w]. *)
Definition freshSession (w : World) : SessionData :=
  {| sd_sessionId := uuid w; sd_startTime := clock w; sd_lastActivity := clock w;
     sd_generationCount := 0; sd_totalUploadSize := 0; sd_version := 1 |}.

(** A session started at clock reading [t]: both counters at 0. *)
Definition startedAt (t : Z) (s : SessionData) : Prop :=
  sd_startTime s = t
  /\ sd_lastActivity s = t
  /\ sd_generationCount s = 0%Z
  /\ sd_totalUploadSize s = 0%Z
  /\ sd_version s = 1%Z.

(** What [getSessionData] returns: the session read, or a new one. *)
Definition sessionOf (w : World) : SessionData :=
  default (freshSession w) (sessionRead w).

(** The shape shared by [updateSessionActivity], [incrementGenerationCount]
    and [addToUploadSize]: read the session, persist [f] of it. *)
Definition touchSession (f : Z -> SessionData -> SessionData) : Sync unit :=
  (sessionData <- getSessionData ;;
   t <- now ;;
   setItem STORAGE_KEYS.SESSION (f t sessionData))%sync.

(** The updates of the session counters. *)
Inductive SessionOp :=
| OpGenerated
| OpUploaded (bytes : Z)
| OpActive.

Definition applySessionOp (op : SessionOp) : Sync unit :=
  match op with
  | OpGenerated => incrementGenerationCount
  | OpUploaded bytes => addToUploadSize bytes
  | OpActive => updateSessionActivity
  end.

Fixpoint applySessionOps (ops : list SessionOp) (w : World) : World :=
  match ops with
  | [] => w
  | op :: ops' => applySessionOps ops' (exec (applySessionOp op) w)
  end.

(** What each update does to the session, at clock reading [t]. *)
Definition advance (t : Z) (op : SessionOp) (s : SessionData) : SessionData :=
  {| sd_sessionId := sd_sessionId s; sd_startTime := sd_startTime s;
     sd_lastActivity := t;
     sd_generationCount :=
       match op with OpGenerated => sd_generationCount s + 1 | _ => sd_generationCount s end;
     sd_totalUploadSize :=
       match op with
       | OpUploaded bytes => sd_totalUploadSize s + bytes
       | _ => sd_totalUploadSize s
       end;
     sd_version := sd_version s |}.

Definition generated (ops : list SessionOp) : Z :=
  foldr (fun op total => match op with OpGenerated => 1 + total | _ => total end)%Z
        0%Z ops.

Definition uploaded (ops : list SessionOp) : Z :=
  foldr (fun op total => match op with OpUploaded bytes => bytes + total | _ => total end)%Z
        0%Z ops.

(** The update [toggleFavoriteStyle] makes to the list of favorite
    styles. *)
Definition flippedStyle (style : string) (styles : list string) : list string :=
  if bool_decide (style ∈ styles)
  then filter (fun s => s ≠ style) styles
  else styles ++ [style].

(** The preferences with the given lists, the rest being kept and the
    version pinned. *)
Definition withRecentPrompts (prompts : list string) (p : UserPreferences)
    : UserPreferences :=
  mergePreferences p
    {| ppr_recentPrompts := Some prompts; ppr_favoriteStyles := None;
       ppr_uploadPreferences := None; ppr_uiPreferences := None; ppr_version := None |}.

Definition withFavoriteStyles (styles : list string) (p : UserPreferences)
    : UserPreferences :=
  mergePreferences p
    {| ppr_recentPrompts := None; ppr_favoriteStyles := Some styles;
       ppr_uploadPreferences := None; ppr_uiPreferences := None; ppr_version := None |}.

(** The store lets the document under [key] be read and written. *)
Definition usable (w : World) (key : string) : bool :=
  readable w key && writable w key.

(* --------------------------------------------------------------------- *)
(** *** Vocabulary for the history operations                             *)
(* --------------------------------------------------------------------- *)

(** The event each history operation dispatches, the list it means to
    persist, and whether the store accepts the write it makes. *)
Definition eventOf (op : HistoryOp) : CustomEvent :=
  match op with
  | OpRecord item => historyUpdated (Some item)
  | OpRemove _ | OpToggleFavorite _ => historyUpdated None
  | OpClear => historyCleared
  end.

Definition after (op : HistoryOp) (history : list HistoryItem) : list HistoryItem :=
  match op with
  | OpRecord item => recorded item history
  | OpRemove id => removed id history
  | OpToggleFavorite id => toggled id history
  | OpClear => []
  end.

Definition accepted (op : HistoryOp) (w : World) : bool :=
  match op with
  | OpClear => removable w STORAGE_KEYS.HISTORY
  | _ => writable w STORAGE_KEYS.HISTORY
  end.

(** The ids of a history list. *)
Definition ids (history : list HistoryItem) : list string := hi_id <$> history.


(* --------------------------------------------------------------------- *)
(** *** Vocabulary for a successful submission                            *)
(* --------------------------------------------------------------------- *)

(** A synchronous computation that leaves a component of the world as it
    found it. *)
Definition preserves {X A} (proj : World -> X) (m : Sync A) : Prop :=
  forall w, proj (m w).2 = proj w.

(** A component that the probe of the storage, the console and the
    window events do not show in, and one that a write or a removal under
    [key] does not show in. *)
Definition quiet {X} (proj : World -> X) : Prop :=
  (forall w, proj (afterProbe w) = proj w)
  /\ (forall f w, proj (with_console f w) = proj w)
  /\ (forall f w, proj (with_dispatched f w) = proj w).

(** A component that the application store does not show in. *)
Definition storeless {X} (proj : World -> X) : Prop :=
  forall f w, proj (with_app f w) = proj w.

Definition ignores {X} (key : string) (proj : World -> X) : Prop :=
  (forall value w, proj (with_entries (insert key value) w) = proj w)
  /\ (forall w, proj (with_entries (delete key) w) = proj w).

(** The document persisted under [key]. *)
Definition document (key : string) (w : World) : option Stored := entries w !! key.

(** The first [k] attempts of a retry loop entered in world [w] draw a
    simulated error, the next one does not: the draw that decides is the
    second of the four each attempt consumes. *)
Definition succeedsAfter (k : nat) (w : World) : Prop :=
  (forall i, (i < k)%nat -> Qlt_bool (random w (drawn w + 4 * i + 1)) ERROR_RATE = true)
  /\ Qlt_bool (random w (drawn w + 4 * k + 1)) ERROR_RATE = false.

(** What the retry loop leaves alone, besides the error and the retry
    count it has the observer record. *)
Definition attempted (w w' : World) : Prop :=
  same_tab w w'
  /\ uuid w' = uuid w
  /\ preview (app w') = preview (app w)
  /\ history (app w') = history (app w)
  /\ form (app w') = form (app w)
  /\ status (generation (app w')) = status (generation (app w))
  /\ progress (generation (app w')) = progress (generation (app w))
  /\ currentRequest (generation (app w')) = currentRequest (generation (app w))
  /\ result (generation (app w')) = result (generation (app w))
  /\ canRetry (generation (app w')) = canRetry (generation (app w)).

(** The world a successful [createGeneration] hands back is one in which
    only the generation slice, the clock, the draws and the call counter
    have moved. *)
Definition generatedFrom (w w' : World) : Prop :=
  entries w' = entries w
  /\ throws w' = throws w
  /\ dispatched w' = dispatched w
  /\ uuid w' = uuid w
  /\ preview (app w') = preview (app w)
  /\ history (app w') = history (app w)
  /\ form (app w') = form (app w)
  /\ status (generation (app w')) = status (generation (app w))
  /\ currentRequest (generation (app w')) = currentRequest (generation (app w)).

(** The world [startGeneration] records a success in: the statements
    that follow a successful [createGeneration], one after the other. *)
Definition succeeded (response : GenerationResponse) (w : World) : World :=
  with_app (fun state =>
    with_preview (with_isGenerating false)
      (with_generation (fun g =>
         {| status := success; progress := 100;
            currentRequest := currentRequest g; result := Some response;
            gen_error := None; retryCount := retryCount g;
            canRetry := false |}) state)) w.

(** The time a run spends waiting on its timers when nothing else
    happens, in milliseconds. *)
Definition total (waits : list Q) : Q := foldr Qplus 0%Q waits.

(** The longest the retry loop can wait from iteration [attempt] on, with
    [remaining] iterations left: the longest processing delay for each
    call, and between two calls the backoff delay with the largest jitter. *)
Fixpoint longestWait (config : RetryConfig) (remaining attempt : nat) : Q :=
  match remaining with
  | O => 0
  | S remaining' =>
      inject_Z MAX_PROCESSING_TIME
      + (if (attempt =? maxAttempts config)%nat then 0
         else (5 # 4) * backoffDelay config attempt
              + longestWait config remaining' (S attempt))
  end%Q.

(* ===================================================================== *)
(** ** Prompt validation                                                  *)
(* ===================================================================== *)

Section PromptValidation.

Lemma truthy_length (s : string) :
  JsString.truthy s = negb (String.length s =? 0)%nat.
Proof. destruct s; reflexivity. Qed.

Lemma validatePrompt_isValid (prompt : string) :
  isValid (validatePrompt prompt) =
    (3 <=? String.length (JsString.trim prompt))%nat
    && (String.length (JsString.trim prompt) <=? 500)%nat
    && negb (hasProblematic (JsString.trim prompt)).
Proof.
  unfold validatePrompt.
  rewrite truthy_length.
  set (trimmed := JsString.trim prompt).
  destruct (Nat.eqb_spec (String.length trimmed) 0);
    destruct (Nat.ltb_spec (String.length trimmed) 3);
    destruct (Nat.ltb_spec 500 (String.length trimmed));
    destruct (Nat.leb_spec 3 (String.length trimmed));
    destruct (Nat.leb_spec (String.length trimmed) 500);
    try lia;
    destruct (hasProblematic trimmed); reflexivity.
Qed.

Lemma validatePrompt_errors (prompt : string) :
  let n := String.length (JsString.trim prompt) in
  let e := errors (validatePrompt prompt) in
  (n = 0%nat -> e !! "required" = Some ["Prompt is required"])
  /\ ((0 < n < 3)%nat -> e !! "minLength" = Some ["Prompt must be at least 3 characters"])
  /\ ((500 < n)%nat -> e !! "maxLength" = Some ["Prompt must be less than 500 characters"])
  /\ ((0 < n)%nat -> hasProblematic (JsString.trim prompt) = true ->
      e !! "content" = Some ["Prompt contains inappropriate content"]).
Proof.
  unfold validatePrompt. rewrite truthy_length.
  set (trimmed := JsString.trim prompt).
  destruct (Nat.eqb_spec (String.length trimmed) 0);
    destruct (Nat.ltb_spec (String.length trimmed) 3);
    destruct (Nat.ltb_spec 500 (String.length trimmed));
    try lia;
    destruct (hasProblematic trimmed);
    repeat split; intros; try lia; try discriminate; reflexivity.
Qed.

Lemma validateGenerationRequest_prompt (image prompt style : string)
    (requestId : option string) (w : World) :
  JsString.truthy image = true ->
  JsString.startsWith image "data:image/" = true ->
  isValidStyle style = true ->
  let n := String.length (JsString.trim prompt) in
  validateGenerationRequest
    {| req_imageDataUrl := image; req_prompt := prompt; req_style := style;
       req_requestId := requestId |} w
  = if (n =? 0)%nat then
      (Throw (ThrownApiError
                (ApiErrorClass "Prompt is required" "VALIDATION_ERROR" false (clock w))), w)
    else if (500 <? n)%nat then
      (Throw (ThrownApiError
                (ApiErrorClass "Prompt is too long (max 500 characters)"
                               "VALIDATION_ERROR" false (clock w))), w)
    else (Normal tt, w).
Proof.
  intros Himage Hformat Hstyle n.
  unfold validateGenerationRequest, bind, now, throw, ret; simpl.
  rewrite Himage, Hformat, Hstyle; simpl.
  subst n.
  destruct (String.length (JsString.trim prompt) =? 0)%nat eqn:Hzero.
  - rewrite orb_true_r. reflexivity.
  - assert (JsString.truthy prompt = true) as ->.
    { destruct prompt; [discriminate | reflexivity]. }
    simpl.
    destruct (500 <? String.length (JsString.trim prompt))%nat; reflexivity.
Qed.

End PromptValidation.

(** C3, as stated, fails on [validatePrompt]: a prompt of two characters
    has a trimmed length within 1..500 and is reported invalid. *)
Lemma C3_short_prompt_rejected :
  (1 <= String.length (JsString.trim " ab ") <= 500)%nat
  /\ isValid (validatePrompt " ab ") = false.
Proof. split; [simpl; lia | reflexivity]. Qed.

(** C3, amended. [validatePrompt] reports a prompt valid exactly when its
    trimmed length lies in 3..500 and it contains none of the words nsfw,
    nude, explicit (case-insensitively); it reports the [required] error
    for a trimmed length of 0, [minLength] for 1 or 2, [maxLength] above
    500 and [content] for such a word. The endpoint's own check,
    [validateGenerationRequest], given a valid image and style, throws
    "Prompt is required" for a trimmed length of 0, "Prompt is too long"
    above 500, and accepts every trimmed length in 1..500. *)
Theorem C3_prompt_validation (prompt : string) :
  let n := String.length (JsString.trim prompt) in
  let e := errors (validatePrompt prompt) in
  (isValid (validatePrompt prompt) = true
   <-> (3 <= n <= 500)%nat /\ hasProblematic (JsString.trim prompt) = false)
  /\ (n = 0%nat -> e !! "required" = Some ["Prompt is required"])
  /\ ((0 < n < 3)%nat -> e !! "minLength" = Some ["Prompt must be at least 3 characters"])
  /\ ((500 < n)%nat -> e !! "maxLength" = Some ["Prompt must be less than 500 characters"])
  /\ ((0 < n)%nat -> hasProblematic (JsString.trim prompt) = true ->
      e !! "content" = Some ["Prompt contains inappropriate content"])
  /\ (forall (image style : string) (requestId : option string) (w : World),
        JsString.truthy image = true ->
        JsString.startsWith image "data:image/" = true ->
        isValidStyle style = true ->
        validateGenerationRequest
          {| req_imageDataUrl := image; req_prompt := prompt; req_style := style;
             req_requestId := requestId |} w
        = if (n =? 0)%nat then
            (Throw (ThrownApiError
                      (ApiErrorClass "Prompt is required" "VALIDATION_ERROR" false (clock w))), w)
          else if (500 <? n)%nat then
            (Throw (ThrownApiError
                      (ApiErrorClass "Prompt is too long (max 500 characters)"
                                     "VALIDATION_ERROR" false (clock w))), w)
          else (Normal tt, w)).
Proof.
  intros n e. split.
  - rewrite validatePrompt_isValid. fold n.
    rewrite !andb_true_iff, negb_true_iff, !Nat.leb_le. tauto.
  - pose proof (validatePrompt_errors prompt) as (H1 & H2 & H3 & H4).
    repeat split; auto.
    intros. apply validateGenerationRequest_prompt; assumption.
Qed.

(** The prompt of the end-to-end scenario is valid. *)
Lemma C3_prompt_validation_witness :
  isValid (validatePrompt "red dress on runway") = true.
Proof.
  apply (proj1 (C3_prompt_validation "red dress on runway")).
  split; [simpl; lia | reflexivity].
Defined.

(* ===================================================================== *)
(** ** Retry policy: the backoff delay                                    *)
(* ===================================================================== *)

Section Backoff.

Local Open Scope Q_scope.

Lemma backoffDelay_default_1 : backoffDelay RETRY_CONFIG 1 == 1000.
Proof. reflexivity. Qed.

Lemma backoffDelay_default_4 : backoffDelay RETRY_CONFIG 4 == 8000.
Proof. reflexivity. Qed.

(** The jittered delay, before the floor at 0, as a multiple of the
    capped exponential delay. *)
Lemma jitter_factor (b r : Q) :
  b + b * (25 # 100) * (r * 2 - 1) == b * ((3 # 4) + r * (1 # 2)).
Proof. ring. Qed.

Lemma delayWithJitter_nonneg (config : RetryConfig) (attempt : nat) (r : Q) :
  0 <= delayWithJitter config attempt r.
Proof. unfold delayWithJitter. apply Q.le_max_l. Qed.

Lemma delayWithJitter_range (config : RetryConfig) (attempt : nat) (r : Q) :
  0 <= r -> r < 1 -> 0 <= backoffDelay config attempt ->
  (3 # 4) * backoffDelay config attempt <= delayWithJitter config attempt r
  /\ delayWithJitter config attempt r <= (5 # 4) * backoffDelay config attempt.
Proof.
  intros Hr0 Hr1 Hb. unfold delayWithJitter.
  set (b := backoffDelay config attempt) in *.
  assert (0 <= b * r) as Hbr by (apply Qmult_le_0_compat; assumption).
  assert (r * b <= 1 * b) as Hbr1.
  { apply Qmult_le_compat_r; [apply Qlt_le_weak; assumption | assumption]. }
  rewrite jitter_factor.
  assert (b * ((3 # 4) + r * (1 # 2)) == (3 # 4) * b + (1 # 2) * (b * r)) as -> by ring.
  destruct (Q.max_spec 0 ((3 # 4) * b + (1 # 2) * (b * r))) as [[Hcase ->] | [Hcase ->]]; lra.
Qed.

(** C4, as stated, fails for attempt 4 under the default configuration:
  the jitter is applied after the cap, so a draw above 1/2 takes the
  delay above [maxDelay]. *)
Lemma C4_attempt_4_exceeds_cap :
0 <= 9 # 10 /\ 9 # 10 < 1
/\ ~ delayWithJitter RETRY_CONFIG 4 (9 # 10) <= 8000.
Proof.
split; [discriminate |].
split; [reflexivity |].
intros H. vm_compute in H. apply H. reflexivity.
Qed.

(** C4, amended. For every attempt number n >= 1 and every draw r of
  [Math.random()] (0 <= r < 1) the delay is
  max(0, b + b * 0.25 * (2r - 1)) with
  b = min(baseDelay * backoffMultiplier^(n-1), maxDelay): it is never
  negative and, when b >= 0, lies between 0.75 b and 1.25 b. Under the
  default configuration the delay for attempt 1 lies in [750, 1250] and
  the delay for attempt 4 lies in [6000, 10000]: the cap bounds b, not
  the jittered delay. *)
Theorem C4_backoff_delay (config : RetryConfig) (attempt : nat) (r : Q) :
(1 <= attempt)%nat -> 0 <= r -> r < 1 ->
let b := Qmin (baseDelay config * backoffMultiplier config ^ (Z.of_nat attempt - 1))
              (maxDelay config) in
delayWithJitter config attempt r == Qmax 0 (b + b * (25 # 100) * (r * 2 - 1))
/\ 0 <= delayWithJitter config attempt r
/\ (0 <= b ->
    (3 # 4) * b <= delayWithJitter config attempt r
    /\ delayWithJitter config attempt r <= (5 # 4) * b)
/\ (750 <= delayWithJitter RETRY_CONFIG 1 r /\ delayWithJitter RETRY_CONFIG 1 r <= 1250)
/\ (6000 <= delayWithJitter RETRY_CONFIG 4 r /\ delayWithJitter RETRY_CONFIG 4 r <= 10000).
Proof.
intros Hattempt Hr0 Hr1 b.
split; [reflexivity |].
split; [apply delayWithJitter_nonneg |].
split; [intros Hb; apply delayWithJitter_range; assumption |].
split.
- unfold delayWithJitter. rewrite backoffDelay_default_1, jitter_factor.
  destruct (Q.max_spec 0 (1000 * ((3 # 4) + r * (1 # 2)))) as [[Hcase ->] | [Hcase ->]]; lra.
- unfold delayWithJitter. rewrite backoffDelay_default_4, jitter_factor.
  destruct (Q.max_spec 0 (8000 * ((3 # 4) + r * (1 # 2)))) as [[Hcase ->] | [Hcase ->]]; lra.
Qed.

(** The first retry under the default configuration, with the draw 1/2. *)
Lemma C4_backoff_delay_witness :
delayWithJitter RETRY_CONFIG 1 (1 # 2) == 1000.
Proof.
pose proof (C4_backoff_delay RETRY_CONFIG 1 (1 # 2)) as H.
destruct H as (H & _); [lia | discriminate | reflexivity |].
rewrite H. reflexivity.
Defined.

End Backoff.

(* ===================================================================== *)
(** ** The storage utilities absorb every failure                         *)
(* ===================================================================== *)

Section SafeStorage.

Lemma never_throws_ret {A} (a : A) : never_throws (ret a).
Proof. intros w. eexists _, _. reflexivity. Qed.

Lemma never_throws_modify (f : World -> World) : never_throws (modify f).
Proof. intros w. eexists _, _. reflexivity. Qed.

Lemma never_throws_now : never_throws now.
Proof. intros w. eexists _, _. reflexivity. Qed.

Lemma never_throws_bind {A B} (m : Sync A) (f : A -> Sync B) :
  never_throws m -> (forall a, never_throws (f a)) -> never_throws (bind m f).
Proof.
  intros Hm Hf w. destruct (Hm w) as (a & w1 & Hmw).
  destruct (Hf a w1) as (b & w2 & Hfw).
  exists b, w2. unfold bind. rewrite Hmw. exact Hfw.
Qed.

Lemma isStorageAvailable_eq (w : World) :
  isStorageAvailable w = (Normal (probeOk w), afterProbe w).
Proof.
  unfold isStorageAvailable, try_catch, bind, localStorage.setItem,
    localStorage.removeItem, probeOk, afterProbe, probeKey; simpl.
  destruct (throws w (OpSetItem "__storage_test__")); simpl; [reflexivity |].
  destruct (throws w (OpRemoveItem "__storage_test__")); reflexivity.
Qed.

Lemma safeStorageOperation_eq {T} (operation : Sync T) (fallback : T)
    (operationName : string) (w : World) :
  safeStorageOperation operation fallback operationName w =
    if probeOk w then
      match operation (afterProbe w) with
      | (Normal v, w') => (Normal v, w')
      | (Throw _, w') =>
          (Normal fallback,
           with_console
             (fun c => c ++ [ConsoleError
                               ("Storage operation failed (" +:+ operationName +:+ "):")]) w')
      end
    else
      (Normal fallback,
       with_console
         (fun c => c ++ [ConsoleWarn ("localStorage not available for " +:+ operationName)])
         (afterProbe w)).
Proof.
  unfold safeStorageOperation, try_catch, bind. rewrite isStorageAvailable_eq.
  destruct (probeOk w); simpl; [| reflexivity].
  destruct (operation (afterProbe w)) as [[v | e] w']; reflexivity.
Qed.

(** Whatever the operation does, [safeStorageOperation] returns. *)
Lemma never_throws_safeStorageOperation {T} (operation : Sync T) (fallback : T)
    (operationName : string) :
  never_throws (safeStorageOperation operation fallback operationName).
Proof.
  intros w. rewrite safeStorageOperation_eq.
  destruct (probeOk w); [| eexists _, _; reflexivity].
  destruct (operation (afterProbe w)) as [[v | e] w']; eexists _, _; reflexivity.
Qed.

Lemma never_throws_setItem {T} `{Json T} (key : string) (value : T) :
  never_throws (setItem key value).
Proof. apply never_throws_safeStorageOperation. Qed.

Lemma never_throws_getItem {T} `{Json T} (key : string) (fallback : T) :
  never_throws (getItem key fallback).
Proof. apply never_throws_safeStorageOperation. Qed.

Lemma never_throws_removeItem (key : string) : never_throws (removeItem key).
Proof. apply never_throws_safeStorageOperation. Qed.

Lemma never_throws_dispatchEvent (e : CustomEvent) : never_throws (dispatchEvent e).
Proof. apply never_throws_modify. Qed.

Lemma never_throws_console_log (text : string) : never_throws (console_log text).
Proof. apply never_throws_modify. Qed.

Create HintDb total discriminated.
Hint Resolve never_throws_ret never_throws_modify never_throws_now
  never_throws_setItem never_throws_getItem never_throws_removeItem
  never_throws_dispatchEvent never_throws_console_log : total.

Ltac total :=
  repeat first
    [ solve [auto with total]
    | apply never_throws_bind; [| intros ?]
    | match goal with
      | |- never_throws (if ?b then _ else _) => destruct b
      | |- never_throws (match ?o with Some _ => _ | None => _ end) => destruct o
      end ].

Lemma never_throws_getHistoryItems : never_throws getHistoryItems.
Proof. unfold getHistoryItems, migrateHistoryV1. total. Qed.

Hint Resolve never_throws_getHistoryItems : total.

Lemma never_throws_saveHistoryItem (item : HistoryItem) :
  never_throws (saveHistoryItem item).
Proof. unfold saveHistoryItem. total. Qed.

Lemma never_throws_removeHistoryItem (id : string) :
  never_throws (removeHistoryItem id).
Proof. unfold removeHistoryItem. total. Qed.

Lemma never_throws_clearHistory : never_throws clearHistory.
Proof. unfold clearHistory. total. Qed.

Lemma never_throws_toggleHistoryItemFavorite (id : string) :
  never_throws (toggleHistoryItemFavorite id).
Proof. unfold toggleHistoryItemFavorite. total. Qed.

Lemma never_throws_getSettings : never_throws getSettings.
Proof. unfold getSettings. total. Qed.

Hint Resolve never_throws_getSettings : total.

Lemma never_throws_saveSettings (settings : PartialUserSettings) :
  never_throws (saveSettings settings).
Proof. unfold saveSettings. total. Qed.

Lemma never_throws_resetSettings : never_throws resetSettings.
Proof. unfold resetSettings. total. Qed.

Lemma never_throws_getPreferences : never_throws getPreferences.
Proof. unfold getPreferences. total. Qed.

Hint Resolve never_throws_getPreferences : total.

Lemma never_throws_savePreferences (preferences : PartialUserPreferences) :
  never_throws (savePreferences preferences).
Proof. unfold savePreferences. total. Qed.

Hint Resolve never_throws_savePreferences : total.

Lemma never_throws_addRecentPrompt (prompt : string) :
  never_throws (addRecentPrompt prompt).
Proof. unfold addRecentPrompt. total. Qed.

Lemma never_throws_crypto_randomUUID : never_throws crypto_randomUUID.
Proof. intros w. eexists _, _. reflexivity. Qed.

Hint Resolve never_throws_crypto_randomUUID : total.

Lemma never_throws_initializeSession : never_throws initializeSession.
Proof. unfold initializeSession. total. Qed.

Hint Resolve never_throws_initializeSession : total.

Lemma never_throws_getSessionData : never_throws getSessionData.
Proof. unfold getSessionData. total. Qed.

Hint Resolve never_throws_getSessionData : total.

Lemma never_throws_updateSessionActivity : never_throws updateSessionActivity.
Proof. unfold updateSessionActivity. total. Qed.

Lemma never_throws_incrementGenerationCount : never_throws incrementGenerationCount.
Proof. unfold incrementGenerationCount. total. Qed.

Lemma throws_afterProbe (w : World) : throws (afterProbe w) = throws w.
Proof.
  unfold afterProbe.
  destruct (throws w (OpSetItem probeKey)); [reflexivity |].
  destruct (throws w (OpRemoveItem probeKey)); reflexivity.
Qed.

Lemma console_afterProbe (w : World) : console (afterProbe w) = console w.
Proof.
  unfold afterProbe.
  destruct (throws w (OpSetItem probeKey)); [reflexivity |].
  destruct (throws w (OpRemoveItem probeKey)); reflexivity.
Qed.

Lemma dispatched_afterProbe (w : World) : dispatched (afterProbe w) = dispatched w.
Proof.
  unfold afterProbe.
  destruct (throws w (OpSetItem probeKey)); [reflexivity |].
  destruct (throws w (OpRemoveItem probeKey)); reflexivity.
Qed.

Lemma entries_afterProbe (w : World) (key : string) :
  key <> probeKey -> entries (afterProbe w) !! key = entries w !! key.
Proof.
  intros Hkey. unfold afterProbe.
  destruct (throws w (OpSetItem probeKey)); [reflexivity |].
  destruct (throws w (OpRemoveItem probeKey)); simpl.
  - rewrite lookup_insert_ne by congruence. reflexivity.
  - rewrite lookup_delete_ne, lookup_insert_ne by congruence. reflexivity.
Qed.

Ltac frame Hkey :=
  repeat split; simpl;
  first [ apply throws_afterProbe
        | apply dispatched_afterProbe
        | apply lookup_insert_eq
        | apply lookup_delete_eq
        | apply entries_afterProbe, Hkey
        | discriminate
        | intros _; rewrite console_afterProbe; eexists; reflexivity ].

Lemma getItem_spec {T} `{Json T} (key : string) (fallback : T) (w : World) :
  key <> probeKey ->
  exists w', getItem key fallback w = (Normal (readItem key fallback w), w')
             /\ same_store key w w'
             /\ (readable w key = false -> exists line, console w' = console w ++ [line]).
Proof.
  intros Hkey. unfold getItem, readItem, readable.
  rewrite safeStorageOperation_eq.
  destruct (probeOk w); simpl; [| eexists; split; [reflexivity | frame Hkey]].
  unfold bind, localStorage.getItem. rewrite throws_afterProbe.
  destruct (throws w (OpGetItem key)); simpl;
    [eexists; split; [reflexivity | frame Hkey] |].
  rewrite entries_afterProbe by exact Hkey.
  destruct (entries w !! key) as [text |]; simpl;
    [| eexists; split; [reflexivity | frame Hkey]].
  unfold JSON_parse.
  destruct (parse text); simpl; eexists; (split; [reflexivity | frame Hkey]).
Qed.

Lemma setItem_spec {T} `{Json T} (key : string) (value : T) (w : World) :
  key <> probeKey ->
  exists w', setItem key value w = (Normal tt, w')
             /\ throws w' = throws w
             /\ entries w' !! key
                = (if writable w key then Some (stringify value) else entries w !! key)
             /\ dispatched w' = dispatched w
             /\ (writable w key = false -> exists line, console w' = console w ++ [line]).
Proof.
  intros Hkey. unfold setItem, writable.
  rewrite safeStorageOperation_eq.
  destruct (probeOk w); simpl; [| eexists; split; [reflexivity | frame Hkey]].
  unfold localStorage.setItem. rewrite throws_afterProbe.
  destruct (throws w (OpSetItem key)); simpl;
    eexists; (split; [reflexivity | frame Hkey]).
Qed.

Lemma removeItem_spec (key : string) (w : World) :
  key <> probeKey ->
  exists w', removeItem key w = (Normal tt, w')
             /\ throws w' = throws w
             /\ entries w' !! key = (if removable w key then None else entries w !! key)
             /\ dispatched w' = dispatched w
             /\ (removable w key = false -> exists line, console w' = console w ++ [line]).
Proof.
  intros Hkey. unfold removeItem, removable.
  rewrite safeStorageOperation_eq.
  destruct (probeOk w); simpl; [| eexists; split; [reflexivity | frame Hkey]].
  unfold localStorage.removeItem. rewrite throws_afterProbe.
  destruct (throws w (OpRemoveItem key)); simpl;
    eexists; (split; [reflexivity | frame Hkey]).
Qed.

End SafeStorage.

(** C8. No failure of the key-value store reaches the caller of the
    storage utilities: [safeStorageOperation] returns whatever its
    operation does, and so do the history operations (save, read, remove,
    clear, toggle-favorite) and the settings, preferences and session
    reads and writes, on every world. When the store is unavailable or
    the access throws, a read returns the supplied fallback and a write or
    a removal leaves the persisted value as it was; the condition is
    logged on the console and nothing else. *)
Theorem C8_storage_failures_absorbed :
  (forall (T : Type) (operation : Sync T) (fallback : T) (operationName : string),
      never_throws (safeStorageOperation operation fallback operationName))
  /\ (forall item, never_throws (saveHistoryItem item))
  /\ never_throws getHistoryItems
  /\ (forall id, never_throws (removeHistoryItem id))
  /\ never_throws clearHistory
  /\ (forall id, never_throws (toggleHistoryItemFavorite id))
  /\ (forall settings, never_throws (saveSettings settings))
  /\ never_throws resetSettings
  /\ never_throws getSettings
  /\ (forall preferences, never_throws (savePreferences preferences))
  /\ (forall prompt, never_throws (addRecentPrompt prompt))
  /\ never_throws getPreferences
  /\ never_throws getSessionData
  /\ never_throws updateSessionActivity
  /\ never_throws incrementGenerationCount
  /\ (forall (T : Type) (J : Json T) (key : string) (fallback : T) (w : World),
        key <> probeKey -> readable w key = false ->
        exists w' line,
          getItem key fallback w = (Normal fallback, w')
          /\ entries w' !! key = entries w !! key
          /\ console w' = console w ++ [line])
  /\ (forall (T : Type) (J : Json T) (key : string) (value : T) (w : World),
        key <> probeKey -> writable w key = false ->
        exists w' line,
          setItem key value w = (Normal tt, w')
          /\ entries w' !! key = entries w !! key
          /\ console w' = console w ++ [line])
  /\ (forall (key : string) (w : World),
        key <> probeKey -> removable w key = false ->
        exists w' line,
          removeItem key w = (Normal tt, w')
          /\ entries w' !! key = entries w !! key
          /\ console w' = console w ++ [line]).
Proof.
  split; [intros; apply never_throws_safeStorageOperation |].
  split; [exact never_throws_saveHistoryItem |].
  split; [exact never_throws_getHistoryItems |].
  split; [exact never_throws_removeHistoryItem |].
  split; [exact never_throws_clearHistory |].
  split; [exact never_throws_toggleHistoryItemFavorite |].
  split; [exact never_throws_saveSettings |].
  split; [exact never_throws_resetSettings |].
  split; [exact never_throws_getSettings |].
  split; [exact never_throws_savePreferences |].
  split; [exact never_throws_addRecentPrompt |].
  split; [exact never_throws_getPreferences |].
  split; [exact never_throws_getSessionData |].
  split; [exact never_throws_updateSessionActivity |].
  split; [exact never_throws_incrementGenerationCount |].
  split; [| split].
  - intros T J key fallback w Hkey Hread.
    destruct (getItem_spec key fallback w Hkey) as (w' & Hrun & [_ Hentries] & Hlog).
    destruct (Hlog Hread) as [line Hline].
    exists w', line. unfold readItem in Hrun. rewrite Hread in Hrun. auto.
  - intros T J key value w Hkey Hwrite.
    destruct (setItem_spec key value w Hkey) as (w' & Hrun & _ & Hentries & _ & Hlog).
    destruct (Hlog Hwrite) as [line Hline].
    exists w', line. rewrite Hwrite in Hentries. auto.
  - intros key w Hkey Hremove.
    destruct (removeItem_spec key w Hkey) as (w' & Hrun & _ & Hentries & _ & Hlog).
    destruct (Hlog Hremove) as [line Hline].
    exists w', line. rewrite Hremove in Hentries. auto.
Qed.

(** On a store that throws on every access, reading the history yields
    the fallback and the failure is logged. *)
Lemma C8_storage_failures_absorbed_witness :
  exists w' line,
    getItem STORAGE_KEYS.HISTORY
      {| hst_items := []; hst_lastUpdated := 0; hst_version := 1 |}
      (brokenWorld (exampleWorld (fun _ => 0%Q)))
    = (Normal {| hst_items := []; hst_lastUpdated := 0; hst_version := 1 |}, w')
    /\ entries w' !! STORAGE_KEYS.HISTORY
       = entries (brokenWorld (exampleWorld (fun _ => 0%Q))) !! STORAGE_KEYS.HISTORY
    /\ console w' = console (brokenWorld (exampleWorld (fun _ => 0%Q))) ++ [line].
Proof.
  apply C8_storage_failures_absorbed; [discriminate | reflexivity].
Defined.

(* ===================================================================== *)
(** ** The history store                                                  *)
(* ===================================================================== *)

Section HistoryStore.

Local Abbreviation HISTORY := STORAGE_KEYS.HISTORY.

Lemma HISTORY_not_probe : HISTORY <> probeKey.
Proof. discriminate. Qed.

Lemma writable_throws (w w' : World) (key : string) :
  throws w' = throws w -> writable w' key = writable w key.
Proof. intros Heq. unfold writable, probeOk. rewrite Heq. reflexivity. Qed.

Lemma healthy_throws (w w' : World) : throws w' = throws w -> healthy w -> healthy w'.
Proof. intros Heq Hw op. rewrite Heq. apply Hw. Qed.

Lemma healthy_readable (w : World) (key : string) : healthy w -> readable w key = true.
Proof. intros Hw. unfold readable, probeOk. rewrite !Hw. reflexivity. Qed.

Lemma healthy_writable (w : World) (key : string) : healthy w -> writable w key = true.
Proof. intros Hw. unfold writable, probeOk. rewrite !Hw. reflexivity. Qed.

Lemma getHistoryItems_spec (w : World) :
  exists w', getHistoryItems w = (Normal (readList w), w')
             /\ same_store HISTORY w w'
             /\ dispatched w' = dispatched w
             /\ clock w' = clock w.
Proof.
  unfold getHistoryItems, bind at 1, now.
  unfold getItem. unfold bind. rewrite safeStorageOperation_eq.
  unfold readList, readable, listed, same_store.
  destruct (probeOk w); simpl.
  2:{ eexists. split; [reflexivity |]. repeat split; simpl.
      - apply throws_afterProbe.
      - apply entries_afterProbe, HISTORY_not_probe.
      - apply dispatched_afterProbe.
      - unfold afterProbe. repeat case_match; reflexivity. }
  unfold bind, localStorage.getItem. rewrite throws_afterProbe.
  assert (Hclock : clock (afterProbe w) = clock w)
    by (unfold afterProbe; repeat case_match; reflexivity).
  destruct (throws w (OpGetItem HISTORY)); simpl.
  { eexists. split; [reflexivity |]. repeat split; simpl;
      auto using throws_afterProbe, dispatched_afterProbe.
    apply entries_afterProbe, HISTORY_not_probe. }
  rewrite entries_afterProbe by exact HISTORY_not_probe.
  destruct (entries w !! HISTORY) as [[text | h | s | s | p] |] eqn:Hlookup; simpl.
  2:{ destruct (hst_version h <? 1)%Z; simpl;
        eexists; (split; [reflexivity |]); repeat split; simpl;
        auto using throws_afterProbe, dispatched_afterProbe;
        rewrite entries_afterProbe by exact HISTORY_not_probe; exact Hlookup. }
  all: eexists; (split; [reflexivity |]); repeat split; simpl;
    auto using throws_afterProbe, dispatched_afterProbe;
    rewrite entries_afterProbe by exact HISTORY_not_probe; exact Hlookup.
Qed.

Lemma rewriteHistory_spec (f : list HistoryItem -> list HistoryItem)
    (e : CustomEvent) (w : World) :
  exists w', rewriteHistory f e w = (Normal tt, w')
             /\ throws w' = throws w
             /\ storedItems w'
                = (if writable w HISTORY then f (readList w) else storedItems w)
             /\ listed w' = (if writable w HISTORY then f (readList w) else listed w)
             /\ dispatched w' = dispatched w ++ [e].
Proof.
  unfold rewriteHistory, bind at 1.
  destruct (getHistoryItems_spec w) as (w1 & -> & [Hthrows1 Hentries1] & Hdisp1 & _).
  unfold bind at 1, now. unfold bind.
  destruct (setItem_spec HISTORY
              {| hst_items := f (readList w); hst_lastUpdated := clock w1;
                 hst_version := 1 |} w1 HISTORY_not_probe)
    as (w2 & -> & Hthrows2 & Hentries2 & Hdisp2 & _).
  rewrite (writable_throws w w1) in Hentries2 by exact Hthrows1.
  eexists. split; [reflexivity |]. simpl.
  split; [congruence |].
  unfold storedItems, listed; simpl. rewrite Hentries2.
  destruct (writable w HISTORY); simpl.
  - repeat split. congruence.
  - rewrite Hentries1. repeat split. congruence.
Qed.

Lemma saveHistoryItem_spec (item : HistoryItem) (w : World) :
  exists w', saveHistoryItem item w = (Normal tt, w')
             /\ throws w' = throws w
             /\ storedItems w'
                = (if writable w HISTORY then recorded item (readList w) else storedItems w)
             /\ listed w'
                = (if writable w HISTORY then recorded item (readList w) else listed w)
             /\ dispatched w' = dispatched w ++ [historyUpdated (Some item)].
Proof. apply (rewriteHistory_spec (recorded item)). Qed.

Lemma removeHistoryItem_spec (id : string) (w : World) :
  exists w', removeHistoryItem id w = (Normal tt, w')
             /\ throws w' = throws w
             /\ storedItems w'
                = (if writable w HISTORY then removed id (readList w) else storedItems w)
             /\ listed w'
                = (if writable w HISTORY then removed id (readList w) else listed w)
             /\ dispatched w' = dispatched w ++ [historyUpdated None].
Proof. apply (rewriteHistory_spec (removed id)). Qed.

Lemma toggleHistoryItemFavorite_spec (id : string) (w : World) :
  exists w', toggleHistoryItemFavorite id w = (Normal tt, w')
             /\ throws w' = throws w
             /\ storedItems w'
                = (if writable w HISTORY then toggled id (readList w) else storedItems w)
             /\ listed w'
                = (if writable w HISTORY then toggled id (readList w) else listed w)
             /\ dispatched w' = dispatched w ++ [historyUpdated None].
Proof. apply (rewriteHistory_spec (toggled id)). Qed.

Lemma clearHistory_spec (w : World) :
  exists w', clearHistory w = (Normal tt, w')
             /\ throws w' = throws w
             /\ storedItems w' = (if removable w HISTORY then [] else storedItems w)
             /\ listed w' = (if removable w HISTORY then [] else listed w)
             /\ dispatched w' = dispatched w ++ [historyCleared].
Proof.
  unfold clearHistory, bind.
  destruct (removeItem_spec HISTORY w HISTORY_not_probe)
    as (w1 & -> & Hthrows & Hentries & Hdisp & _).
  eexists. split; [reflexivity |]. simpl.
  split; [assumption |].
  unfold storedItems, listed; simpl. rewrite Hentries.
  destruct (removable w HISTORY); repeat split; congruence.
Qed.

Lemma length_recorded (item : HistoryItem) (history : list HistoryItem) :
  (length (recorded item history) <= MAX_HISTORY_ITEMS)%nat.
Proof. unfold recorded. rewrite length_take. lia. Qed.

Lemma length_removed (id : string) (history : list HistoryItem) :
  (length (removed id history) <= length history)%nat.
Proof. unfold removed. apply length_filter. Qed.

Lemma length_toggled (id : string) (history : list HistoryItem) :
  length (toggled id history) = length history.
Proof. unfold toggled. apply length_map. Qed.

Lemma length_listed (w : World) : (length (listed w) <= length (storedItems w))%nat.
Proof.
  unfold listed, storedItems.
  destruct (entries w !! HISTORY) as [[text | h | s | s | p] |]; simpl; try lia.
  destruct (hst_version h <? 1)%Z; simpl; lia.
Qed.

Lemma length_readList (w : World) : (length (readList w) <= length (storedItems w))%nat.
Proof.
  unfold readList. destruct (readable w HISTORY); simpl; [apply length_listed | lia].
Qed.

(** Each mutation keeps the persisted list within the bound. *)
Lemma applyOp_bounded (op : HistoryOp) (w : World) :
  (length (storedItems w) <= MAX_HISTORY_ITEMS)%nat ->
  (length (storedItems (exec (applyOp op) w)) <= MAX_HISTORY_ITEMS)%nat.
Proof.
  intros Hbound. unfold exec.
  pose proof (length_readList w) as Hread.
  destruct op as [item | id | id |]; simpl.
  - destruct (saveHistoryItem_spec item w) as (w' & Hrun & _ & Hstored & _);
      rewrite Hrun; simpl; rewrite Hstored.
    destruct (writable w HISTORY); [apply length_recorded | exact Hbound].
  - destruct (removeHistoryItem_spec id w) as (w' & Hrun & _ & Hstored & _);
      rewrite Hrun; simpl; rewrite Hstored.
    destruct (writable w HISTORY); [| exact Hbound].
    pose proof (length_removed id (readList w)). lia.
  - destruct (toggleHistoryItemFavorite_spec id w) as (w' & Hrun & _ & Hstored & _);
      rewrite Hrun; simpl; rewrite Hstored.
    destruct (writable w HISTORY); [| exact Hbound].
    rewrite length_toggled. lia.
  - destruct (clearHistory_spec w) as (w' & Hrun & _ & Hstored & _);
      rewrite Hrun; simpl; rewrite Hstored.
    destruct (removable w HISTORY); [simpl; lia | exact Hbound].
Qed.

Lemma applyOps_bounded (ops : list HistoryOp) (w : World) :
  (length (storedItems w) <= MAX_HISTORY_ITEMS)%nat ->
  (length (storedItems (applyOps ops w)) <= MAX_HISTORY_ITEMS)%nat.
Proof.
  revert w. induction ops as [| op ops IH]; intros w Hbound; simpl.
  - exact Hbound.
  - apply IH, applyOp_bounded, Hbound.
Qed.

(** On a working store a mutation is what its list transformation says,
    and the store keeps working. *)
Lemma record_healthy (item : HistoryItem) (w : World) :
  healthy w ->
  healthy (exec (saveHistoryItem item) w)
  /\ listed (exec (saveHistoryItem item) w) = recorded item (listed w).
Proof.
  intros Hw. unfold exec.
  destruct (saveHistoryItem_spec item w) as (w' & Hrun & Hthrows & _ & Hlisted & _);
    rewrite Hrun; simpl; rewrite Hlisted.
  split; [exact (healthy_throws _ _ Hthrows Hw) |].
  unfold readList. rewrite healthy_writable, healthy_readable by exact Hw. reflexivity.
Qed.

Lemma remove_healthy (id : string) (w : World) :
  healthy w ->
  healthy (exec (removeHistoryItem id) w)
  /\ listed (exec (removeHistoryItem id) w) = removed id (listed w).
Proof.
  intros Hw. unfold exec.
  destruct (removeHistoryItem_spec id w) as (w' & Hrun & Hthrows & _ & Hlisted & _);
    rewrite Hrun; simpl; rewrite Hlisted.
  split; [exact (healthy_throws _ _ Hthrows Hw) |].
  unfold readList. rewrite healthy_writable, healthy_readable by exact Hw. reflexivity.
Qed.

Lemma toggle_healthy (id : string) (w : World) :
  healthy w ->
  healthy (exec (toggleHistoryItemFavorite id) w)
  /\ listed (exec (toggleHistoryItemFavorite id) w) = toggled id (listed w).
Proof.
  intros Hw. unfold exec.
  destruct (toggleHistoryItemFavorite_spec id w) as (w' & Hrun & Hthrows & _ & Hlisted & _);
    rewrite Hrun; simpl; rewrite Hlisted.
  split; [exact (healthy_throws _ _ Hthrows Hw) |].
  unfold readList. rewrite healthy_writable, healthy_readable by exact Hw. reflexivity.
Qed.

Lemma getHistoryItems_healthy (w : World) :
  healthy w -> (getHistoryItems w).1 = Normal (listed w).
Proof.
  intros Hw. destruct (getHistoryItems_spec w) as (w' & -> & _); simpl.
  unfold readList. rewrite healthy_readable by exact Hw. reflexivity.
Qed.

Lemma recorded_six (i1 i2 i3 i4 i5 i6 : HistoryItem) :
  NoDup [hi_id i1; hi_id i2; hi_id i3; hi_id i4; hi_id i5; hi_id i6] ->
  recorded i6 (recorded i5 (recorded i4 (recorded i3 (recorded i2 (recorded i1 [])))))
  = [i6; i5; i4; i3; i2].
Proof.
  intros Hnodup.
  repeat match goal with
    | H : NoDup (_ :: _) |- _ => apply NoDup_cons in H; destruct H as [? H]
    end.
  repeat match goal with
    | H : _ ∉ _ :: _ |- _ => apply not_elem_of_cons in H; destruct H
    end.
  unfold recorded, MAX_HISTORY_ITEMS; simpl.
  repeat (first [ rewrite filter_cons
                | rewrite filter_nil
                | rewrite decide_True by congruence ]; simpl).
  reflexivity.
Qed.

End HistoryStore.

(** C2. Recording a history item removes any entry with the same id,
    prepends the item and keeps the 5 most recent, most recent first (on a
    store that accepts the operations, to which the item is then
    persisted). After any sequence of record, remove, toggle-favorite and
    clear operations on a store holding at most 5 items (an empty one, for
    one), whatever the store accepts or refuses, the persisted list and the
    list read back hold at most 5 items. Recording 6 items of distinct ids
    on a working store with an empty history leaves exactly the last 5,
    most recent first: the oldest is evicted. *)
Theorem C2_history_bounded :
  (forall (item : HistoryItem) (w : World),
      healthy w ->
      (saveHistoryItem item w).1 = Normal tt
      /\ (getHistoryItems (exec (saveHistoryItem item) w)).1
         = Normal (take 5 (item :: filter (fun h => hi_id h ≠ hi_id item) (listed w)))
      /\ (getHistoryItems w).1 = Normal (listed w))
  /\ (forall (ops : list HistoryOp) (w : World),
        (length (storedItems w) <= 5)%nat ->
        (length (storedItems (applyOps ops w)) <= 5)%nat
        /\ forall history,
             (getHistoryItems (applyOps ops w)).1 = Normal history ->
             (length history <= 5)%nat)
  /\ (forall (i1 i2 i3 i4 i5 i6 : HistoryItem) (w : World),
        healthy w -> listed w = [] ->
        NoDup [hi_id i1; hi_id i2; hi_id i3; hi_id i4; hi_id i5; hi_id i6] ->
        (getHistoryItems
           (applyOps [OpRecord i1; OpRecord i2; OpRecord i3;
                      OpRecord i4; OpRecord i5; OpRecord i6] w)).1
        = Normal [i6; i5; i4; i3; i2]).
Proof.
  split; [| split].
  - intros item w Hw.
    destruct (record_healthy item w Hw) as [Hw' Hlisted].
    split; [| split].
    + destruct (saveHistoryItem_spec item w) as (w' & -> & _). reflexivity.
    + rewrite getHistoryItems_healthy by exact Hw'. rewrite Hlisted. reflexivity.
    + apply getHistoryItems_healthy, Hw.
  - intros ops w Hbound.
    pose proof (applyOps_bounded ops w Hbound) as Hafter.
    split; [exact Hafter |].
    intros history Hread.
    destruct (getHistoryItems_spec (applyOps ops w)) as (w' & Hrun & _).
    rewrite Hrun in Hread. simpl in Hread. injection Hread as <-.
    pose proof (length_readList (applyOps ops w)).
    unfold MAX_HISTORY_ITEMS in *. lia.
  - intros i1 i2 i3 i4 i5 i6 w Hw Hempty Hnodup. simpl.
    destruct (record_healthy i1 w Hw) as [Hw1 Hl1].
    destruct (record_healthy i2 _ Hw1) as [Hw2 Hl2].
    destruct (record_healthy i3 _ Hw2) as [Hw3 Hl3].
    destruct (record_healthy i4 _ Hw3) as [Hw4 Hl4].
    destruct (record_healthy i5 _ Hw4) as [Hw5 Hl5].
    destruct (record_healthy i6 _ Hw5) as [Hw6 Hl6].
    rewrite getHistoryItems_healthy by exact Hw6.
    rewrite Hl6, Hl5, Hl4, Hl3, Hl2, Hl1, Hempty.
    rewrite recorded_six by exact Hnodup. reflexivity.
Qed.

(** Six recordings on the fresh example tab. *)
Lemma C2_history_bounded_witness :
  (getHistoryItems
     (applyOps [OpRecord (exampleItem "a"); OpRecord (exampleItem "b");
                OpRecord (exampleItem "c"); OpRecord (exampleItem "d");
                OpRecord (exampleItem "e"); OpRecord (exampleItem "f")]
               (exampleWorld (fun _ => 0%Q)))).1
  = Normal [exampleItem "f"; exampleItem "e"; exampleItem "d";
            exampleItem "c"; exampleItem "b"].
Proof.
  apply (proj2 (proj2 C2_history_bounded)).
  - intros op. reflexivity.
  - reflexivity.
  - apply (bool_decide_unpack _). vm_compute. exact I.
Defined.

(* ===================================================================== *)
(** ** Favorite toggling and removal                                      *)
(* ===================================================================== *)

Section Favorites.

Lemma flipFavorite_twice_flag (item : HistoryItem) :
  hi_isFavorite (flipFavorite (flipFavorite item)) = Some (favorite item).
Proof.
  unfold flipFavorite, notFavorite, favorite; simpl.
  destruct (hi_isFavorite item) as [[] |]; reflexivity.
Qed.

Lemma toggled_lookup (id : string) (history : list HistoryItem) (i : nat) :
  toggled id history !! i
  = (fun item => if decide (hi_id item = id) then flipFavorite item else item)
      <$> history !! i.
Proof. unfold toggled. apply list_lookup_fmap. Qed.

Lemma toggled_twice_lookup (id : string) (history : list HistoryItem) (i : nat)
    (item : HistoryItem) :
  history !! i = Some item -> hi_id item = id ->
  toggled id (toggled id history) !! i = Some (flipFavorite (flipFavorite item)).
Proof.
  intros Hlookup Hid.
  rewrite !toggled_lookup, Hlookup; simpl.
  destruct (decide (hi_id item = id)) as [_ | Hne]; [| contradiction]; simpl.
  rewrite decide_True by exact Hid. reflexivity.
Qed.

Lemma removed_no_id (id : string) (history : list HistoryItem) (item : HistoryItem) :
  item ∈ removed id history -> hi_id item <> id.
Proof. unfold removed. intros Hin. apply list_elem_of_filter in Hin. tauto. Qed.

End Favorites.

(** C9, as stated, fails for an item whose [isFavorite] field is absent,
    which is how [startGeneration] records every item: two toggles leave
    the flag at an explicit [false], not absent. *)
Lemma C9_absent_flag_becomes_false :
  let w := exec (saveHistoryItem (exampleItem "a")) (exampleWorld (fun _ => 0%Q)) in
  let w2 := exec (toggleHistoryItemFavorite "a") (exec (toggleHistoryItemFavorite "a") w) in
  hi_isFavorite <$> listed w = [None]
  /\ hi_isFavorite <$> listed w2 = [Some false].
Proof. split; vm_compute; reflexivity. Qed.

(** C9, amended. On a store that accepts the operations, for every stored
    history list and every id of an item in it, applying
    [toggleHistoryItemFavorite id] twice returns that item's favorite flag
    to its original truth value: to the original value itself when the
    flag was a boolean, and to an explicit [false] when the flag was
    absent; the item is otherwise unchanged. After [removeHistoryItem id]
    the listed history contains no item with that id. *)
Theorem C9_toggle_twice_and_remove (w : World) (id : string) :
  healthy w ->
  let w2 := exec (toggleHistoryItemFavorite id) (exec (toggleHistoryItemFavorite id) w) in
  (forall (i : nat) (item : HistoryItem),
      listed w !! i = Some item -> hi_id item = id ->
      exists item',
        (getHistoryItems w2).1 = Normal (listed w2)
        /\ listed w2 !! i = Some item'
        /\ hi_id item' = id
        /\ favorite item' = favorite item
        /\ hi_isFavorite item' = Some (favorite item)
        /\ (is_Some (hi_isFavorite item) -> item' = item))
  /\ (forall history,
        (getHistoryItems (exec (removeHistoryItem id) w)).1 = Normal history ->
        forall item, item ∈ history -> hi_id item <> id).
Proof.
  intros Hw w2.
  destruct (toggle_healthy id w Hw) as [Hw1 Hl1].
  destruct (toggle_healthy id _ Hw1) as [Hw2 Hl2].
  fold w2 in Hw2, Hl2. rewrite Hl1 in Hl2.
  split.
  - intros i item Hlookup Hid.
    exists (flipFavorite (flipFavorite item)).
    split; [apply getHistoryItems_healthy, Hw2 |].
    split; [rewrite Hl2; apply toggled_twice_lookup; assumption |].
    split; [exact Hid |].
    split; [unfold favorite at 1; rewrite flipFavorite_twice_flag; reflexivity |].
    split; [apply flipFavorite_twice_flag |].
    intros [b Hflag]. destruct item as [a1 a2 a3 a4 a5 a6 a7 flag a9].
    simpl in Hflag. subst flag.
    unfold flipFavorite, notFavorite; simpl. rewrite negb_involutive. reflexivity.
  - intros history Hread item Hin.
    destruct (remove_healthy id w Hw) as [Hw' Hl'].
    rewrite getHistoryItems_healthy in Hread by exact Hw'.
    injection Hread as <-. rewrite Hl' in Hin.
    exact (removed_no_id id _ item Hin).
Qed.

(** A favorite item on the example tab: two toggles give it back. *)
Lemma C9_toggle_twice_and_remove_witness :
  let item :=
    {| hi_id := "a"; hi_imageUrl := "https://example.com/a"; hi_prompt := "red dress";
       hi_style := "editorial"; hi_createdAt := 0; hi_processingTime := None;
       hi_thumbnail := None; hi_isFavorite := Some true; hi_tags := None |} in
  let w := exec (saveHistoryItem item) (exampleWorld (fun _ => 0%Q)) in
  let w2 := exec (toggleHistoryItemFavorite "a") (exec (toggleHistoryItemFavorite "a") w) in
  exists item', listed w2 !! 0%nat = Some item' /\ item' = item.
Proof.
  intros item w w2.
  destruct (proj1 (C9_toggle_twice_and_remove w "a" (fun op => eq_refl)) 0%nat item)
    as (item' & _ & Hlookup & _ & _ & _ & Hsame).
  - vm_compute. reflexivity.
  - reflexivity.
  - exists item'. split; [exact Hlookup |]. apply Hsame. eexists. reflexivity.
Defined.

(* ===================================================================== *)
(** ** The request manager                                                *)
(* ===================================================================== *)

Section Requests.

Lemma at_settlement_any {A} (P : Completion A -> World -> Prop) (r : Run A) :
  (forall c w, P c w) -> at_settlement P r.
Proof. intros HP. induction r as [c w | ms w k IH]; simpl; auto. Qed.

Lemma at_settlement_reify {A} (Q : Completion (Completion A) -> World -> Prop)
    (r : Run A) :
  at_settlement (fun c w => Q (Normal c) w) r -> at_settlement Q (Run_reify r).
Proof. induction r as [c w | ms w k IH]; simpl; auto. Qed.

Lemma at_settlement_bind {A B} (P : Completion B -> World -> Prop)
    (r : Run A) (f : A -> Async B) :
  at_settlement (fun c w =>
                   match c with
                   | Normal a => at_settlement P (f a w)
                   | Throw e => P (Throw e) w
                   end) r ->
  at_settlement P (Run_bind r f).
Proof.
  induction r as [[a | e] w | ms w k IH]; simpl; auto.
Qed.

Lemma cancelRequest_eq (requestId : string) (w : World) :
  RequestManager.cancelRequest requestId w
  = (Normal tt,
     match activeRequests w !! requestId with
     | Some controller =>
         with_activeRequests (delete requestId)
           (with_controllers (fun cs => <[controller := true]> cs) w)
     | None => w
     end).
Proof.
  unfold RequestManager.cancelRequest, bind, get.
  destruct (activeRequests w !! requestId); reflexivity.
Qed.

(** Cancelling an id the manager does not hold changes nothing. *)
Lemma cancelRequest_inactive (requestId : string) (w : World) :
  activeRequests w !! requestId = None ->
  RequestManager.cancelRequest requestId w = (Normal tt, w).
Proof. intros Hnone. rewrite cancelRequest_eq, Hnone. reflexivity. Qed.

Lemma isRequestActive_eq (requestId : string) (w : World) :
  RequestManager.isRequestActive requestId w
  = (Normal (bool_decide (is_Some (activeRequests w !! requestId))), w).
Proof. reflexivity. Qed.

Lemma makeRequest_eq {T} (requestId : string) (requestFn : nat -> Async T) (w : World) :
  RequestManager.makeRequest requestId requestFn w
  = Run_bind (Run_reify (requestFn (length (controllers w)) (registered requestId w)))
      (fun outcome =>
         match outcome with
         | Normal result =>
             (modify (with_activeRequests (delete requestId)) ;; resolve result)%async
         | Throw thrown =>
             (modify (with_activeRequests (delete requestId)) ;; reject thrown)%async
         end).
Proof.
  unfold RequestManager.makeRequest, registered, exec, await, lift.
  rewrite cancelRequest_eq; simpl.
  destruct (activeRequests w !! requestId); simpl; try reflexivity.
  rewrite length_insert. reflexivity.
Qed.

Lemma registered_spec (requestId : string) (w : World) :
  activeRequests (registered requestId w) !! requestId = Some (length (controllers w))
  /\ controllers (registered requestId w) !! length (controllers w) = Some false
  /\ forall previous,
       activeRequests w !! requestId = Some previous ->
       (previous < length (controllers w))%nat ->
       controllers (registered requestId w) !! previous = Some true.
Proof.
  unfold registered, exec. rewrite cancelRequest_eq; simpl.
  split; [apply lookup_insert_eq |].
  split.
  - destruct (activeRequests w !! requestId); simpl.
    + rewrite lookup_app_r by (rewrite length_insert; lia).
      rewrite length_insert, Nat.sub_diag. reflexivity.
    + rewrite lookup_app_r by lia. rewrite Nat.sub_diag. reflexivity.
  - intros previous -> Hlt; simpl.
    rewrite lookup_app_l by (rewrite length_insert; lia).
    apply list_lookup_insert_eq, Hlt.
Qed.

Lemma filter_key_absent {V} (key : string) (l : list (string * V)) :
  key ∉ l.*1 -> filter (fun kv => kv.1 = key) l = [].
Proof.
  induction l as [| [k v] l IH]; intros Hnotin; simpl; [reflexivity |].
  simpl in Hnotin. apply not_elem_of_cons in Hnotin as [Hne Hnotin].
  rewrite filter_cons. rewrite decide_False by (simpl; congruence).
  apply IH, Hnotin.
Qed.

Lemma count_key_NoDup {V} (key : string) (l : list (string * V)) :
  NoDup l.*1 -> (length (filter (fun kv => kv.1 = key) l) <= 1)%nat.
Proof.
  induction l as [| [k v] l IH]; intros Hnodup; simpl; [lia |].
  simpl in Hnodup. apply NoDup_cons in Hnodup as [Hnotin Hnodup].
  rewrite filter_cons. destruct (decide ((k, v).1 = key)) as [Heq | Hne]; simpl in *.
  - subst k. rewrite filter_key_absent by exact Hnotin. simpl. lia.
  - apply IH, Hnodup.
Qed.

End Requests.

(** C10. Once a [makeRequest requestId requestFn] call settles (resolved
    with the result of [requestFn] or rejected with what it threw),
    whatever happened while the request was in flight, the id is no
    longer in the active-request map: [isRequestActive requestId] returns
    false and [cancelRequest requestId] changes nothing. At any moment the
    manager holds at most one controller per id; starting a request
    aborts the controller previously held under the id and registers a
    fresh one. *)
Theorem C10_request_manager_cleanup :
  (forall (T : Type) (requestId : string) (requestFn : nat -> Async T) (w : World),
      at_settlement
        (fun _ w' =>
           activeRequests w' !! requestId = None
           /\ RequestManager.isRequestActive requestId w' = (Normal false, w')
           /\ RequestManager.cancelRequest requestId w' = (Normal tt, w'))
        (RequestManager.makeRequest requestId requestFn w))
  /\ (forall (requestId : string) (w : World),
        (length (controllersOf requestId w) <= 1)%nat)
  /\ (forall (T : Type) (requestId : string) (requestFn : nat -> Async T) (w : World),
        RequestManager.makeRequest requestId requestFn w
        = Run_bind (Run_reify (requestFn (length (controllers w)) (registered requestId w)))
            (fun outcome =>
               match outcome with
               | Normal result =>
                   (modify (with_activeRequests (delete requestId)) ;; resolve result)%async
               | Throw thrown =>
                   (modify (with_activeRequests (delete requestId)) ;; reject thrown)%async
               end))
  /\ (forall (requestId : string) (w : World),
        activeRequests (registered requestId w) !! requestId = Some (length (controllers w))
        /\ controllers (registered requestId w) !! length (controllers w) = Some false
        /\ forall previous,
             activeRequests w !! requestId = Some previous ->
             (previous < length (controllers w))%nat ->
             controllers (registered requestId w) !! previous = Some true).
Proof.
  split; [| split; [| split]].
  - intros T requestId requestFn w.
    rewrite makeRequest_eq.
    apply at_settlement_bind, at_settlement_reify, at_settlement_any.
    intros c w'.
    assert (activeRequests (with_activeRequests (delete requestId) w') !! requestId = None)
      as Hgone by apply lookup_delete_eq.
    destruct c as [result | thrown]; simpl;
      (split; [exact Hgone |]);
      (split; [rewrite isRequestActive_eq, Hgone; reflexivity |]);
      apply cancelRequest_inactive, Hgone.
  - intros requestId w. apply count_key_NoDup, NoDup_fst_map_to_list.
  - intros. apply makeRequest_eq.
  - intros. apply registered_spec.
Qed.

(* ===================================================================== *)
(** ** The mock endpoint                                                  *)
(* ===================================================================== *)

(** Evaluation of the monadic code, one construct at a time. *)
Ltac run :=
  cbn [settle resume delays elapse
       await lift Run_bind Run_reify reify delay resolve reject
       bind ret throw try_catch get modify getState setState now
       Math_random randomId randomChoice console_log console_warn console_error
       dispatchEvent signal_aborted shouldSimulateError createMockError
       drawProcessingTime createMockResponse callProgress mergeRetryConfig
       isApiError negb andb orb default from_option
       with_app with_activeRequests with_controllers with_entries with_dispatched
       with_console with_drawn with_clock with_endpointCalls
       with_generation with_preview with_history with_form with_isGenerating
       app activeRequests controllers entries throws dispatched console random
       randomText drawn clock uuid endpointCalls fst snd
       preview generation history form
       status progress currentRequest result gen_error retryCount canRetry
       currentImage currentPrompt currentStyle isGenerating showComparison
       req_imageDataUrl req_prompt req_style req_requestId
       err_name err_message err_code err_retryable err_timestamp
       retryConfig onRetry onProgress
       prc_maxAttempts prc_baseDelay prc_maxDelay prc_backoffMultiplier
       maxAttempts baseDelay maxDelay backoffMultiplier RETRY_CONFIG id retryLoop
       mockErrorAt Nat.eqb].

Section Endpoint.

Lemma await_lift {A B} (m : Sync A) (f : A -> Async B) (w : World) :
  await (lift m) f w
  = match m w with
    | (Normal a, w') => f a w'
    | (Throw e, w') => Settled (Throw e) w'
    end.
Proof. unfold await, lift. destruct (m w) as [[a | e] w']; reflexivity. Qed.

Lemma validateGenerationRequest_valid (request : GenerationRequest) (w : World) :
  validRequest request = true -> validateGenerationRequest request w = (Normal tt, w).
Proof.
  unfold validRequest. rewrite !andb_true_iff, !negb_true_iff.
  intros [[[[[Himage Hprompt] Hzero] Hlong] Hstyle] Hformat].
  unfold validateGenerationRequest, bind, now; simpl.
  rewrite Himage, Hprompt, Hzero, Hlong, Hstyle, Hformat. reflexivity.
Qed.

(** A valid request makes the endpoint wait for the processing time it
    drew, then go on as [afterProcessing] says. *)
Lemma generateImage_valid (request : GenerationRequest) (signal : option nat)
    (w : World) :
  validRequest request = true ->
  exists k,
    generateImage request signal w
    = Pending (inject_Z (processingTimeOf (random w (drawn w))))
              (with_drawn S (with_endpointCalls S w)) k
    /\ forall w', k w' = afterProcessing request signal w'.
Proof.
  intros Hvalid. unfold generateImage. run.
  rewrite await_lift, validateGenerationRequest_valid by exact Hvalid. run.
  eexists. split; [reflexivity |]. intros w'. reflexivity.
Qed.

Lemma afterProcessing_aborted (request : GenerationRequest) (signal : option nat)
    (w : World) :
  abortedIn signal w = true ->
  afterProcessing request signal w = Settled (Throw (ThrownError "Request aborted")) w.
Proof. intros Haborted. unfold afterProcessing. run. rewrite Haborted. reflexivity. Qed.

Lemma afterProcessing_failure (request : GenerationRequest) (signal : option nat)
    (w : World) :
  abortedIn signal w = false -> failsAt w = true ->
  afterProcessing request signal w
  = Settled (Throw (ThrownApiError (mockErrorAt w))) (with_drawn S (with_drawn S w)).
Proof.
  intros Haborted Hfails. unfold afterProcessing. run. rewrite Haborted. run.
  unfold failsAt in Hfails. rewrite Hfails. reflexivity.
Qed.

Lemma afterProcessing_success (request : GenerationRequest) (signal : option nat)
    (w : World) :
  abortedIn signal w = false -> failsAt w = false ->
  afterProcessing request signal w
  = Settled (Normal (mockResponseAt request w))
            (with_drawn S (with_drawn S (with_drawn S (with_drawn S w)))).
Proof.
  intros Haborted Hfails. unfold afterProcessing. run. rewrite Haborted. run.
  unfold failsAt in Hfails. rewrite Hfails. reflexivity.
Qed.

Lemma processingTimeOf_range (r : Q) :
  (0 <= r)%Q -> (r < 1)%Q -> (1000 <= processingTimeOf r <= 2000)%Z.
Proof.
  intros Hr0 Hr1. unfold processingTimeOf, MAX_PROCESSING_TIME, MIN_PROCESSING_TIME.
  change (2000 - 1000 + 1)%Z with 1001%Z.
  set (x := (r * inject_Z 1001 + inject_Z 1000)%Q).
  assert (inject_Z 1000 <= x)%Q as Hlow.
  { subst x. change (inject_Z 1000) with 1000%Q. change (inject_Z 1001) with 1001%Q. lra. }
  assert (x < inject_Z 2001)%Q as Hhigh.
  { subst x. change (inject_Z 1000) with 1000%Q. change (inject_Z 1001) with 1001%Q.
    change (inject_Z 2001) with 2001%Q. lra. }
  split.
  - rewrite <- (Qfloor_Z 1000). apply Qfloor_resp_le, Hlow.
  - assert (Qfloor x < 2001)%Z; [| lia].
    rewrite Zlt_Qlt. eapply Qle_lt_trans; [apply Qfloor_le | exact Hhigh].
Qed.

Lemma randomChoice_index (r : Q) (n : nat) :
  (0 <= r)%Q -> (r < 1)%Q -> (0 < n)%nat ->
  (Z.to_nat (Qfloor (r * inject_Z (Z.of_nat n))%Q) < n)%nat.
Proof.
  intros Hr0 Hr1 Hn.
  set (x := (r * inject_Z (Z.of_nat n))%Q).
  assert (0 < inject_Z (Z.of_nat n))%Q as Hpos.
  { change 0%Q with (inject_Z 0). rewrite <- Zlt_Qlt. lia. }
  assert (0 <= x)%Q as Hlow.
  { subst x. apply Qmult_le_0_compat; [exact Hr0 | apply Qlt_le_weak, Hpos]. }
  assert (x < inject_Z (Z.of_nat n))%Q as Hhigh.
  { subst x. rewrite <- (Qmult_1_l (inject_Z (Z.of_nat n))) at 2.
    apply Qmult_lt_compat_r; assumption. }
  assert (0 <= Qfloor x)%Z as Hfloor0.
  { rewrite <- (Qfloor_Z 0). apply Qfloor_resp_le, Hlow. }
  assert (Qfloor x < Z.of_nat n)%Z as Hfloor1.
  { rewrite Zlt_Qlt. eapply Qle_lt_trans; [apply Qfloor_le | exact Hhigh]. }
  lia.
Qed.

Lemma mockResponseAt_image (request : GenerationRequest) (w : World) :
  unit_draws w -> res_imageUrl (mockResponseAt request w) ∈ MOCK_GENERATED_IMAGES.
Proof.
  intros Hdraws. unfold mockResponseAt; cbn [res_imageUrl].
  destruct (Hdraws (S (S (S (drawn w))))) as [Hr0 Hr1].
  pose proof (randomChoice_index _ (length MOCK_GENERATED_IMAGES) Hr0 Hr1) as Hindex.
  destruct (lookup_lt_is_Some_2 MOCK_GENERATED_IMAGES _ (Hindex ltac:(simpl; lia)))
    as [url Hurl].
  rewrite Hurl. cbn [default]. apply list_elem_of_lookup. eexists. exact Hurl.
Qed.

End Endpoint.

(** C6, as stated, fails: [createMockResponse] draws its own
    [processingTime]. With a first draw of 0 and later draws of 1/2 the
    call waits 1000 ms and reports 1500. *)
Lemma C6_processingTime_is_redrawn :
  delays (generateImage exampleRequest None (exampleWorld unevenDraws)) = [1000%Q]
  /\ exists response,
       (settle (generateImage exampleRequest None (exampleWorld unevenDraws))).1
       = Normal response
       /\ res_processingTime response = Some 1500%Z.
Proof. split; [reflexivity |]. eexists. split; reflexivity. Qed.

(** C6, amended. A call of the mock endpoint with a valid request, whose
    signal is not aborted when the processing delay ends and whose
    simulated-error draw is not below the error rate, succeeds after a
    single wait. The result echoes the request's prompt and style
    unchanged, carries the id generated by [randomId] during the call and
    an image URL of the fixed pool, and its [processingTime] field is
    computed, by the formula of the delay, from a fresh draw of
    [Math.random()]: it is not the value of the delay the call waited
    for, which came from an earlier draw. *)
Theorem C6_mock_response (request : GenerationRequest) (signal : option nat) (w : World) :
  validRequest request = true ->
  unit_draws w ->
  abortedIn signal w = false ->
  Qlt_bool (random w (S (drawn w))) ERROR_RATE = false ->
  exists response w',
    settle (generateImage request signal w) = (Normal response, w')
    /\ delays (generateImage request signal w)
       = [inject_Z (processingTimeOf (random w (drawn w)))]
    /\ res_prompt response = req_prompt request
    /\ res_style response = req_style request
    /\ res_id response = randomText w (3 + drawn w)
    /\ res_imageUrl response ∈ MOCK_GENERATED_IMAGES
    /\ res_processingTime response = Some (processingTimeOf (random w (2 + drawn w)))
    /\ endpointCalls w' = S (endpointCalls w).
Proof.
  intros Hvalid Hdraws Haborted Hfails.
  destruct (generateImage_valid request signal w Hvalid) as (k & Hrun & Hk).
  rewrite Hrun. cbn [settle delays]. rewrite !Hk.
  set (w1 := elapse _ _).
  assert (afterProcessing request signal w1
          = Settled (Normal (mockResponseAt request w1))
              (with_drawn S (with_drawn S (with_drawn S (with_drawn S w1))))) as Hafter
    by (apply afterProcessing_success; assumption).
  rewrite Hafter. cbn [settle delays].
  eexists _, _. split; [reflexivity |].
  split; [reflexivity |].
  split; [reflexivity |].
  split; [reflexivity |].
  split; [reflexivity |].
  split; [apply mockResponseAt_image; exact Hdraws |].
  split; [reflexivity |].
  reflexivity.
Qed.

(** The end-to-end request on the example tab, every draw being 1/2. *)
Lemma C6_mock_response_witness :
  exists response,
    (settle (generateImage exampleRequest None (exampleWorld (fun _ => 1 # 2)))).1
    = Normal response
    /\ res_prompt response = "red dress on runway"
    /\ res_style response = "editorial".
Proof.
  destruct (C6_mock_response exampleRequest None (exampleWorld (fun _ => 1 # 2)))
    as (response & w' & Hrun & _ & Hprompt & Hstyle & _).
  - reflexivity.
  - intros n. split; [discriminate | reflexivity].
  - reflexivity.
  - reflexivity.
  - exists response. rewrite Hrun. auto.
Defined.

(* ===================================================================== *)
(** ** The generation lifecycle                                           *)
(* ===================================================================== *)

Section Lifecycle.

Lemma registered_frame (id : string) (w : World) :
  app (registered id w) = app w
  /\ entries (registered id w) = entries w
  /\ throws (registered id w) = throws w
  /\ dispatched (registered id w) = dispatched w
  /\ console (registered id w) = console w
  /\ random (registered id w) = random w
  /\ randomText (registered id w) = randomText w
  /\ drawn (registered id w) = drawn w
  /\ clock (registered id w) = clock w
  /\ endpointCalls (registered id w) = endpointCalls w.
Proof.
  unfold registered, exec. rewrite cancelRequest_eq. simpl.
  destruct (activeRequests w !! id); repeat split.
Qed.

Lemma registered_app (id : string) (w : World) : app (registered id w) = app w.
Proof. apply registered_frame. Qed.

Lemma registered_entries (id : string) (w : World) :
  entries (registered id w) = entries w.
Proof. apply registered_frame. Qed.

Lemma registered_dispatched (id : string) (w : World) :
  dispatched (registered id w) = dispatched w.
Proof. apply registered_frame. Qed.

Lemma registered_random (id : string) (w : World) :
  random (registered id w) = random w.
Proof. apply registered_frame. Qed.

Lemma registered_endpointCalls (id : string) (w : World) :
  endpointCalls (registered id w) = endpointCalls w.
Proof. apply registered_frame. Qed.

Lemma registered_fresh (id : string) (w : World) (address : nat) :
  address = length (controllers w) ->
  controllers (registered id w) !! address = Some false.
Proof. intros ->. apply registered_spec. Qed.

(** Running to settlement, construct by construct. *)
Lemma settle_bind {A B} (r : Run A) (f : A -> Async B) :
  settle (Run_bind r f)
  = match settle r with
    | (Normal a, w') => settle (f a w')
    | (Throw e, w') => (Throw e, w')
    end.
Proof. induction r as [[a | e] w | ms w k IH]; simpl; auto. Qed.

Lemma settle_reify {A} (r : Run A) :
  settle (Run_reify r) = (Normal (settle r).1, (settle r).2).
Proof.
  induction r as [c w | ms w k IH]; simpl; auto.
Qed.

Lemma settle_await {A B} (m : Async A) (f : A -> Async B) (w : World) :
  settle (await m f w)
  = match settle (m w) with
    | (Normal a, w') => settle (f a w')
    | (Throw e, w') => (Throw e, w')
    end.
Proof. apply settle_bind. Qed.

Lemma settle_lift {A} (m : Sync A) (w : World) : settle (lift m w) = m w.
Proof. unfold lift. destruct (m w) as [c w']. reflexivity. Qed.

Lemma settle_delay (ms : Q) (w : World) : settle (delay ms w) = (Normal tt, elapse ms w).
Proof. reflexivity. Qed.

Lemma settle_resolve {A} (a : A) (w : World) : settle (resolve a w) = (Normal a, w).
Proof. reflexivity. Qed.

Lemma settle_reject {A} (e : Thrown) (w : World) :
  settle (reject (A := A) e w) = (Throw e, w).
Proof. reflexivity. Qed.

Lemma validateForm_ready (w : World) (image : ImageFile) :
  readyToGenerate w image -> actions.validateForm w = (Normal true, w).
Proof.
  intros (Hform & _). unfold actions.validateForm in *.
  revert Hform. run. intros [= ->]. reflexivity.
Qed.

(** One attempt of the retry loop on a valid request: the endpoint is
    called, the loop waits for the processing delay. *)
Lemma attempt_step {B} (request : GenerationRequest) (signal : option nat)
    (f : Completion GenerationResponse -> Async B) (w : World) :
  validRequest request = true ->
  await (reify (generateImage request signal)) f w
  = Pending (inject_Z (processingTimeOf (random w (drawn w))))
            (with_drawn S (with_endpointCalls S w))
            (fun w' => Run_bind (Run_reify (afterProcessing request signal w')) f).
Proof.
  intros Hvalid. unfold generateImage. run.
  rewrite await_lift, validateGenerationRequest_valid by exact Hvalid. reflexivity.
Qed.

Lemma settle_generateImage (request : GenerationRequest) (signal : option nat)
    (w : World) :
  validRequest request = true ->
  settle (generateImage request signal w)
  = settle (afterProcessing request signal (arrival w)).
Proof.
  intros Hvalid. unfold generateImage.
  rewrite await_lift. cbn [modify].
  rewrite await_lift, validateGenerationRequest_valid by exact Hvalid.
  rewrite await_lift. reflexivity.
Qed.

Lemma generateImage_failure (request : GenerationRequest) (signal : option nat)
    (w : World) :
  validRequest request = true ->
  abortedIn signal w = false ->
  Qlt_bool (random w (S (drawn w))) ERROR_RATE = true ->
  settle (generateImage request signal w)
  = (Throw (ThrownApiError (mockErrorAt (arrival w))),
     with_drawn S (with_drawn S (arrival w))).
Proof.
  intros Hvalid Haborted Hfails.
  rewrite settle_generateImage by exact Hvalid.
  rewrite afterProcessing_failure; [reflexivity | exact Haborted | exact Hfails].
Qed.

Lemma generateImage_aborted (request : GenerationRequest) (signal : option nat)
    (w : World) :
  validRequest request = true ->
  abortedIn signal w = true ->
  settle (generateImage request signal w)
  = (Throw (ThrownError "Request aborted"), arrival w).
Proof.
  intros Hvalid Haborted.
  rewrite settle_generateImage by exact Hvalid.
  rewrite afterProcessing_aborted; [reflexivity | exact Haborted].
Qed.

(** One iteration of the retry loop, run to settlement. *)
Lemma settle_retryLoop (request : GenerationRequest) (config : RetryConfig)
    (signal : option nat) (callback : option (nat -> ApiError -> Sync unit))
    (remaining attempt : nat) (lastError : option ApiError) (w : World) :
  settle (retryLoop request config signal callback (S remaining) attempt lastError w)
  = match settle (generateImage request signal w) with
    | (Normal response, w1) => (Normal response, w1)
    | (Throw thrown, w1) =>
        if abortedIn signal w1 then (Throw (ThrownError "Request aborted"), w1)
        else
          match isApiError thrown with
          | Some apiError =>
              if negb (err_retryable apiError) then (Throw thrown, w1)
              else if (attempt =? maxAttempts config)%nat then (Throw thrown, w1)
              else
                match callRetry callback attempt apiError w1 with
                | (Normal _, w2) =>
                    settle (retryLoop request config signal callback remaining
                              (S attempt) (Some apiError) (backedOff config attempt w2))
                | (Throw e, w2) => (Throw e, w2)
                end
          | None => (Throw thrown, w1)
          end
    end.
Proof.
  cbn [retryLoop]. rewrite settle_await. unfold reify. rewrite settle_reify.
  destruct (settle (generateImage request signal w)) as [[response | thrown] w1];
    cbn [fst snd]; [reflexivity |].
  rewrite settle_await, settle_lift. cbn [signal_aborted].
  destruct (abortedIn signal w1); [reflexivity |].
  destruct (isApiError thrown) as [apiError |]; [| reflexivity].
  destruct (negb (err_retryable apiError)); [reflexivity |].
  destruct (attempt =? maxAttempts config)%nat; [reflexivity |].
  rewrite settle_await, settle_lift.
  destruct (callRetry callback attempt apiError w1) as [[[] | e] w2]; [| reflexivity].
  rewrite settle_await, settle_lift. cbn [Math_random].
  rewrite settle_await, settle_lift. cbn [console_log modify].
  rewrite settle_await, settle_delay. reflexivity.
Qed.

Lemma abortedIn_controllers (signal : option nat) (w w' : World) :
  controllers w' = controllers w -> abortedIn signal w' = abortedIn signal w.
Proof. intros Heq. unfold abortedIn. rewrite Heq. reflexivity. Qed.


Lemma same_tab_trans (w1 w2 w3 : World) :
  same_tab w1 w2 -> same_tab w2 w3 -> same_tab w1 w3.
Proof.
  unfold same_tab. intros (? & ? & ? & ? & ? & ? & ?) (? & ? & ? & ? & ? & ? & ?).
  repeat split; congruence.
Qed.

Lemma callRetry_store (attempt : nat) (apiError : ApiError) (w : World) :
  callRetry (onRetry actions.generationOptions) attempt apiError w
  = (Normal tt, noted attempt apiError w).
Proof. reflexivity. Qed.


Lemma callProgress_store (percent : Z) (w : World) :
  callProgress actions.generationOptions percent w = (Normal tt, withProgress percent w).
Proof. reflexivity. Qed.

(** The request function that [createGeneration] hands to the request
    manager under the options of the store, run to settlement. *)
Lemma settle_createGeneration (request : GenerationRequest) (id : string) (w : World) :
  req_requestId request = Some id ->
  JsString.truthy id = true ->
  settle (createGeneration request actions.generationOptions w)
  = match settle (generateImageWithRetry request RETRY_CONFIG
                    (Some (length (controllers w)))
                    (onRetry actions.generationOptions)
                    (progressed (registered id w))) with
    | (Normal response, w') =>
        (Normal response, with_activeRequests (delete id) (withProgress 100 w'))
    | (Throw thrown, w') => (Throw thrown, with_activeRequests (delete id) w')
    end.
Proof.
  intros Hid Htruthy. unfold createGeneration.
  rewrite Hid, Htruthy. rewrite settle_await, settle_lift. cbn [ret].
  rewrite makeRequest_eq, settle_bind, settle_reify.
  cbn [onProgress actions.generationOptions].
  rewrite settle_await.
  rewrite settle_await, settle_lift; cbn [setState modify].
  rewrite settle_await, settle_delay.
  rewrite settle_await, settle_lift; cbn [setState modify].
  rewrite settle_await, settle_delay.
  rewrite settle_await, settle_lift; cbn [setState modify].
  rewrite settle_await, settle_delay.
  rewrite settle_lift; cbn [setState modify].
  rewrite settle_await.
  change (mergeRetryConfig (retryConfig actions.generationOptions)) with RETRY_CONFIG.
  fold (withProgress 10 (registered id w)).
  fold (withProgress 30 (elapse 100 (withProgress 10 (registered id w)))).
  fold (withProgress 60
          (elapse 200 (withProgress 30 (elapse 100 (withProgress 10 (registered id w)))))).
  fold (withProgress 90
          (elapse 300 (withProgress 60
             (elapse 200 (withProgress 30
                (elapse 100 (withProgress 10 (registered id w)))))))).
  fold (progressed (registered id w)).
  destruct (settle (generateImageWithRetry request RETRY_CONFIG
                      (Some (length (controllers w)))
                      (onRetry actions.generationOptions)
                      (progressed (registered id w)))) as [[response | thrown] w'];
    cbn [fst snd].
  - rewrite settle_await, settle_lift, callProgress_store. cbn beta iota.
    rewrite settle_resolve. cbn [fst snd].
    rewrite settle_await, settle_lift. cbn [modify]. rewrite settle_resolve. reflexivity.
  - rewrite settle_await, settle_lift. cbn [modify]. rewrite settle_reject. reflexivity.
Qed.

Lemma settle_await_lift {A B} (m : Sync A) (f : A -> Async B) (w : World) :
  settle (await (lift m) f w)
  = match m w with
    | (Normal a, w') => settle (f a w')
    | (Throw e, w') => (Throw e, w')
    end.
Proof. rewrite settle_await, settle_lift. reflexivity. Qed.

(** [startGeneration] on a complete form, run to settlement. *)
Lemma settle_startGeneration (w : World) (image : ImageFile) :
  readyToGenerate w image ->
  settle (actions.startGeneration w)
  = match settle (createGeneration (requestOf w image) actions.generationOptions
                    (started w image)) with
    | (Normal response, w1) =>
        match recordSuccess response image (currentPrompt (preview (app w))) w1 with
        | (Normal _, w2) => (Normal tt, w2)
        | (Throw thrown, w2) => (Normal tt, failed thrown w2)
        end
    | (Throw thrown, w1) => (Normal tt, failed thrown w1)
    end.
Proof.
  intros Hready. pose proof Hready as (_ & Himage & _).
  unfold actions.startGeneration.
  rewrite settle_await, settle_lift. cbn [getState].
  rewrite settle_await, settle_lift, (validateForm_ready w image Hready).
  cbn [negb]. rewrite Himage.
  rewrite settle_await, settle_lift. cbn [randomId].
  rewrite settle_await, settle_lift. cbn [setState modify].
  rewrite settle_await. unfold reify at 1. rewrite settle_reify.
  rewrite settle_await.
  change (with_app _ (with_drawn S w)) with (started w image).
  change {| req_imageDataUrl := img_dataUrl image;
            req_prompt := JsString.trim (currentPrompt (preview (app w)));
            req_style := currentStyle (preview (app w));
            req_requestId := Some (randomText w (drawn w)) |}
    with (requestOf w image).
  destruct (settle (createGeneration (requestOf w image) actions.generationOptions
                      (started w image))) as [[response | thrown] w1]; cbn [fst snd].
  - assert (forall (c : Completion unit) (w2 : World),
               settle
                 (match c with
                  | Normal _ => resolve tt
                  | Throw thrown =>
                      (t <- now ;;
                       lift (setState (fun state =>
                         with_preview (with_isGenerating false)
                           (with_generation (fun g =>
                              {| status := error; progress := progress g;
                                 currentRequest := currentRequest g; result := result g;
                                 gen_error := Some (actions.apiErrorOf thrown t);
                                 retryCount := retryCount g;
                                 canRetry :=
                                   err_retryable (actions.apiErrorOf thrown t)
                                   && bool_decide
                                        (retryCount g < maxAttempts RETRY_CONFIG)%nat |})
                              state))))%async
                  end w2)
               = match c with
                 | Normal _ => (Normal tt, w2)
                 | Throw thrown => (Normal tt, failed thrown w2)
                 end) as Hhandler.
    { intros [[] | thrown] w2; [reflexivity |].
      rewrite settle_await_lift. cbn [now]. rewrite settle_lift. reflexivity. }
    unfold recordSuccess, bind.
    rewrite settle_await_lift. cbn [setState modify].
    rewrite settle_await_lift.
    destruct (saveHistoryItem _ _) as [[[] | thrown] w2];
      [| cbn [fst snd]; exact (Hhandler (Throw thrown) w2)].
    rewrite settle_await_lift.
    destruct (actions.loadHistory w2) as [[[] | thrown] w3];
      [| cbn [fst snd]; exact (Hhandler (Throw thrown) w3)].
    rewrite settle_await_lift.
    destruct (addRecentPrompt _ w3) as [[[] | thrown] w4];
      [| cbn [fst snd]; exact (Hhandler (Throw thrown) w4)].
    rewrite settle_await_lift.
    destruct (incrementGenerationCount w4) as [[[] | thrown] w5];
      [| cbn [fst snd]; exact (Hhandler (Throw thrown) w5)].
    rewrite settle_lift.
    destruct (updateSessionActivity w5) as [[[] | thrown] w6]; cbn [fst snd].
    + exact (Hhandler (Normal tt) w6).
    + exact (Hhandler (Throw thrown) w6).
  - rewrite settle_await, settle_lift. cbn [now]. rewrite settle_lift. reflexivity.
Qed.

Lemma progressed_registered (id : string) (w : World) :
  random (progressed (registered id w)) = random w
  /\ endpointCalls (progressed (registered id w)) = endpointCalls w
  /\ abortedIn (Some (length (controllers w))) (progressed (registered id w)) = false
  /\ entries (progressed (registered id w)) = entries w
  /\ dispatched (progressed (registered id w)) = dispatched w
  /\ retryCount (generation (app (progressed (registered id w))))
     = retryCount (generation (app w)).
Proof.
  split; [exact (registered_random id w) |].
  split; [exact (registered_endpointCalls id w) |].
  split.
  { unfold abortedIn.
    change (controllers (progressed (registered id w)))
      with (controllers (registered id w)).
    rewrite registered_fresh by reflexivity. reflexivity. }
  split; [exact (registered_entries id w) |].
  split; [exact (registered_dispatched id w) |].
  change (retryCount (generation (app (progressed (registered id w)))))
    with (retryCount (generation (app (registered id w)))).
  rewrite registered_app. reflexivity.
Qed.


(* ------------------------------------------------------------------- *)
(** *** What holds whenever a submission settles                        *)
(* ------------------------------------------------------------------- *)

Lemma at_settlement_lift {A} (P : Completion A -> World -> Prop) (m : Sync A) (w : World) :
  P (m w).1 (m w).2 -> at_settlement P (lift m w).
Proof. unfold lift. destruct (m w) as [c w']. exact id. Qed.

Lemma at_settlement_await_lift {A B} (P : Completion B -> World -> Prop)
    (m : Sync A) (f : A -> Async B) (w : World) :
  match m w with
  | (Normal a, w') => at_settlement P (f a w')
  | (Throw e, w') => P (Throw e) w'
  end ->
  at_settlement P (await (lift m) f w).
Proof. rewrite await_lift. destruct (m w) as [[a | e] w']; exact id. Qed.

Lemma keeps_generation_ret {A} (a : A) : keeps_generation (ret a).
Proof. intros w. reflexivity. Qed.

Lemma keeps_generation_now : keeps_generation now.
Proof. intros w. reflexivity. Qed.

Lemma keeps_generation_bind {A B} (m : Sync A) (f : A -> Sync B) :
  keeps_generation m -> (forall a, keeps_generation (f a)) -> keeps_generation (bind m f).
Proof.
  intros Hm Hf w. unfold bind. specialize (Hm w).
  destruct (m w) as [[a | e] w1]; cbn [snd] in *; [| exact Hm].
  rewrite Hf. exact Hm.
Qed.

Lemma app_afterProbe (w : World) : app (afterProbe w) = app w.
Proof. unfold afterProbe. repeat case_match; reflexivity. Qed.

Lemma keeps_generation_safeStorageOperation {T} (operation : Sync T) (fallback : T)
    (operationName : string) :
  keeps_generation operation ->
  keeps_generation (safeStorageOperation operation fallback operationName).
Proof.
  intros Hop w. rewrite safeStorageOperation_eq.
  destruct (probeOk w).
  - specialize (Hop (afterProbe w)). rewrite app_afterProbe in Hop.
    destruct (operation (afterProbe w)) as [[v | e] w']; exact Hop.
  - cbn. rewrite app_afterProbe. reflexivity.
Qed.

Lemma keeps_generation_setItem {T} `{Json T} (key : string) (value : T) :
  keeps_generation (setItem key value).
Proof.
  apply keeps_generation_safeStorageOperation. intros w.
  unfold localStorage.setItem.
  destruct (throws w (OpSetItem key)); reflexivity.
Qed.

Lemma keeps_generation_getItem {T} `{Json T} (key : string) (fallback : T) :
  keeps_generation (getItem key fallback).
Proof.
  apply keeps_generation_safeStorageOperation. intros w.
  unfold bind, localStorage.getItem.
  destruct (throws w (OpGetItem key)); [reflexivity |].
  cbn. destruct (entries w !! key) as [text |]; [| reflexivity].
  unfold JSON_parse. destruct (parse text); reflexivity.
Qed.

Lemma keeps_generation_dispatchEvent (e : CustomEvent) : keeps_generation (dispatchEvent e).
Proof. intros w. reflexivity. Qed.

Lemma keeps_generation_console_log (text : string) : keeps_generation (console_log text).
Proof. intros w. reflexivity. Qed.

Lemma keeps_generation_crypto_randomUUID : keeps_generation crypto_randomUUID.
Proof. intros w. reflexivity. Qed.

Create HintDb keeps discriminated.
Hint Resolve keeps_generation_ret keeps_generation_now keeps_generation_setItem
  keeps_generation_getItem keeps_generation_dispatchEvent keeps_generation_console_log
  keeps_generation_crypto_randomUUID : keeps.

Ltac keeps :=
  repeat first
    [ solve [auto with keeps]
    | apply keeps_generation_bind; [| intros ?]
    | match goal with
      | |- keeps_generation (if ?b then _ else _) => destruct b
      | |- keeps_generation (match ?o with Some _ => _ | None => _ end) => destruct o
      end ].

Lemma keeps_generation_getHistoryItems : keeps_generation getHistoryItems.
Proof. unfold getHistoryItems, migrateHistoryV1. keeps. Qed.

Hint Resolve keeps_generation_getHistoryItems : keeps.

Lemma keeps_generation_saveHistoryItem (item : HistoryItem) :
  keeps_generation (saveHistoryItem item).
Proof. unfold saveHistoryItem. keeps. Qed.

Lemma keeps_generation_loadHistory : keeps_generation actions.loadHistory.
Proof.
  unfold actions.loadHistory. keeps.
Qed.

Lemma keeps_generation_getPreferences : keeps_generation getPreferences.
Proof. unfold getPreferences. keeps. Qed.

Hint Resolve keeps_generation_getPreferences : keeps.

Lemma keeps_generation_addRecentPrompt (prompt : string) :
  keeps_generation (addRecentPrompt prompt).
Proof. unfold addRecentPrompt, savePreferences. keeps. Qed.

Lemma keeps_generation_getSessionData : keeps_generation getSessionData.
Proof. unfold getSessionData, initializeSession. keeps. Qed.

Hint Resolve keeps_generation_getSessionData : keeps.

Lemma keeps_generation_incrementGenerationCount :
  keeps_generation incrementGenerationCount.
Proof. unfold incrementGenerationCount. keeps. Qed.

Lemma keeps_generation_updateSessionActivity : keeps_generation updateSessionActivity.
Proof. unfold updateSessionActivity. keeps. Qed.

(** After a successful [createGeneration] the store shows [success]
    unless one of the statements that follow throws. *)
Lemma recordSuccess_status (response : GenerationResponse) (image : ImageFile)
    (prompt : string) (w : World) :
  status (generation (app (recordSuccess response image prompt w).2)) = success.
Proof.
  unfold recordSuccess. unfold bind at 1. cbn [setState modify].
  match goal with
  | |- context [bind ?m ?f ?w1] =>
      assert (keeps_generation (bind m f)) as Hkeeps
  end.
  { apply keeps_generation_bind; [apply keeps_generation_saveHistoryItem | intros ?].
    apply keeps_generation_bind; [apply keeps_generation_loadHistory | intros ?].
    apply keeps_generation_bind; [apply keeps_generation_addRecentPrompt | intros ?].
    apply keeps_generation_bind;
      [apply keeps_generation_incrementGenerationCount | intros ?].
    apply keeps_generation_updateSessionActivity. }
  rewrite Hkeeps. reflexivity.
Qed.

(** A submission started on a complete form first suspends at the wait
    that follows the 10% progress milestone; the endpoint has not been
    called yet. *)
Lemma startGeneration_first_wait (w : World) (image : ImageFile) :
  readyToGenerate w image ->
  JsString.truthy (randomText w (drawn w)) = true ->
  exists k,
    actions.startGeneration w
    = Pending 100 (withProgress 10 (registered (randomText w (drawn w)) (started w image))) k.
Proof.
  intros Hready Hid. pose proof Hready as (_ & Himage & _).
  unfold actions.startGeneration.
  rewrite await_lift. cbn [getState].
  rewrite await_lift, (validateForm_ready w image Hready). cbn [negb]. rewrite Himage.
  rewrite await_lift. cbn [randomId].
  rewrite await_lift. cbn [setState modify].
  unfold createGeneration. cbn [req_requestId]. rewrite Hid.
  unfold await at 1, reify at 1, await at 1.
  rewrite await_lift. cbn [ret].
  rewrite makeRequest_eq. cbn [onProgress actions.generationOptions].
  unfold await at 1. rewrite await_lift. cbn [setState modify].
  cbn [await delay Run_bind Run_reify].
  eexists. reflexivity.
Qed.

End Lifecycle.





Section Cancellation.

(** What the [catch] of [startGeneration] does with a completion. *)
Lemma handler_ends (c : Completion unit) (w : World) :
  (c = Normal tt -> status (generation (app w)) = success) ->
  at_settlement (fun c' w' => c' = Normal tt /\ ended w')
    (match c with
     | Normal _ => resolve tt
     | Throw thrown =>
         (t <- now ;;
          lift (setState (fun state =>
            with_preview (with_isGenerating false)
              (with_generation (fun g =>
                 {| status := error; progress := progress g;
                    currentRequest := currentRequest g; result := result g;
                    gen_error := Some (actions.apiErrorOf thrown t);
                    retryCount := retryCount g;
                    canRetry :=
                      err_retryable (actions.apiErrorOf thrown t)
                      && bool_decide (retryCount g < maxAttempts RETRY_CONFIG)%nat |})
                 state))))%async
     end w).
Proof.
  intros Hsuccess. destruct c as [[] | thrown].
  - cbn. split; [reflexivity |]. left. apply Hsuccess. reflexivity.
  - rewrite await_lift. cbn [now]. cbn. split; [reflexivity |]. right. reflexivity.
Qed.

(** Whenever a submission started on a complete form settles, whatever
    happened while it was suspended (a cancellation, for one), the store
    shows [success] or [error]. *)
Lemma startGeneration_ends (w : World) (image : ImageFile) :
  (actions.validateForm w).1 = Normal true ->
  currentImage (preview (app w)) = Some image ->
  at_settlement (fun c w' => c = Normal tt /\ ended w') (actions.startGeneration w).
Proof.
  intros Hform Himage.
  assert (actions.validateForm w = (Normal true, w)) as Hvalidate.
  { unfold actions.validateForm in *. revert Hform. run. intros [= ->]. reflexivity. }
  unfold actions.startGeneration.
  rewrite await_lift. cbn [getState].
  rewrite await_lift, Hvalidate. cbn [negb]. rewrite Himage.
  rewrite await_lift. cbn [randomId].
  rewrite await_lift. cbn [setState modify].
  unfold await at 1, reify at 1.
  apply at_settlement_bind, at_settlement_reify.
  unfold await at 1.
  apply at_settlement_bind, at_settlement_any.
  intros [response | thrown] w1;
    [| refine (handler_ends (Throw thrown) w1 _); discriminate].
  pose proof (recordSuccess_status response image (currentPrompt (preview (app w))) w1)
    as Hstatus.
  unfold recordSuccess, bind in Hstatus. cbn [setState modify] in Hstatus.
  apply at_settlement_await_lift. cbn [setState modify].
  apply at_settlement_await_lift.
  destruct (saveHistoryItem _ _) as [[[] | thrown] w2];
    [| refine (handler_ends (Throw thrown) w2 _); discriminate].
  apply at_settlement_await_lift.
  destruct (actions.loadHistory w2) as [[[] | thrown] w3];
    [| refine (handler_ends (Throw thrown) w3 _); discriminate].
  apply at_settlement_await_lift.
  destruct (addRecentPrompt _ w3) as [[[] | thrown] w4];
    [| refine (handler_ends (Throw thrown) w4 _); discriminate].
  apply at_settlement_await_lift.
  destruct (incrementGenerationCount w4) as [[[] | thrown] w5];
    [| refine (handler_ends (Throw thrown) w5 _); discriminate].
  apply at_settlement_lift.
  destruct (updateSessionActivity w5) as [[[] | thrown] w6]; cbn [fst snd] in *.
  - refine (handler_ends (Normal tt) w6 _). intros _. exact Hstatus.
  - refine (handler_ends (Throw thrown) w6 _). discriminate.
Qed.

(* --------------------------------------------------------------------- *)
(** *** Resuming after a user action                                      *)
(* --------------------------------------------------------------------- *)

(** The action falls within the first computation of a sequence, or the
    first computation has returned by then. *)
Lemma resume_bind_inv {A B} (action : Sync unit) (r : Run A) (f : A -> Async B) :
  forall (n : nat) (r' : Run B),
    resume n action (Run_bind r f) = Some r' ->
    (exists r0, resume n action r = Some r0 /\ r' = Run_bind r0 f)
    \/ (exists a w1 m, settle r = (Normal a, w1) /\ resume m action (f a w1) = Some r').
Proof.
  induction r as [[a | e] w | ms w k IH]; intros n r' Hresume.
  - right. exists a, w, n. split; [reflexivity | exact Hresume].
  - destruct n; discriminate Hresume.
  - destruct n as [| n]; cbn [Run_bind resume] in Hresume.
    + injection Hresume as <-. left. eexists. split; reflexivity.
    + destruct (IH _ _ _ Hresume) as [(r0 & Hr0 & ->) | (a & w1 & m & Hsettle & Hrest)].
      * left. exists r0. split; [exact Hr0 | reflexivity].
      * right. exists a, w1, m. split; [exact Hsettle | exact Hrest].
Qed.

Lemma resume_reify_inv {A} (action : Sync unit) (r : Run A) :
  forall (n : nat) (r' : Run (Completion A)),
    resume n action (Run_reify r) = Some r' ->
    exists r0, resume n action r = Some r0 /\ r' = Run_reify r0.
Proof.
  induction r as [c w | ms w k IH]; intros n r' Hresume.
  - destruct n; discriminate Hresume.
  - destruct n as [| n]; cbn [Run_reify resume] in Hresume.
    + injection Hresume as <-. eexists. split; reflexivity.
    + exact (IH _ _ _ Hresume).
Qed.

Lemma resume_lift {A} (action : Sync unit) (m : Sync A) (w : World) (n : nat) :
  resume n action (lift m w) = None.
Proof. unfold lift. destruct (m w) as [c w']. destruct n; reflexivity. Qed.

Lemma resume_await_lift {A B} (action : Sync unit) (m : Sync A) (f : A -> Async B)
    (w : World) (n : nat) :
  resume n action (await (lift m) f w)
  = match m w with
    | (Normal a, w') => resume n action (f a w')
    | (Throw e, w') => None
    end.
Proof.
  rewrite await_lift. destruct (m w) as [[a | e] w']; [reflexivity |].
  destruct n; reflexivity.
Qed.

(** The world right after the action is one the action left. *)
Lemma interruptedIn_action {A} (action : Sync unit) (r : Run A) :
  forall (n : nat) (wa : World),
    interruptedIn n action r = Some wa -> exists w, wa = snd (action w).
Proof.
  induction r as [c w | ms w k IH]; intros n wa Hint;
    [destruct n; discriminate Hint |].
  destruct n as [| n]; cbn [interruptedIn] in Hint.
  - injection Hint as <-. eexists. reflexivity.
  - exact (IH _ _ _ Hint).
Qed.

(* --------------------------------------------------------------------- *)
(** *** What a cancellation does                                          *)
(* --------------------------------------------------------------------- *)

(** [abortGeneration] always leaves the status [aborted]. *)
Lemma abortGeneration_status (w : World) :
  status (generation (app (snd (actions.abortGeneration w)))) = aborted.
Proof.
  unfold actions.abortGeneration, bind. cbn [getState].
  destruct (match currentRequest (generation (app w)) ≫= req_requestId with
            | Some requestId =>
                if JsString.truthy requestId then cancelGeneration requestId else ret tt
            | None => ret tt
            end w) as [[[] | e] w1] eqn:Hcancel.
  - reflexivity.
  - exfalso. destruct (currentRequest (generation (app w)) ≫= req_requestId) as [id |];
      [| discriminate].
    destruct (JsString.truthy id); [| discriminate].
    unfold cancelGeneration in Hcancel. rewrite cancelRequest_eq in Hcancel. discriminate.
Qed.

Lemma abortGeneration_cancellable (id : string) (address : nat) (w : World) :
  cancellable id address w ->
  actions.abortGeneration w = (Normal tt, cancelled id address w).
Proof.
  intros (Hrequest & Htruthy & Hactive & _).
  unfold actions.abortGeneration, bind. cbn [getState].
  rewrite Hrequest, Htruthy. unfold cancelGeneration.
  rewrite cancelRequest_eq, Hactive. reflexivity.
Qed.

Lemma cancelled_aborted (id : string) (address : nat) (w : World) :
  (address < length (controllers w))%nat ->
  abortedIn (Some address) (cancelled id address w) = true.
Proof.
  intros Hlt. unfold abortedIn, cancelled.
  cbn [controllers with_app with_activeRequests with_controllers].
  rewrite list_lookup_insert_eq by exact Hlt. reflexivity.
Qed.

(** From a world in which the signal is aborted, the retry loop makes one
    more endpoint call and rejects with the cancellation. *)
Lemma retryLoop_aborted (request : GenerationRequest) (config : RetryConfig)
    (signal : option nat) (callback : option (nat -> ApiError -> Sync unit))
    (remaining attempt : nat) (lastError : option ApiError) (w : World) :
  validRequest request = true ->
  abortedIn signal w = true ->
  settle (retryLoop request config signal callback (S remaining) attempt lastError w)
  = (Throw (ThrownError "Request aborted"), arrival w).
Proof.
  intros Hvalid Haborted.
  rewrite settle_retryLoop, generateImage_aborted by assumption.
  rewrite (abortedIn_controllers signal w) by reflexivity.
  rewrite Haborted. reflexivity.
Qed.

Lemma resume_resolve {A} (action : Sync unit) (a : A) (w : World) (n : nat) :
  resume n action (resolve a w) = None.
Proof. apply resume_lift. Qed.

Lemma resume_reject {A} (action : Sync unit) (e : Thrown) (w : World) (n : nat) :
  resume n action (reject (A := A) e w) = None.
Proof. apply resume_lift. Qed.

Lemma resume_await_delay {B} (action : Sync unit) (ms : Q) (f : unit -> Async B)
    (w : World) (n : nat) :
  resume n action (await (delay ms) f w)
  = match n with
    | O => Some (f tt (elapse ms (snd (action w))))
    | S n' => resume n' action (f tt (elapse ms w))
    end.
Proof. destruct n; reflexivity. Qed.

Lemma cancelled_cutShort (id : string) (address : nat) (w0 w : World) :
  underWay id address w0 w -> cutShort w0 (cancelled id address w).
Proof.
  intros (_ & Hentries & Hdispatched & Hcount).
  repeat split; assumption.
Qed.

(** A cancellation that falls within the retry loop: the loop rejects with
    the cancellation, whatever the attempt it was waiting in or after. *)
Lemma retryLoop_cancelled (request : GenerationRequest) (id : string) (address : nat)
    (w0 : World) :
  validRequest request = true ->
  forall (remaining attempt : nat) (lastError : option ApiError) (w : World)
         (n : nat) (r : Run GenerationResponse),
    (attempt + remaining = S (maxAttempts RETRY_CONFIG))%nat ->
    underWay id address w0 w ->
    resume n actions.abortGeneration
      (retryLoop request RETRY_CONFIG (Some address) (onRetry actions.generationOptions)
         remaining attempt lastError w) = Some r ->
    exists w', settle r = (Throw (ThrownError "Request aborted"), w') /\ cutShort w0 w'.
Proof.
  intros Hvalid.
  induction remaining as [| remaining IH];
    intros attempt lastError w n r Hsum Hway Hresume.
  - cbn [retryLoop] in Hresume. rewrite resume_reject in Hresume. discriminate.
  - cbn [retryLoop] in Hresume.
    rewrite attempt_step in Hresume by exact Hvalid.
    destruct n as [| n]; cbn [resume] in Hresume.
    + injection Hresume as <-.
      rewrite (abortGeneration_cancellable id address) by apply Hway.
      cbn [snd].
      rewrite settle_bind, settle_reify, afterProcessing_aborted
        by (apply cancelled_aborted, Hway).
      cbn [settle fst snd].
      rewrite settle_await_lift. cbn [signal_aborted].
      rewrite (abortedIn_controllers _ (cancelled id address w)) by reflexivity.
      rewrite cancelled_aborted by apply Hway.
      rewrite settle_reject.
      eexists. split; [reflexivity |].
      apply (cancelled_cutShort id address w0 w Hway).
    + set (w1 := elapse _ _) in Hresume.
      destruct (abortedIn (Some address) w1) eqn:Haborted.
      { rewrite afterProcessing_aborted in Hresume by exact Haborted.
        cbn [Run_reify Run_bind] in Hresume.
        rewrite resume_await_lift in Hresume. cbn [signal_aborted] in Hresume.
        rewrite Haborted, resume_reject in Hresume. discriminate. }
      destruct (failsAt w1) eqn:Hfails.
      2: { rewrite afterProcessing_success in Hresume by assumption.
           cbn [Run_reify Run_bind] in Hresume.
           rewrite resume_resolve in Hresume. discriminate. }
      rewrite afterProcessing_failure in Hresume by assumption.
      cbn [Run_reify Run_bind] in Hresume.
      rewrite resume_await_lift in Hresume. cbn [signal_aborted] in Hresume.
      rewrite (abortedIn_controllers _ w1), Haborted in Hresume by reflexivity.
      cbn [isApiError mockErrorAt err_retryable negb] in Hresume.
      destruct (Nat.eqb_spec attempt (maxAttempts RETRY_CONFIG)) as [Hlast | Hmore];
        [rewrite resume_reject in Hresume; discriminate |].
      rewrite resume_await_lift, callRetry_store in Hresume.
      rewrite resume_await_lift in Hresume. cbn [Math_random] in Hresume.
      rewrite resume_await_lift in Hresume. cbn [console_log modify] in Hresume.
      rewrite resume_await_delay in Hresume.
      assert (underWay id address w0
                (noted attempt (mockErrorAt w1) (with_drawn S (with_drawn S w1))))
        as Hnoted.
      { destruct Hway as ((Hrequest & Htruthy & Hactive & Hlength) & Hentries
                          & Hdispatched & _).
        repeat split; try assumption.
        cbn in Hsum, Hmore |- *. lia. }
      destruct n as [| n].
      * injection Hresume as <-.
        rewrite (abortGeneration_cancellable id address) by apply Hnoted.
        cbn [snd].
        destruct remaining as [| remaining]; [cbn in Hsum, Hmore; lia |].
        rewrite retryLoop_aborted; [| exact Hvalid | apply cancelled_aborted, Hnoted].
        eexists. split; [reflexivity |].
        apply (cancelled_cutShort id address w0 _ Hnoted).
      * refine (IH _ _ _ _ _ _ _ Hresume); [lia |].
        destruct Hnoted as ((Hrequest & Htruthy & Hactive & Hlength) & Hentries
                            & Hdispatched & Hcount).
        repeat split; assumption.
Qed.

Lemma registered_underWay (id : string) (w0 w : World) :
  currentRequest (generation (app w)) ≫= req_requestId = Some id ->
  JsString.truthy id = true ->
  entries w = entries w0 ->
  dispatched w = dispatched w0 ->
  (retryCount (generation (app w)) < maxAttempts RETRY_CONFIG)%nat ->
  underWay id (length (controllers w)) w0 (registered id w).
Proof.
  intros Hrequest Htruthy Hentries Hdispatched Hcount.
  unfold underWay, cancellable.
  rewrite registered_app, registered_entries, registered_dispatched.
  pose proof (registered_spec id w) as (Hactive & Hfresh & _).
  apply lookup_lt_Some in Hfresh.
  repeat split; assumption.
Qed.

(** The retry stage of [createGeneration] entered after a cancellation. *)
Lemma retryStage_aborted (request : GenerationRequest) (address : nat) (w0 w : World) :
  validRequest request = true ->
  cutShort w0 w ->
  abortedIn (Some address) w = true ->
  exists w',
    settle ((result <~ generateImageWithRetry request
                         (mergeRetryConfig (retryConfig actions.generationOptions))
                         (Some address) (onRetry actions.generationOptions) ;;
             callProgress actions.generationOptions 100%Z ;;
             resolve result)%async w)
    = (Throw (ThrownError "Request aborted"), w') /\ cutShort w0 w'.
Proof.
  intros Hvalid Hcut Haborted.
  rewrite settle_await. unfold generateImageWithRetry.
  change (mergeRetryConfig (retryConfig actions.generationOptions)) with RETRY_CONFIG.
  cbn [maxAttempts RETRY_CONFIG].
  rewrite retryLoop_aborted by assumption.
  eexists. split; [reflexivity |].
  destruct Hcut as (Hstatus & Hentries & Hdispatched & Hcount).
  repeat split; assumption.
Qed.

(** The request manager forgets a request that rejected and passes the
    rejection on. *)
Lemma makeRequest_cleanup {T} (id : string) (r : Run T) (e : Thrown) (w0 w : World) :
  settle r = (Throw e, w) ->
  cutShort w0 w ->
  exists w',
    settle (Run_bind (Run_reify r)
              (fun outcome =>
                 match outcome with
                 | Normal result =>
                     (modify (with_activeRequests (delete id)) ;; resolve result)%async
                 | Throw thrown =>
                     (modify (with_activeRequests (delete id)) ;; reject thrown)%async
                 end))
    = (Throw e, w') /\ cutShort w0 w'.
Proof.
  intros Hsettle Hcut.
  rewrite settle_bind, settle_reify, Hsettle. cbn [fst snd].
  rewrite settle_await_lift. cbn [modify]. rewrite settle_reject.
  eexists. split; [reflexivity |].
  destruct Hcut as (Hstatus & Hentries & Hdispatched & Hcount).
  repeat split; assumption.
Qed.

Lemma createGeneration_cancelled (request : GenerationRequest) (id : string)
    (w0 w : World) (n : nat) (r : Run GenerationResponse) :
  validRequest request = true ->
  req_requestId request = Some id ->
  JsString.truthy id = true ->
  currentRequest (generation (app w)) ≫= req_requestId = Some id ->
  entries w = entries w0 ->
  dispatched w = dispatched w0 ->
  (retryCount (generation (app w)) < maxAttempts RETRY_CONFIG)%nat ->
  resume n actions.abortGeneration (createGeneration request actions.generationOptions w)
  = Some r ->
  exists w', settle r = (Throw (ThrownError "Request aborted"), w') /\ cutShort w0 w'.
Proof.
  intros Hvalid Hid Htruthy Hrequest Hentries Hdispatched Hcount Hresume.
  pose proof (registered_underWay id w0 w Hrequest Htruthy Hentries Hdispatched Hcount)
    as Hway.
  unfold createGeneration in Hresume.
  rewrite Hid, Htruthy, resume_await_lift in Hresume. cbn [ret] in Hresume.
  rewrite makeRequest_eq in Hresume.
  apply resume_bind_inv in Hresume
    as [(r0 & Hr0 & ->) | (c & w1 & m & _ & Hrest)].
  2: { destruct c as [response | thrown];
         rewrite resume_await_lift in Hrest; cbn [modify] in Hrest;
         [rewrite resume_resolve in Hrest | rewrite resume_reject in Hrest];
         discriminate. }
  apply resume_reify_inv in Hr0 as (r1 & Hr1 & ->).
  cbn [onProgress actions.generationOptions] in Hr1.
  destruct Hway as (Hcancellable & Hentries1 & Hdispatched1 & Hcount1).
  pose proof Hcancellable as (Hrequest1 & _ & Hactive1 & Hlength1).
  apply resume_bind_inv in Hr1
    as [(r2 & Hr2 & ->) | (c & w1 & m & Hsettle & Hrest)].
  - (* cancelled during one of the three progress waits *)
    assert (forall (r2 : Run unit) (w1 : World),
              settle r2 = (Normal tt, w1) ->
              cutShort w0 w1 ->
              abortedIn (Some (length (controllers w))) w1 = true ->
              exists w',
                settle
                  (Run_bind r2 (fun _ =>
                     (result <~ generateImageWithRetry request
                                  (mergeRetryConfig (retryConfig actions.generationOptions))
                                  (Some (length (controllers w)))
                                  (onRetry actions.generationOptions) ;;
                      callProgress actions.generationOptions 100%Z ;;
                      resolve result)%async))
                = (Throw (ThrownError "Request aborted"), w') /\ cutShort w0 w')
      as Hrest.
    { intros r w1 Hsettle Hcut Haborted. rewrite settle_bind, Hsettle.
      apply retryStage_aborted; assumption. }
    rewrite resume_await_lift in Hr2. cbn [setState modify] in Hr2.
    rewrite resume_await_delay in Hr2.
    destruct n as [| n]; [injection Hr2 as <- |].
    2: rewrite resume_await_lift in Hr2; cbn [setState modify] in Hr2;
       rewrite resume_await_delay in Hr2;
       destruct n as [| n]; [injection Hr2 as <- |].
    3: rewrite resume_await_lift in Hr2; cbn [setState modify] in Hr2;
       rewrite resume_await_delay in Hr2;
       destruct n as [| n]; [injection Hr2 as <- |].
    4: rewrite resume_lift in Hr2; discriminate.
    all: rewrite (abortGeneration_cancellable id (length (controllers w)))
           by (repeat split; assumption);
         cbn [snd];
         edestruct Hrest as (w' & Hsettle & Hcut);
           [| | | exact (makeRequest_cleanup id _ _ w0 w' Hsettle Hcut)];
           [ repeat first [ rewrite settle_await_lift; cbn [setState modify]
                          | rewrite settle_await, settle_delay; cbn [fst snd]
                          | rewrite settle_lift; cbn [setState modify] ];
             reflexivity
           | repeat split; first [assumption | reflexivity]
           | rewrite (abortedIn_controllers _
                        (cancelled id (length (controllers w)) (registered id w)))
               by reflexivity;
             apply cancelled_aborted; exact Hlength1 ].
  - (* cancelled in the retry loop *)
    assert (w1 = progressed (registered id w)) as ->.
    { revert Hsettle.
      repeat first [ rewrite settle_await_lift; cbn [setState modify]
                   | rewrite settle_await, settle_delay; cbn [fst snd]
                   | rewrite settle_lift; cbn [setState modify] ].
      intros [= _ <-]. reflexivity. }
    destruct c.
    apply resume_bind_inv in Hrest
      as [(r2 & Hr2 & ->) | (response & w1 & m' & _ & Hrest)].
    2: { rewrite resume_await_lift, callProgress_store, resume_resolve in Hrest.
         discriminate. }
    unfold generateImageWithRetry in Hr2.
    change (mergeRetryConfig (retryConfig actions.generationOptions))
      with RETRY_CONFIG in Hr2.
    apply (retryLoop_cancelled request id (length (controllers w)) w0 Hvalid) in Hr2
      as (w' & Hloop & Hcut); [| reflexivity |].
    + apply (makeRequest_cleanup id _ _ w0 w'); [| exact Hcut].
      rewrite settle_bind, Hloop. reflexivity.
    + repeat split; assumption.
Qed.

(** A submission cancelled while it waits settles in the [catch] of
    [startGeneration], with the cancellation recorded as an error. *)
Lemma startGeneration_cancelled (w : World) (image : ImageFile) (n : nat) (r : Run unit) :
  readyToGenerate w image ->
  ids_nonempty w ->
  resume n actions.abortGeneration (actions.startGeneration w) = Some r ->
  exists w',
    settle r = (Normal tt, failed (ThrownError "Request aborted") w') /\ cutShort w w'.
Proof.
  intros Hready Hids Hresume. pose proof Hready as (_ & Himage & Hvalid).
  unfold actions.startGeneration in Hresume.
  rewrite resume_await_lift in Hresume. cbn [getState] in Hresume.
  rewrite resume_await_lift, (validateForm_ready w image Hready) in Hresume.
  cbn [negb] in Hresume. rewrite Himage in Hresume.
  rewrite resume_await_lift in Hresume. cbn [randomId] in Hresume.
  rewrite resume_await_lift in Hresume. cbn [setState modify] in Hresume.
  change (with_app _ (with_drawn S w)) with (started w image) in Hresume.
  change {| req_imageDataUrl := img_dataUrl image;
            req_prompt := JsString.trim (currentPrompt (preview (app w)));
            req_style := currentStyle (preview (app w));
            req_requestId := Some (randomText w (drawn w)) |}
    with (requestOf w image) in Hresume.
  apply resume_bind_inv in Hresume
    as [(r0 & Hr0 & ->) | (c & w1 & m & _ & Hrest)].
  2: { destruct c as [[] | thrown];
         [rewrite resume_resolve in Hrest; discriminate |].
       rewrite resume_await_lift in Hrest. cbn [now] in Hrest.
       rewrite resume_lift in Hrest. discriminate. }
  apply resume_reify_inv in Hr0 as (r1 & Hr1 & ->).
  apply resume_bind_inv in Hr1
    as [(r2 & Hr2 & ->) | (response & w1 & m & _ & Hrest)].
  2: { rewrite resume_await_lift in Hrest. cbn [setState modify] in Hrest.
       rewrite resume_await_lift in Hrest.
       destruct (saveHistoryItem _ _) as [[[] | thrown] w2]; [| discriminate].
       rewrite resume_await_lift in Hrest.
       destruct (actions.loadHistory w2) as [[[] | thrown] w3]; [| discriminate].
       rewrite resume_await_lift in Hrest.
       destruct (addRecentPrompt _ w3) as [[[] | thrown] w4]; [| discriminate].
       rewrite resume_await_lift in Hrest.
       destruct (incrementGenerationCount w4) as [[[] | thrown] w5]; [| discriminate].
       rewrite resume_lift in Hrest. discriminate. }
  apply (createGeneration_cancelled (requestOf w image) (randomText w (drawn w)) w)
    in Hr2 as (w' & Hsettle & Hcut).
  - exists w'. split; [| exact Hcut].
    rewrite settle_bind, settle_reify, settle_bind, Hsettle. cbn [fst snd].
    rewrite settle_await_lift. cbn [now]. rewrite settle_lift. reflexivity.
  - exact Hvalid.
  - reflexivity.
  - apply Hids.
  - reflexivity.
  - reflexivity.
  - reflexivity.
  - cbn. lia.
Qed.

(** A run that can be interrupted at its [n]-th suspension can be resumed
    from there, and conversely. *)
Lemma interruptedIn_resume {A} (action : Sync unit) (r : Run A) :
  forall (n : nat) (wa : World),
    interruptedIn n action r = Some wa -> exists r', resume n action r = Some r'.
Proof.
  induction r as [c w | ms w k IH]; intros n wa Hint;
    [destruct n; discriminate Hint |].
  destruct n as [| n]; cbn [interruptedIn resume] in *.
  - eexists. reflexivity.
  - exact (IH _ _ _ Hint).
Qed.


End Cancellation.

(** C5, as stated, fails, and the code is at fault. For every tab with a
    complete, valid form:

    - whatever happens while a submission is suspended, it settles with
      the status [success] or [error], never [aborted];
    - the user can cancel at the first wait of the submission;
    - when the user cancels ([abortGeneration]) at any wait of the
      submission (a progress wait, the processing delay of any attempt, a
      backoff wait), the status is [aborted] right after the cancellation,
      and the submission, left to run, settles in the [catch] of
      [startGeneration] with the status [error], the message
      "Request aborted" and [canRetry] set. No history entry is written:
      the storage entries and the dispatched events are those the
      submission started with. *)
Theorem C5_cancelled_submission_ends_in_error (w : World) (image : ImageFile) :
  readyToGenerate w image ->
  ids_nonempty w ->
  at_settlement (fun c w' => c = Normal tt /\ ended w') (actions.startGeneration w)
  /\ is_Some (interruptedIn 0 actions.abortGeneration (actions.startGeneration w))
  /\ forall (n : nat) (wa : World),
       interruptedIn n actions.abortGeneration (actions.startGeneration w) = Some wa ->
       status (generation (app wa)) = aborted
       /\ exists r w',
            resume n actions.abortGeneration (actions.startGeneration w) = Some r
            /\ settle r = (Normal tt, w')
            /\ status (generation (app w')) = error
            /\ err_message <$> gen_error (generation (app w')) = Some "Request aborted"
            /\ canRetry (generation (app w')) = true
            /\ entries w' = entries w
            /\ dispatched w' = dispatched w.
Proof.
  intros Hready Hids. split; [| split].
  - destruct Hready as (Hform & Himage & _).
    exact (startGeneration_ends w image Hform Himage).
  - destruct (startGeneration_first_wait w image Hready (Hids _)) as (k & ->).
    eexists. reflexivity.
  - intros n wa Hint. split.
    + destruct (interruptedIn_action _ _ _ _ Hint) as (w1 & ->).
      apply abortGeneration_status.
    + destruct (interruptedIn_resume _ _ _ _ Hint) as (r & Hresume).
      destruct (startGeneration_cancelled w image n r Hready Hids Hresume)
        as (w' & Hsettle & Hstatus & Hentries & Hdispatched & Hcount).
      exists r, (failed (ThrownError "Request aborted") w').
      split; [exact Hresume |]. split; [exact Hsettle |].
      cbn [failed app with_app with_generation with_preview generation
           status gen_error canRetry entries dispatched fmap option_fmap option_map
           actions.apiErrorOf err_message err_retryable JsString.orElse].
      repeat split; try assumption.
      rewrite bool_decide_true by exact Hcount. reflexivity.
Qed.

(** The example tab, the first attempt failing (every draw is 1/10):
    cancelling during the backoff wait that follows it (the fifth wait of
    the submission) ends in [error]. *)
Lemma C5_cancelled_submission_ends_in_error_witness :
  exists r w',
    resume 4 actions.abortGeneration
      (actions.startGeneration (exampleWorld (fun _ => 1 # 10))) = Some r
    /\ settle r = (Normal tt, w')
    /\ status (generation (app w')) = error
    /\ canRetry (generation (app w')) = true.
Proof.
  destruct (C5_cancelled_submission_ends_in_error
              (exampleWorld (fun _ => 1 # 10)) exampleImage)
    as (_ & _ & Hcancel).
  - repeat split.
  - intros n. reflexivity.
  - assert (is_Some (interruptedIn 4 actions.abortGeneration
                       (actions.startGeneration (exampleWorld (fun _ => 1 # 10)))))
      as (wa & Hint).
    { vm_compute. eexists. reflexivity. }
    destruct (Hcancel 4%nat wa Hint)
      as (_ & r & w' & Hresume & Hsettle & Hstatus & _ & Hretry & _).
    exists r, w'. auto.
Defined.

Section Retry.

Lemma retryGeneration_eq (w : World) (previous : GenerationRequest) :
  currentRequest (generation (app w)) = Some previous ->
  canRetry (generation (app w)) = true ->
  actions.retryGeneration w = actions.startGeneration (retrying w).
Proof.
  intros Hrequest Hretry. unfold actions.retryGeneration.
  rewrite await_lift. cbn [getState]. rewrite Hrequest, Hretry. cbn [negb].
  rewrite await_lift. reflexivity.
Qed.

(** On a form that does not validate [startGeneration] only logs. *)
Lemma startGeneration_incomplete (w : World) :
  (actions.validateForm w).1 = Normal false ->
  actions.startGeneration w
  = Settled (Normal tt)
      (with_console (fun c => c ++ [ConsoleError "Form validation failed"]) w).
Proof.
  intros Hform. unfold actions.startGeneration.
  rewrite await_lift. cbn [getState].
  rewrite await_lift.
  unfold actions.validateForm, bind, getState, ret in *. cbn [fst] in Hform.
  injection Hform as ->. reflexivity.
Qed.

End Retry.

(** C7, as stated, fails. On the example tab after three failed attempts
    (status [error], [canRetry] set, [retryCount] 2, request id "id-0"),
    [retryGeneration] is suspended for the first time with [retryCount]
    back at 0 and a request under a new id. *)
Lemma C7_retry_resets_count_and_request :
  status (generation (app exhaustedWorld)) = error
  /\ canRetry (generation (app exhaustedWorld)) = true
  /\ retryCount (generation (app exhaustedWorld)) = 2%nat
  /\ currentRequest (generation (app exhaustedWorld)) ≫= req_requestId = Some "id-0"
  /\ (fun w => (status (generation (app w)), retryCount (generation (app w)),
                currentRequest (generation (app w)) ≫= req_requestId))
       <$> suspendedIn (actions.retryGeneration exhaustedWorld)
     = Some (generating, 0%nat, Some "id-<").
Proof. repeat split; vm_compute; reflexivity. Qed.

(** C7, amended. On a store that accepts every operation, when the
    generation state is [error] with [canRetry] set and a request
    recorded, [retryGeneration] sets the status to [generating], resets
    progress to 0 and clears the error, then runs [startGeneration]
    afresh on the form as it is now. If the form is still complete, the
    controller re-enters [generating] with a request rebuilt from the
    current form (image, trimmed prompt, style) under a newly drawn
    request id, with [retryCount] reset to 0 and [canRetry] cleared; it is
    first suspended after the 10% progress milestone, before any endpoint
    call. If the form no longer validates, [startGeneration] returns at
    once: the state is left [generating] with the old request and the old
    [retryCount], and the endpoint is not called. *)
Theorem C7_retry_starts_over (w : World) (previous : GenerationRequest) :
  status (generation (app w)) = error ->
  canRetry (generation (app w)) = true ->
  currentRequest (generation (app w)) = Some previous ->
  healthy w ->
  actions.retryGeneration w = actions.startGeneration (retrying w)
  /\ status (generation (app (retrying w))) = generating
  /\ progress (generation (app (retrying w))) = 0%Z
  /\ gen_error (generation (app (retrying w))) = None
  /\ (forall image,
        readyToGenerate w image ->
        ids_nonempty w ->
        exists w1 k,
          actions.retryGeneration w = Pending 100 w1 k
          /\ status (generation (app w1)) = generating
          /\ currentRequest (generation (app w1)) = Some (requestOf w image)
          /\ req_requestId (requestOf w image) = Some (randomText w (drawn w))
          /\ retryCount (generation (app w1)) = 0%nat
          /\ canRetry (generation (app w1)) = false
          /\ gen_error (generation (app w1)) = None
          /\ progress (generation (app w1)) = 10%Z
          /\ endpointCalls w1 = endpointCalls w)
  /\ ((actions.validateForm w).1 = Normal false ->
      exists w',
        actions.retryGeneration w = Settled (Normal tt) w'
        /\ status (generation (app w')) = generating
        /\ isGenerating (preview (app w')) = true
        /\ currentRequest (generation (app w')) = Some previous
        /\ retryCount (generation (app w')) = retryCount (generation (app w))
        /\ endpointCalls w' = endpointCalls w).
Proof.
  intros _ Hretry Hrequest _.
  pose proof (retryGeneration_eq w previous Hrequest Hretry) as Heq.
  split; [exact Heq |].
  split; [reflexivity |]. split; [reflexivity |]. split; [reflexivity |].
  split.
  - intros image Hready Hids.
    destruct (startGeneration_first_wait (retrying w) image) as [k Hrun].
    + exact Hready.
    + apply Hids.
    + eexists _, k. split; [rewrite Heq; exact Hrun |].
      unfold withProgress.
      cbn [app with_app generation with_generation status currentRequest retryCount
           canRetry gen_error progress endpointCalls].
      rewrite registered_app, registered_endpointCalls.
      repeat split.
  - intros Hform. eexists. split.
    + rewrite Heq. apply startGeneration_incomplete. exact Hform.
    + cbn [retrying app with_app with_console generation with_generation preview
           with_preview with_isGenerating status currentRequest retryCount
           isGenerating endpointCalls].
      rewrite Hrequest. repeat split.
Qed.

(** Retrying on the example tab after three failed attempts. *)
Lemma C7_retry_starts_over_witness :
  exists w1 k,
    actions.retryGeneration exhaustedWorld = Pending 100 w1 k
    /\ retryCount (generation (app w1)) = 0%nat.
Proof.
  destruct (C7_retry_starts_over exhaustedWorld
              {| req_imageDataUrl := "data:image/png;base64,AAAA";
                 req_prompt := "red dress on runway"; req_style := "editorial";
                 req_requestId := Some "id-0" |})
    as (_ & _ & _ & _ & Hcomplete & _).
  - vm_compute. reflexivity.
  - vm_compute. reflexivity.
  - vm_compute. reflexivity.
  - intros op. vm_compute. reflexivity.
  - destruct (Hcomplete exampleImage) as (w1 & k & Hrun & _ & _ & _ & Hcount & _).
    + repeat split; vm_compute; reflexivity.
    + intros n. reflexivity.
    + exists w1, k. auto.
Defined.

(* ===================================================================== *)
(** ** Further properties of the storage utilities                        *)
(* ===================================================================== *)

Section StoredDocuments.

Lemma afterProbe_healthy (w : World) : healthy w -> afterProbe w = probed w.
Proof. intros Hw. unfold afterProbe. rewrite !Hw. reflexivity. Qed.

Lemma probeOk_healthy (w : World) : healthy w -> probeOk w = true.
Proof. intros Hw. unfold probeOk. rewrite !Hw. reflexivity. Qed.

Lemma entries_probed (w : World) (key : string) :
  key <> probeKey -> entries (probed w) !! key = entries w !! key.
Proof.
  intros Hkey. unfold probed; cbn [entries with_entries].
  rewrite lookup_delete_ne, lookup_insert_ne by congruence. reflexivity.
Qed.

(** The three accessors on a store that accepts every operation. *)
Lemma getItem_healthy {T} `{Json T} (key : string) (fallback : T) (w : World) :
  healthy w ->
  getItem key fallback w
  = match entries (probed w) !! key with
    | Some text =>
        match parse text with
        | Some value => (Normal value, probed w)
        | None =>
            (Normal fallback,
             with_console
               (fun c => c ++ [ConsoleError
                                 ("Storage operation failed (" +:+
                                  ("getItem(" +:+ key +:+ ")") +:+ "):")])
               (probed w))
        end
    | None => (Normal fallback, probed w)
    end.
Proof.
  intros Hw. unfold getItem. rewrite safeStorageOperation_eq.
  rewrite probeOk_healthy, afterProbe_healthy by exact Hw.
  unfold bind, localStorage.getItem.
  change (throws (probed w)) with (throws w). rewrite Hw.
  destruct (entries (probed w) !! key) as [text |]; [| reflexivity].
  unfold JSON_parse. destruct (parse text); reflexivity.
Qed.

Lemma setItem_healthy {T} `{Json T} (key : string) (value : T) (w : World) :
  healthy w ->
  setItem key value w
  = (Normal tt, with_entries (insert key (stringify value)) (probed w)).
Proof.
  intros Hw. unfold setItem. rewrite safeStorageOperation_eq.
  rewrite probeOk_healthy, afterProbe_healthy by exact Hw.
  unfold localStorage.setItem.
  change (throws (probed w)) with (throws w). rewrite Hw. reflexivity.
Qed.

Lemma removeItem_healthy (key : string) (w : World) :
  healthy w ->
  removeItem key w = (Normal tt, with_entries (delete key) (probed w)).
Proof.
  intros Hw. unfold removeItem. rewrite safeStorageOperation_eq.
  rewrite probeOk_healthy, afterProbe_healthy by exact Hw.
  unfold localStorage.removeItem.
  change (throws (probed w)) with (throws w). rewrite Hw. reflexivity.
Qed.

Lemma only_storage_refl (w : World) : only_storage w w.
Proof. repeat split. Qed.

Lemma only_storage_trans (w1 w2 w3 : World) :
  only_storage w1 w2 -> only_storage w2 w3 -> only_storage w1 w3.
Proof.
  unfold only_storage. intros (?&?&?&?&?&?&?&?&?&?&?) (?&?&?&?&?&?&?&?&?&?&?).
  repeat split; congruence.
Qed.

Lemma only_storage_afterProbe (w : World) : only_storage w (afterProbe w).
Proof. unfold afterProbe. repeat case_match; repeat split. Qed.

Lemma only_storage_safeStorageOperation {T} (operation : Sync T) (fallback : T)
    (operationName : string) (w : World) :
  (forall w1, only_storage w1 (exec operation w1)) ->
  only_storage w (exec (safeStorageOperation operation fallback operationName) w).
Proof.
  intros Hop. unfold exec. rewrite safeStorageOperation_eq.
  pose proof (only_storage_afterProbe w) as Hprobe.
  destruct (probeOk w); [| exact Hprobe].
  specialize (Hop (afterProbe w)). unfold exec in Hop.
  destruct (operation (afterProbe w)) as [[v | e] w']; cbn [snd] in *.
  - exact (only_storage_trans _ _ _ Hprobe Hop).
  - refine (only_storage_trans _ _ _ Hprobe (only_storage_trans _ _ _ Hop _)).
    repeat split.
Qed.

Lemma only_storage_getItem {T} `{Json T} (key : string) (fallback : T) (w : World) :
  only_storage w (exec (getItem key fallback) w).
Proof.
  apply only_storage_safeStorageOperation. intros w1.
  unfold exec, bind, localStorage.getItem.
  destruct (throws w1 (OpGetItem key)); [apply only_storage_refl |].
  destruct (entries w1 !! key) as [text |]; [| apply only_storage_refl].
  unfold JSON_parse. destruct (parse text); apply only_storage_refl.
Qed.

Lemma only_storage_setItem {T} `{Json T} (key : string) (value : T) (w : World) :
  only_storage w (exec (setItem key value) w).
Proof.
  apply only_storage_safeStorageOperation. intros w1.
  unfold exec, localStorage.setItem.
  destruct (throws w1 (OpSetItem key)); repeat split.
Qed.

Lemma only_storage_removeItem (key : string) (w : World) :
  only_storage w (exec (removeItem key) w).
Proof.
  apply only_storage_safeStorageOperation. intros w1.
  unfold exec, localStorage.removeItem.
  destruct (throws w1 (OpRemoveItem key)); repeat split.
Qed.

End StoredDocuments.

Section Accessors.

(** A read and a write of a document, on any store. *)
Lemma getItem_read {T} `{Json T} (key : string) (fallback : T) (w : World) :
  key <> probeKey ->
  exists w', getItem key fallback w = (Normal (readItem key fallback w), w')
             /\ entries w' !! key = entries w !! key
             /\ only_storage w w'.
Proof.
  intros Hkey.
  destruct (getItem_spec key fallback w Hkey) as (w' & Hrun & [_ Hentries] & _).
  exists w'. split; [exact Hrun |]. split; [exact Hentries |].
  pose proof (only_storage_getItem key fallback w) as Hframe.
  unfold exec in Hframe. rewrite Hrun in Hframe. exact Hframe.
Qed.

Lemma setItem_write {T} `{Json T} (key : string) (value : T) (w : World) :
  key <> probeKey ->
  exists w', setItem key value w = (Normal tt, w')
             /\ entries w' !! key
                = (if writable w key then Some (stringify value) else entries w !! key)
             /\ only_storage w w'.
Proof.
  intros Hkey.
  destruct (setItem_spec key value w Hkey) as (w' & Hrun & _ & Hentries & _).
  exists w'. split; [exact Hrun |]. split; [exact Hentries |].
  pose proof (only_storage_setItem key value w) as Hframe.
  unfold exec in Hframe. rewrite Hrun in Hframe. exact Hframe.
Qed.

Lemma removeItem_erase (key : string) (w : World) :
  key <> probeKey ->
  exists w', removeItem key w = (Normal tt, w')
             /\ entries w' !! key = (if removable w key then None else entries w !! key)
             /\ only_storage w w'.
Proof.
  intros Hkey.
  destruct (removeItem_spec key w Hkey) as (w' & Hrun & _ & Hentries & _).
  exists w'. split; [exact Hrun |]. split; [exact Hentries |].
  pose proof (only_storage_removeItem key w) as Hframe.
  unfold exec in Hframe. rewrite Hrun in Hframe. exact Hframe.
Qed.

Lemma readable_only_storage (w w' : World) (key : string) :
  only_storage w w' -> readable w' key = readable w key.
Proof.
  intros (_ & _ & _ & Hthrows & _). unfold readable, probeOk. rewrite Hthrows. reflexivity.
Qed.

Lemma writable_only_storage (w w' : World) (key : string) :
  only_storage w w' -> writable w' key = writable w key.
Proof.
  intros (_ & _ & _ & Hthrows & _). unfold writable, probeOk. rewrite Hthrows. reflexivity.
Qed.

(** A document written and read back, against one that could not be
    written. *)
Lemma readItem_written {T} `{Json T} (key : string) (fallback value : T) (w w' : World) :
  parse (stringify value) = Some value ->
  throws w' = throws w ->
  entries w' !! key
  = (if writable w key then Some (stringify value) else entries w !! key) ->
  readItem key fallback w'
  = if readable w key && writable w key then value else readItem key fallback w.
Proof.
  intros Hround Hthrows Hentries. unfold readItem.
  replace (readable w' key) with (readable w key)
    by (unfold readable, probeOk; rewrite Hthrows; reflexivity).
  destruct (readable w key); [| reflexivity]. cbn [andb].
  rewrite Hentries. destruct (writable w key); [| reflexivity].
  rewrite Hround. reflexivity.
Qed.

End Accessors.

Section Settings.

Local Abbreviation SETTINGS := STORAGE_KEYS.SETTINGS.

Lemma getSettings_read (w : World) :
  exists w', getSettings w = (Normal (settingsOf w), w')
             /\ entries w' !! SETTINGS = entries w !! SETTINGS
             /\ only_storage w w'.
Proof. apply getItem_read. discriminate. Qed.

Lemma saveSettings_spec (settings : PartialUserSettings) (w : World) :
  exists w', saveSettings settings w = (Normal tt, w')
             /\ throws w' = throws w
             /\ entries w' !! SETTINGS
                = (if writable w SETTINGS
                   then Some (StoredSettings (mergeSettings (settingsOf w) settings))
                   else entries w !! SETTINGS)
             /\ dispatched w'
                = dispatched w ++ [settingsUpdated (mergeSettings (settingsOf w) settings)].
Proof.
  unfold saveSettings, bind at 1.
  destruct (getSettings_read w) as (w1 & -> & Hentries1 & Hframe1).
  unfold bind.
  destruct (setItem_write SETTINGS (mergeSettings (settingsOf w) settings) w1)
    as (w2 & -> & Hentries2 & Hframe2); [discriminate |].
  rewrite (writable_only_storage w w1) in Hentries2 by exact Hframe1.
  pose proof (only_storage_trans _ _ _ Hframe1 Hframe2)
    as (_ & _ & _ & Hthrows & Hdispatched & _).
  eexists. split; [reflexivity |]. cbn.
  split; [exact Hthrows |]. split; [| rewrite Hdispatched; reflexivity].
  rewrite Hentries2. destruct (writable w SETTINGS); [reflexivity | exact Hentries1].
Qed.

Lemma resetSettings_spec (w : World) :
  exists w', resetSettings w = (Normal tt, w')
             /\ throws w' = throws w
             /\ entries w' !! SETTINGS
                = (if writable w SETTINGS then Some (StoredSettings DEFAULT_SETTINGS)
                   else entries w !! SETTINGS)
             /\ dispatched w' = dispatched w ++ [settingsReset].
Proof.
  unfold resetSettings, bind.
  destruct (setItem_write SETTINGS DEFAULT_SETTINGS w)
    as (w1 & -> & Hentries & (_ & _ & _ & Hthrows & Hdispatched & _)); [discriminate |].
  eexists. split; [reflexivity |]. cbn.
  split; [exact Hthrows |]. split; [exact Hentries |].
  rewrite Hdispatched. reflexivity.
Qed.

End Settings.

(** X1. The settings document ([saveSettings], [getSettings],
    [resetSettings]), on every store. [saveSettings] merges the update
    into the settings [getSettings] returns, pins [version] to that of the
    defaults, and announces the merged settings in a [settingsUpdated]
    event. When the store lets the document be read and written, a later
    [getSettings] returns the merged settings; otherwise it returns what
    it returned before, although the event has announced the update all
    the same. [resetSettings] makes [getSettings] return the defaults, on
    the same condition. *)
Theorem X1_settings_round_trip (settings : PartialUserSettings) (w : World) :
  let saved := exec (saveSettings settings) w in
  let merged := mergeSettings (settingsOf w) settings in
  (getSettings w).1 = Normal (settingsOf w)
  /\ (getSettings saved).1
     = Normal (if readable w STORAGE_KEYS.SETTINGS && writable w STORAGE_KEYS.SETTINGS
               then merged else settingsOf w)
  /\ dispatched saved = dispatched w ++ [settingsUpdated merged]
  /\ us_version merged = 1%Z
  /\ (getSettings (exec resetSettings w)).1
     = Normal (if readable w STORAGE_KEYS.SETTINGS && writable w STORAGE_KEYS.SETTINGS
               then DEFAULT_SETTINGS else settingsOf w)
  /\ dispatched (exec resetSettings w) = dispatched w ++ [settingsReset].
Proof.
  intros saved merged. subst saved merged. unfold exec.
  destruct (saveSettings_spec settings w) as (w1 & -> & Hthrows1 & Hentries1 & Hevent1).
  destruct (resetSettings_spec w) as (w2 & -> & Hthrows2 & Hentries2 & Hevent2).
  cbn [snd].
  destruct (getSettings_read w) as (w3 & -> & _).
  destruct (getSettings_read w1) as (w4 & -> & _).
  destruct (getSettings_read w2) as (w5 & -> & _).
  cbn [fst].
  split; [reflexivity |].
  split.
  { f_equal. unfold settingsOf at 1.
    apply (readItem_written STORAGE_KEYS.SETTINGS); [reflexivity | assumption..]. }
  split; [exact Hevent1 |].
  split; [reflexivity |].
  split; [| exact Hevent2].
  f_equal. unfold settingsOf at 1.
  apply (readItem_written STORAGE_KEYS.SETTINGS); [reflexivity | assumption..].
Qed.

Section Preferences.

Local Abbreviation PREFERENCES := STORAGE_KEYS.PREFERENCES.

Lemma readItem_same {T} `{Json T} (key : string) (fallback : T) (w w' : World) :
  throws w' = throws w -> entries w' !! key = entries w !! key ->
  readItem key fallback w' = readItem key fallback w.
Proof.
  intros Hthrows Hentries. unfold readItem, readable, probeOk.
  rewrite Hthrows, Hentries. reflexivity.
Qed.

Lemma getPreferences_read (w : World) :
  exists w', getPreferences w = (Normal (preferencesOf w), w')
             /\ entries w' !! PREFERENCES = entries w !! PREFERENCES
             /\ only_storage w w'.
Proof. apply getItem_read. discriminate. Qed.

Lemma savePreferences_spec (preferences : PartialUserPreferences) (w : World) :
  exists w', savePreferences preferences w = (Normal tt, w')
             /\ throws w' = throws w
             /\ entries w' !! PREFERENCES
                = (if writable w PREFERENCES
                   then Some (StoredPreferences
                                (mergePreferences (preferencesOf w) preferences))
                   else entries w !! PREFERENCES)
             /\ dispatched w'
                = dispatched w
                  ++ [preferencesUpdated (mergePreferences (preferencesOf w) preferences)].
Proof.
  unfold savePreferences, bind at 1.
  destruct (getPreferences_read w) as (w1 & -> & Hentries1 & Hframe1).
  unfold bind.
  destruct (setItem_write PREFERENCES (mergePreferences (preferencesOf w) preferences) w1)
    as (w2 & -> & Hentries2 & Hframe2); [discriminate |].
  rewrite (writable_only_storage w w1) in Hentries2 by exact Hframe1.
  pose proof (only_storage_trans _ _ _ Hframe1 Hframe2)
    as (_ & _ & _ & Hthrows & Hdispatched & _).
  eexists. split; [reflexivity |]. cbn.
  split; [exact Hthrows |]. split; [| rewrite Hdispatched; reflexivity].
  rewrite Hentries2. destruct (writable w PREFERENCES); [reflexivity | exact Hentries1].
Qed.

(** [savePreferences] after a read of the preferences. *)
Lemma savePreferences_after_read (preferences : PartialUserPreferences) (w w1 : World) :
  only_storage w w1 ->
  entries w1 !! PREFERENCES = entries w !! PREFERENCES ->
  exists w', savePreferences preferences w1 = (Normal tt, w')
             /\ throws w' = throws w
             /\ entries w' !! PREFERENCES
                = (if writable w PREFERENCES
                   then Some (StoredPreferences
                                (mergePreferences (preferencesOf w) preferences))
                   else entries w !! PREFERENCES)
             /\ dispatched w'
                = dispatched w
                  ++ [preferencesUpdated (mergePreferences (preferencesOf w) preferences)].
Proof.
  intros Hframe Hentries.
  destruct (savePreferences_spec preferences w1) as (w' & Hrun & Hthrows & Hstored & Hevent).
  pose proof Hframe as (_ & _ & _ & Hthrows1 & Hdispatched1 & _).
  assert (preferencesOf w1 = preferencesOf w) as Hsame
    by (apply readItem_same; assumption).
  rewrite Hsame, (writable_only_storage w w1), Hentries in Hstored by exact Hframe.
  rewrite Hsame, Hdispatched1 in Hevent.
  exists w'. split; [exact Hrun |]. split; [congruence |]. split; assumption.
Qed.

Lemma addRecentPrompt_spec (prompt : string) (w : World) :
  let trimmed := JsString.trim prompt in
  let known := pr_recentPrompts (preferencesOf w) in
  exists w', addRecentPrompt prompt w = (Normal tt, w')
             /\ throws w' = throws w
             /\ if negb (JsString.truthy trimmed) || bool_decide (trimmed ∈ known)
                then entries w' !! PREFERENCES = entries w !! PREFERENCES
                     /\ dispatched w' = dispatched w
                else entries w' !! PREFERENCES
                     = (if writable w PREFERENCES
                        then Some (StoredPreferences
                                     (withRecentPrompts (take 10 (trimmed :: known))
                                        (preferencesOf w)))
                        else entries w !! PREFERENCES)
                     /\ dispatched w'
                        = dispatched w
                          ++ [preferencesUpdated
                                (withRecentPrompts (take 10 (trimmed :: known))
                                   (preferencesOf w))].
Proof.
  intros trimmed known. subst trimmed known.
  unfold addRecentPrompt, bind at 1.
  destruct (getPreferences_read w) as (w1 & -> & Hentries1 & Hframe1).
  destruct (negb (JsString.truthy (JsString.trim prompt))
            || bool_decide (JsString.trim prompt ∈ pr_recentPrompts (preferencesOf w))).
  - exists w1. split; [reflexivity |].
    destruct Hframe1 as (_ & _ & _ & Hthrows & Hdispatched & _). auto.
  - destruct (savePreferences_after_read
                {| ppr_recentPrompts :=
                     Some (take 10 (JsString.trim prompt
                                    :: pr_recentPrompts (preferencesOf w)));
                   ppr_favoriteStyles := None; ppr_uploadPreferences := None;
                   ppr_uiPreferences := None; ppr_version := None |} w w1 Hframe1 Hentries1)
      as (w' & Hrun & Hthrows & Hstored & Hevent).
    exists w'. auto.
Qed.

Lemma toggleFavoriteStyle_spec (style : string) (w : World) :
  let updated :=
    withFavoriteStyles (flippedStyle style (pr_favoriteStyles (preferencesOf w)))
      (preferencesOf w) in
  exists w', toggleFavoriteStyle style w = (Normal tt, w')
             /\ throws w' = throws w
             /\ entries w' !! PREFERENCES
                = (if writable w PREFERENCES then Some (StoredPreferences updated)
                   else entries w !! PREFERENCES)
             /\ dispatched w' = dispatched w ++ [preferencesUpdated updated].
Proof.
  intros updated. subst updated.
  unfold toggleFavoriteStyle, bind at 1.
  destruct (getPreferences_read w) as (w1 & -> & Hentries1 & Hframe1).
  apply (savePreferences_after_read _ w w1 Hframe1 Hentries1).
Qed.

Lemma preferencesOf_written (value : UserPreferences) (w w' : World) :
  throws w' = throws w ->
  entries w' !! PREFERENCES
  = (if writable w PREFERENCES then Some (StoredPreferences value)
     else entries w !! PREFERENCES) ->
  preferencesOf w' = if usable w PREFERENCES then value else preferencesOf w.
Proof.
  intros Hthrows Hentries.
  apply (readItem_written PREFERENCES); [reflexivity | assumption..].
Qed.

Lemma NoDup_take {A} (n : nat) (l : list A) : NoDup l -> NoDup (take n l).
Proof. intros Hnodup. exact (sublist_NoDup _ _ Hnodup (sublist_take l n)). Qed.

End Preferences.

(** X2. The recent prompts ([addRecentPrompt]), on every store. A prompt
    that is blank once trimmed, or that is already in the list, changes
    nothing: the document is not rewritten, nothing is announced, and a
    prompt used again does not move to the front. Any other prompt is
    trimmed and put first, the list being cut to its first 10 entries,
    when the store lets the document be read and written; the favorite
    styles are kept. The list never grows past 10 entries and stays free
    of duplicates. *)
Theorem X2_recent_prompts (prompt : string) (w : World) :
  let trimmed := JsString.trim prompt in
  let known := pr_recentPrompts (preferencesOf w) in
  let w' := exec (addRecentPrompt prompt) w in
  (getPreferences w).1 = Normal (preferencesOf w)
  /\ (negb (JsString.truthy trimmed) || bool_decide (trimmed ∈ known) = true ->
      entries w' !! STORAGE_KEYS.PREFERENCES = entries w !! STORAGE_KEYS.PREFERENCES
      /\ dispatched w' = dispatched w
      /\ preferencesOf w' = preferencesOf w)
  /\ (negb (JsString.truthy trimmed) || bool_decide (trimmed ∈ known) = false ->
      pr_recentPrompts (preferencesOf w')
      = if usable w STORAGE_KEYS.PREFERENCES then take 10 (trimmed :: known) else known)
  /\ pr_favoriteStyles (preferencesOf w') = pr_favoriteStyles (preferencesOf w)
  /\ ((length known <= 10)%nat -> (length (pr_recentPrompts (preferencesOf w')) <= 10)%nat)
  /\ (NoDup known -> NoDup (pr_recentPrompts (preferencesOf w'))).
Proof.
  intros trimmed known w'. subst w'. unfold exec.
  destruct (getPreferences_read w) as (w0 & -> & _).
  destruct (addRecentPrompt_spec prompt w) as (w1 & -> & Hthrows & Hcases).
  cbn [fst snd]. fold trimmed known in Hcases.
  split; [reflexivity |].
  destruct (negb (JsString.truthy trimmed) || bool_decide (trimmed ∈ known)) eqn:Hskip.
  - destruct Hcases as [Hentries Hdispatched].
    assert (preferencesOf w1 = preferencesOf w) as Hsame
      by (apply readItem_same; assumption).
    rewrite Hsame.
    split; [auto |]. split; [discriminate |]. auto.
  - destruct Hcases as [Hentries _].
    rewrite (preferencesOf_written _ w w1 Hthrows Hentries).
    split; [discriminate |].
    apply orb_false_iff in Hskip as [_ Hnew]. apply bool_decide_eq_false in Hnew.
    destruct (usable w STORAGE_KEYS.PREFERENCES); cbn.
    + split; [reflexivity |]. split; [reflexivity |].
      change (trimmed :: take 9 known) with (take 10 (trimmed :: known)).
      split; [intros _; rewrite length_take; lia |].
      intros Hnodup. apply NoDup_take. constructor; assumption.
    + auto.
Qed.

(** X3. The favorite styles ([toggleFavoriteStyle]), on a store that lets
    the preferences be read and written. Toggling a style that is in the
    list removes every occurrence of it; toggling one that is not appends
    it. So the membership of the style flips and that of every other
    style is kept, two toggles of a style that was not a favorite give
    the list back, and the recent prompts are untouched. *)
Theorem X3_favorite_styles (style : string) (w : World) :
  usable w STORAGE_KEYS.PREFERENCES = true ->
  let styles := pr_favoriteStyles (preferencesOf w) in
  let w1 := exec (toggleFavoriteStyle style) w in
  let w2 := exec (toggleFavoriteStyle style) w1 in
  pr_favoriteStyles (preferencesOf w1)
  = (if bool_decide (style ∈ styles) then filter (fun s => s ≠ style) styles
     else styles ++ [style])
  /\ (style ∈ pr_favoriteStyles (preferencesOf w1) <-> style ∉ styles)
  /\ (forall other, other <> style ->
        other ∈ pr_favoriteStyles (preferencesOf w1) <-> other ∈ styles)
  /\ (style ∉ styles -> pr_favoriteStyles (preferencesOf w2) = styles)
  /\ (style ∈ styles ->
      pr_favoriteStyles (preferencesOf w2) = filter (fun s => s ≠ style) styles ++ [style])
  /\ pr_recentPrompts (preferencesOf w1) = pr_recentPrompts (preferencesOf w).
Proof.
  intros Husable styles w1 w2. subst w1 w2. unfold exec.
  destruct (toggleFavoriteStyle_spec style w) as (w1 & -> & Hthrows1 & Hentries1 & _).
  cbn [snd].
  destruct (toggleFavoriteStyle_spec style w1) as (w2 & -> & Hthrows2 & Hentries2 & _).
  cbn [snd].
  pose proof (preferencesOf_written _ w w1 Hthrows1 Hentries1) as Hfirst.
  pose proof (preferencesOf_written _ w1 w2 Hthrows2 Hentries2) as Hsecond.
  assert (usable w1 STORAGE_KEYS.PREFERENCES = true) as Husable1.
  { unfold usable, readable, writable, probeOk in *. rewrite Hthrows1. exact Husable. }
  rewrite Husable in Hfirst. rewrite Husable1 in Hsecond.
  rewrite Hsecond, Hfirst. cbn. fold styles.
  assert (forall s, s ∈ flippedStyle style styles
                    <-> (if decide (s = style) then style ∉ styles else s ∈ styles))
    as Hmember.
  { intros s. unfold flippedStyle. destruct (bool_decide_reflect (style ∈ styles)) as [Hin | Hout].
    - rewrite list_elem_of_filter. destruct (decide (s = style)) as [-> | Hne]; tauto.
    - rewrite elem_of_app, list_elem_of_singleton.
      destruct (decide (s = style)) as [-> | Hne]; tauto. }
  split; [reflexivity |].
  split; [rewrite Hmember, decide_True by reflexivity; reflexivity |].
  split; [intros other Hne; rewrite Hmember, decide_False by exact Hne; reflexivity |].
  split; [| split; [| reflexivity]].
  - intros Hout. unfold flippedStyle at 1.
    rewrite bool_decide_true by (apply Hmember; rewrite decide_True by reflexivity; exact Hout).
    unfold flippedStyle. rewrite bool_decide_false by exact Hout.
    rewrite filter_app, filter_cons_False, filter_nil, app_nil_r by (intros Hne; apply Hne; reflexivity).
    clear -Hout. induction styles as [| s styles IH]; [reflexivity |].
    apply not_elem_of_cons in Hout as [Hne Hout].
    rewrite filter_cons_True by congruence. f_equal. apply IH, Hout.
  - intros Hin. unfold flippedStyle at 1.
    rewrite bool_decide_false
      by (rewrite Hmember, decide_True by reflexivity; intros Hout; exact (Hout Hin)).
    unfold flippedStyle. rewrite bool_decide_true by exact Hin. reflexivity.
Qed.

(** On a fresh tab the only favorite style is "editorial": toggling
    "vintage" makes it a favorite, toggling it again gives the list
    back. *)
Lemma X3_favorite_styles_witness :
  let w := exampleWorld (fun _ => 0%Q) in
  pr_favoriteStyles (preferencesOf (exec (toggleFavoriteStyle "vintage") w))
  = ["editorial"; "vintage"]
  /\ pr_favoriteStyles
       (preferencesOf (exec (toggleFavoriteStyle "vintage")
                         (exec (toggleFavoriteStyle "vintage") w)))
     = ["editorial"].
Proof.
  intros w.
  destruct (X3_favorite_styles "vintage" w) as (Hfirst & _ & _ & Htwice & _).
  - reflexivity.
  - split.
    + rewrite Hfirst. reflexivity.
    + apply Htwice. apply (bool_decide_unpack _). vm_compute. exact I.
Defined.

Section Session.

Local Abbreviation SESSION := STORAGE_KEYS.SESSION.

Lemma getSessionData_spec (w : World) :
  exists w', getSessionData w = (Normal (sessionOf w), w')
             /\ only_storage w w'
             /\ entries w' !! SESSION
                = match sessionRead w with
                  | Some _ => entries w !! SESSION
                  | None =>
                      if writable w SESSION then Some (StoredSession (freshSession w))
                      else entries w !! SESSION
                  end.
Proof.
  unfold getSessionData, bind at 1, sessionOf, sessionRead.
  destruct (getItem_read SESSION (None : option SessionData) w)
    as (w1 & -> & Hentries1 & Hframe1); [discriminate |].
  destruct (readItem SESSION None w) as [s |]; cbn [default from_option id].
  - exists w1. auto.
  - unfold initializeSession, bind, crypto_randomUUID, now.
    destruct (setItem_write SESSION
                {| sd_sessionId := uuid w1; sd_startTime := clock w1;
                   sd_lastActivity := clock w1; sd_generationCount := 0;
                   sd_totalUploadSize := 0; sd_version := 1 |} w1)
      as (w2 & -> & Hentries2 & Hframe2); [discriminate |].
    rewrite (writable_only_storage w w1) in Hentries2 by exact Hframe1.
    pose proof Hframe1 as (_ & _ & _ & _ & _ & _ & _ & _ & Hclock & Huuid & _).
    unfold freshSession. rewrite <- Hclock, <- Huuid.
    exists w2. split; [reflexivity |].
    split; [exact (only_storage_trans _ _ _ Hframe1 Hframe2) |].
    rewrite Hentries2. destruct (writable w SESSION); [reflexivity | exact Hentries1].
Qed.

Lemma touchSession_spec (f : Z -> SessionData -> SessionData) (w : World) :
  exists w', touchSession f w = (Normal tt, w')
             /\ only_storage w w'
             /\ entries w' !! SESSION
                = if writable w SESSION
                  then Some (StoredSession (f (clock w) (sessionOf w)))
                  else entries w !! SESSION.
Proof.
  unfold touchSession, bind at 1.
  destruct (getSessionData_spec w) as (w1 & -> & Hframe1 & Hentries1).
  unfold bind, now.
  destruct (setItem_write SESSION (f (clock w1) (sessionOf w)) w1)
    as (w2 & -> & Hentries2 & Hframe2); [discriminate |].
  rewrite (writable_only_storage w w1) in Hentries2 by exact Hframe1.
  pose proof Hframe1 as (_ & _ & _ & _ & _ & _ & _ & _ & Hclock & _).
  rewrite Hclock in Hentries2.
  exists w2. split; [reflexivity |].
  split; [exact (only_storage_trans _ _ _ Hframe1 Hframe2) |].
  rewrite Hentries2. destruct (writable w SESSION) eqn:Hwritable; [reflexivity |].
  rewrite Hentries1. destruct (sessionRead w); reflexivity.
Qed.

Lemma applySessionOp_touch (op : SessionOp) :
  applySessionOp op = touchSession (fun t s => advance t op s).
Proof. destruct op; reflexivity. Qed.

Lemma sessionOf_written (value : SessionData) (w w' : World) :
  only_storage w w' ->
  entries w' !! SESSION
  = (if writable w SESSION then Some (StoredSession value) else entries w !! SESSION) ->
  sessionOf w' = if usable w SESSION then value else sessionOf w.
Proof.
  intros Hframe Hentries.
  pose proof Hframe as (_ & _ & _ & Hthrows & _ & _ & _ & _ & Hclock & Huuid & _).
  unfold sessionOf, sessionRead, freshSession. rewrite Hclock, Huuid.
  assert (parse (stringify (Some value)) = Some (Some value)) as Hround by reflexivity.
  rewrite (readItem_written SESSION None (Some value) w w' Hround Hthrows Hentries).
  unfold usable. destruct (readable w SESSION && writable w SESSION); reflexivity.
Qed.

Lemma applySessionOp_spec (op : SessionOp) (w : World) :
  only_storage w (exec (applySessionOp op) w)
  /\ sessionOf (exec (applySessionOp op) w)
     = if usable w SESSION then advance (clock w) op (sessionOf w) else sessionOf w.
Proof.
  rewrite applySessionOp_touch. unfold exec.
  destruct (touchSession_spec (fun t s => advance t op s) w)
    as (w' & -> & Hframe & Hentries).
  split; [exact Hframe |]. exact (sessionOf_written _ w w' Hframe Hentries).
Qed.

Lemma usable_only_storage (w w' : World) (key : string) :
  only_storage w w' -> usable w' key = usable w key.
Proof.
  intros Hframe. unfold usable.
  rewrite (readable_only_storage w w'), (writable_only_storage w w') by exact Hframe.
  reflexivity.
Qed.

Lemma applySessionOps_spec (ops : list SessionOp) :
  forall w : World,
    only_storage w (applySessionOps ops w)
    /\ sessionOf (applySessionOps ops w)
       = if usable w SESSION
         then foldl (fun s op => advance (clock w) op s) (sessionOf w) ops
         else sessionOf w.
Proof.
  induction ops as [| op ops IH]; intros w; cbn [applySessionOps foldl].
  - split; [apply only_storage_refl |]. destruct (usable w SESSION); reflexivity.
  - destruct (applySessionOp_spec op w) as [Hframe Hstep].
    destruct (IH (exec (applySessionOp op) w)) as [Hframes Hrest].
    split; [exact (only_storage_trans _ _ _ Hframe Hframes) |].
    rewrite Hrest, Hstep, (usable_only_storage w _ SESSION Hframe).
    destruct Hframe as (_ & _ & _ & _ & _ & _ & _ & _ & -> & _).
    destruct (usable w SESSION); reflexivity.
Qed.

Lemma advance_tally (t : Z) (ops : list SessionOp) :
  forall s : SessionData,
    let s' := foldl (fun s op => advance t op s) s ops in
    sd_sessionId s' = sd_sessionId s
    /\ sd_startTime s' = sd_startTime s
    /\ sd_version s' = sd_version s
    /\ sd_generationCount s' = (sd_generationCount s + generated ops)%Z
    /\ sd_totalUploadSize s' = (sd_totalUploadSize s + uploaded ops)%Z
    /\ (ops <> [] -> sd_lastActivity s' = t).
Proof.
  induction ops as [| op ops IH]; intros s; cbn [foldl generated uploaded foldr].
  - repeat split; try lia. intros Hne. contradiction.
  - destruct (IH (advance t op s)) as (Hid & Hstart & Hversion & Hcount & Hsize & Hlast).
    cbn zeta in *. rewrite Hid, Hstart, Hversion, Hcount, Hsize.
    fold (generated ops) (uploaded ops).
    repeat split; try (destruct op; cbn; lia).
    intros _. destruct ops as [| op' ops]; [reflexivity | apply Hlast; discriminate].
Qed.

Lemma freshSession_later (ms : Q) (w w' : World) :
  only_storage w w' -> freshSession (elapse ms w') = freshSession (elapse ms w).
Proof.
  intros (_ & _ & _ & _ & _ & _ & _ & _ & Hclock & Huuid & _).
  unfold freshSession. cbn. rewrite Hclock, Huuid. reflexivity.
Qed.

Lemma sessionRead_later (ms : Q) (w w' : World) :
  only_storage w w' ->
  sessionRead (elapse ms w')
  = if readable w SESSION
    then match entries w' !! SESSION with
         | Some text => default None (parse text)
         | None => None
         end
    else None.
Proof.
  intros (_ & _ & _ & Hthrows & _). unfold sessionRead, readItem, readable, probeOk.
  cbn. rewrite Hthrows. reflexivity.
Qed.

End Session.


(** X4. The session document ([getSessionData], [initializeSession],
    [clearSession]). On every store, [getSessionData] returns the session
    it reads, or else a session it starts on the spot (start time and last
    activity at the current clock reading, both counters at 0, version 1).
    On a store that lets the document be read and written, the session so
    started is persisted, so that a later call returns the same session
    however much time has passed; once [clearSession] has removed the
    document, the next call starts a session at the time of that call. On
    a store that is not available, every call starts a session at the
    time of the call. *)
Theorem X4_session_started_once (w : World) :
  (getSessionData w).1 = Normal (sessionOf w)
  /\ (sessionRead w = None -> startedAt (clock w) (sessionOf w))
  /\ (usable w STORAGE_KEYS.SESSION = true ->
      forall ms, (getSessionData (elapse ms (exec getSessionData w))).1
                 = Normal (sessionOf w))
  /\ (removable w STORAGE_KEYS.SESSION = true ->
      forall ms, exists started,
        (getSessionData (elapse ms (exec clearSession w))).1 = Normal started
        /\ startedAt (clock (elapse ms w)) started)
  /\ (probeOk w = false ->
      forall ms, exists started,
        (getSessionData (elapse ms (exec getSessionData w))).1 = Normal started
        /\ startedAt (clock (elapse ms w)) started).
Proof.
  destruct (getSessionData_spec w) as (w1 & Hrun & Hframe & Hentries).
  split; [rewrite Hrun; reflexivity |].
  split; [intros Hnone; unfold sessionOf; rewrite Hnone; repeat split |].
  split; [| split].
  - intros [Hreadable Hwritable]%andb_true_iff ms.
    unfold exec. rewrite Hrun. cbn [snd].
    destruct (getSessionData_spec (elapse ms w1)) as (w2 & -> & _). cbn [fst].
    f_equal. unfold sessionOf at 1.
    rewrite (sessionRead_later ms w w1 Hframe), Hreadable, Hentries, Hwritable.
    unfold sessionOf, sessionRead, readItem. rewrite Hreadable.
    destruct (entries w !! STORAGE_KEYS.SESSION) as [text |] eqn:Hstored;
      [| reflexivity].
    destruct (parse text) as [[s |] |] eqn:Hparse; cbn [default from_option id].
    + rewrite ?Hstored, ?Hparse. reflexivity.
    + destruct text; discriminate.
    + reflexivity.
  - intros Hremovable ms. exists (freshSession (elapse ms w)).
    split; [| repeat split].
    unfold exec, clearSession.
    destruct (removeItem_erase STORAGE_KEYS.SESSION w)
      as (w0 & -> & Hgone & Hframe0); [discriminate |].
    cbn [snd]. rewrite Hremovable in Hgone.
    destruct (getSessionData_spec (elapse ms w0)) as (w2 & -> & _). cbn [fst].
    f_equal. unfold sessionOf.
    rewrite (sessionRead_later ms w w0 Hframe0), Hgone.
    rewrite (freshSession_later ms w w0 Hframe0).
    destruct (readable w STORAGE_KEYS.SESSION); reflexivity.
  - intros Hprobe ms. exists (freshSession (elapse ms w)).
    split; [| repeat split].
    unfold exec. rewrite Hrun. cbn [snd].
    destruct (getSessionData_spec (elapse ms w1)) as (w2 & -> & _). cbn [fst].
    f_equal. unfold sessionOf.
    rewrite (sessionRead_later ms w w1 Hframe), (freshSession_later ms w w1 Hframe).
    unfold readable. rewrite Hprobe. reflexivity.
Qed.

(** On a fresh tab the first read starts the session at clock reading
    1000000; a read one minute later returns it. *)
Lemma X4_session_started_once_witness :
  (getSessionData (elapse 60000 (exec getSessionData (exampleWorld (fun _ => 0%Q))))).1
  = Normal {| sd_sessionId := "00000000-0000-4000-8000-000000000000";
              sd_startTime := 1000000; sd_lastActivity := 1000000;
              sd_generationCount := 0; sd_totalUploadSize := 0; sd_version := 1 |}.
Proof.
  destruct (X4_session_started_once (exampleWorld (fun _ => 0%Q)))
    as (_ & _ & Honce & _).
  rewrite (Honce eq_refl 60000%Q). reflexivity.
Defined.

(** X5. The session counters ([incrementGenerationCount],
    [addToUploadSize], [updateSessionActivity]). On a store that lets the
    session be read and written, after any sequence of these calls the
    session read back has the generation count raised by the number of
    [incrementGenerationCount] calls and the upload size raised by the sum
    of the sizes added; its id, start time and version are those of the
    session the sequence started from, and its last activity is the
    current clock reading. On a store that does not let the session be
    read and written, the counters read back are those read before: they
    do not advance. *)
Theorem X5_session_counters (ops : list SessionOp) (w : World) :
  let w' := applySessionOps ops w in
  (getSessionData w').1 = Normal (sessionOf w')
  /\ (usable w STORAGE_KEYS.SESSION = true ->
      sd_generationCount (sessionOf w')
      = (sd_generationCount (sessionOf w) + generated ops)%Z
      /\ sd_totalUploadSize (sessionOf w')
         = (sd_totalUploadSize (sessionOf w) + uploaded ops)%Z
      /\ sd_sessionId (sessionOf w') = sd_sessionId (sessionOf w)
      /\ sd_startTime (sessionOf w') = sd_startTime (sessionOf w)
      /\ sd_version (sessionOf w') = sd_version (sessionOf w)
      /\ (ops <> [] -> sd_lastActivity (sessionOf w') = clock w))
  /\ (usable w STORAGE_KEYS.SESSION = false ->
      sd_generationCount (sessionOf w') = sd_generationCount (sessionOf w)
      /\ sd_totalUploadSize (sessionOf w') = sd_totalUploadSize (sessionOf w)).
Proof.
  intros w'. subst w'.
  destruct (getSessionData_spec (applySessionOps ops w)) as (w1 & -> & _).
  split; [reflexivity |].
  destruct (applySessionOps_spec ops w) as [_ ->].
  split; intros ->; [| split; reflexivity].
  destruct (advance_tally (clock w) ops (sessionOf w))
    as (Hid & Hstart & Hversion & Hcount & Hsize & Hlast).
  auto 10.
Qed.

(** Two generations and two uploads on a fresh tab. *)
Lemma X5_session_counters_witness :
  let w' := applySessionOps [OpUploaded 2048; OpGenerated; OpUploaded 1024; OpGenerated]
              (exampleWorld (fun _ => 0%Q)) in
  sd_generationCount (sessionOf w') = 2%Z /\ sd_totalUploadSize (sessionOf w') = 3072%Z.
Proof.
  intros w'.
  destruct (X5_session_counters
              [OpUploaded 2048; OpGenerated; OpUploaded 1024; OpGenerated]
              (exampleWorld (fun _ => 0%Q))) as (_ & Hcount & _).
  destruct (Hcount eq_refl) as (Hgenerated & Huploaded & _).
  subst w'. rewrite Hgenerated, Huploaded. split; reflexivity.
Defined.

(* ===================================================================== *)
(** ** Further properties of the history store                            *)
(* ===================================================================== *)

Section HistoryOperations.

Local Abbreviation HISTORY := STORAGE_KEYS.HISTORY.

Lemma applyOp_spec (op : HistoryOp) (w : World) :
  exists w', applyOp op w = (Normal tt, w')
             /\ throws w' = throws w
             /\ storedItems w'
                = (if accepted op w then after op (readList w) else storedItems w)
             /\ listed w' = (if accepted op w then after op (readList w) else listed w)
             /\ dispatched w' = dispatched w ++ [eventOf op].
Proof.
  destruct op as [item | id | id |]; cbn [applyOp accepted after eventOf].
  - apply saveHistoryItem_spec.
  - apply removeHistoryItem_spec.
  - apply toggleHistoryItemFavorite_spec.
  - apply clearHistory_spec.
Qed.

Lemma NoDup_ids_listed (w : World) : NoDup (ids (storedItems w)) -> NoDup (ids (listed w)).
Proof.
  unfold storedItems, listed.
  destruct (entries w !! HISTORY) as [[text | h | s | s | p] |]; try (intros; constructor).
  destruct (hst_version h <? 1)%Z; [intros; constructor | auto].
Qed.

Lemma NoDup_ids_readList (w : World) :
  NoDup (ids (storedItems w)) -> NoDup (ids (readList w)).
Proof.
  intros Hnodup. unfold readList.
  destruct (readable w HISTORY); [apply NoDup_ids_listed, Hnodup | constructor].
Qed.

Lemma ids_removed (id : string) (history : list HistoryItem) :
  ids (removed id history) = filter (fun i => i ≠ id) (ids history).
Proof.
  unfold ids, removed. induction history as [| item history IH]; [reflexivity |].
  cbn [fmap list_fmap]. rewrite !filter_cons. cbn [fmap list_fmap] in IH.
  destruct (decide (hi_id item ≠ id)); cbn [fmap list_fmap]; rewrite IH; reflexivity.
Qed.

Lemma ids_toggled (id : string) (history : list HistoryItem) :
  ids (toggled id history) = ids history.
Proof.
  unfold ids, toggled. rewrite <- list_fmap_compose. apply list_fmap_ext.
  intros i item _. cbn. destruct (decide (hi_id item = id)); reflexivity.
Qed.

Lemma NoDup_ids_after (op : HistoryOp) (history : list HistoryItem) :
  NoDup (ids history) -> NoDup (ids (after op history)).
Proof.
  intros Hnodup. destruct op as [item | id | id |]; cbn [after].
  - unfold recorded, ids. rewrite fmap_take. apply NoDup_take.
    cbn [fmap list_fmap]. fold (removed (hi_id item) history).
    change (list_fmap _ _ hi_id (removed (hi_id item) history))
      with (ids (removed (hi_id item) history)).
    rewrite ids_removed. constructor.
    + rewrite list_elem_of_filter. intros [Hne _]. apply Hne. reflexivity.
    + apply NoDup_filter, Hnodup.
  - rewrite ids_removed. apply NoDup_filter, Hnodup.
  - rewrite ids_toggled. exact Hnodup.
  - constructor.
Qed.

Lemma readList_cases (w : World) : readList w = listed w \/ readList w = [].
Proof. unfold readList. destruct (readable w HISTORY); auto. Qed.

End HistoryOperations.

(** X6. The ids of the history are pairwise distinct, and stay so: if the
    persisted list has no two items of one id, then after any sequence of
    record, remove, toggle-favorite and clear operations, whatever the
    store accepts or refuses along the way, neither has the persisted
    list nor the list [getHistoryItems] returns. *)
Theorem X6_history_ids_distinct (ops : list HistoryOp) (w : World) :
  NoDup (ids (storedItems w)) ->
  NoDup (ids (storedItems (applyOps ops w)))
  /\ exists history,
       (getHistoryItems (applyOps ops w)).1 = Normal history /\ NoDup (ids history).
Proof.
  revert w. induction ops as [| op ops IH]; intros w Hnodup; cbn [applyOps].
  - split; [exact Hnodup |].
    destruct (getHistoryItems_spec w) as (w' & -> & _).
    eexists. split; [reflexivity |]. apply NoDup_ids_readList, Hnodup.
  - apply IH. unfold exec.
    destruct (applyOp_spec op w) as (w' & -> & _ & Hstored & _). cbn [snd].
    rewrite Hstored. destruct (accepted op w); [| exact Hnodup].
    apply NoDup_ids_after, NoDup_ids_readList, Hnodup.
Qed.

(** The same id recorded twice on a fresh tab is listed once. *)
Lemma X6_history_ids_distinct_witness :
  NoDup (ids (storedItems
                (applyOps [OpRecord (exampleItem "a"); OpRecord (exampleItem "b");
                           OpRecord (exampleItem "a")]
                          (exampleWorld (fun _ => 0%Q))))).
Proof.
  apply (X6_history_ids_distinct
           [OpRecord (exampleItem "a"); OpRecord (exampleItem "b");
            OpRecord (exampleItem "a")]
           (exampleWorld (fun _ => 0%Q))).
  constructor.
Defined.

(** X7. Every history operation dispatches its event, whether or not the
    store took the change: after any sequence of operations the events
    dispatched are those of the operations, in order ([historyUpdated]
    with the item for a record, [historyUpdated] with no detail for a
    removal or a toggle, [historyCleared] for a clear). On a store that is
    not available the persisted list is still the one the sequence started
    from, so listeners are told of changes that were not persisted. *)
Theorem X7_history_events (ops : list HistoryOp) (w : World) :
  dispatched (applyOps ops w) = dispatched w ++ (eventOf <$> ops)
  /\ (probeOk w = false -> storedItems (applyOps ops w) = storedItems w).
Proof.
  revert w. induction ops as [| op ops IH]; intros w; cbn [applyOps fmap list_fmap].
  - split; [rewrite app_nil_r; reflexivity | reflexivity].
  - unfold exec.
    destruct (applyOp_spec op w) as (w' & -> & Hthrows & Hstored & _ & Hevent).
    cbn [snd]. destruct (IH w') as [Hevents Hkept].
    split.
    + rewrite Hevents, Hevent, <- app_assoc. reflexivity.
    + intros Hprobe. rewrite Hkept by (unfold probeOk; rewrite Hthrows; exact Hprobe).
      rewrite Hstored.
      assert (accepted op w = false) as ->; [| reflexivity].
      destruct op; cbn [accepted]; unfold writable, removable; rewrite Hprobe; reflexivity.
Qed.

(** A record and a clear on a store that throws on every access. *)
Lemma X7_history_events_witness :
  let w := brokenWorld (exampleWorld (fun _ => 0%Q)) in
  dispatched (applyOps [OpRecord (exampleItem "a"); OpClear] w)
  = [historyUpdated (Some (exampleItem "a")); historyCleared]
  /\ storedItems (applyOps [OpRecord (exampleItem "a"); OpClear] w) = [].
Proof.
  intros w.
  destruct (X7_history_events [OpRecord (exampleItem "a"); OpClear] w) as [Hevents Hkept].
  split; [exact Hevents | apply Hkept; reflexivity].
Defined.

Section HistoryEdges.

Local Abbreviation HISTORY := STORAGE_KEYS.HISTORY.


Lemma filter_none_out {A} (P : A -> Prop) `{forall x, Decision (P x)} (l : list A) :
  (forall x, x ∈ l -> P x) -> filter P l = l.
Proof.
  induction l as [| x l IH]; intros Hall; [reflexivity |].
  rewrite filter_cons_True by (apply Hall; left).
  f_equal. apply IH. intros y Hy. apply Hall. right. exact Hy.
Qed.





Lemma length_removed_listed (id : string) (history : list HistoryItem) :
  NoDup (ids history) -> id ∈ ids history ->
  S (length (removed id history)) = length history.
Proof.
  unfold ids. induction history as [| x l IH]; intros Hnodup Hin.
  - inversion Hin.
  - cbn [fmap list_fmap] in Hnodup, Hin. apply NoDup_cons in Hnodup as [Hx Hnodup].
    unfold removed. rewrite filter_cons.
    destruct (decide (hi_id x ≠ id)) as [Hne | Heq].
    + cbn [length]. f_equal. apply IH; [exact Hnodup |].
      apply elem_of_cons in Hin as [Hin | Hin]; [congruence | exact Hin].
    + apply dec_stable in Heq. cbn [length]. f_equal.
      rewrite filter_none_out; [reflexivity |].
      intros y Hy Hsame. apply Hx. rewrite Heq, <- Hsame.
      apply list_elem_of_fmap. eexists. split; [reflexivity | exact Hy].
Qed.

End HistoryEdges.



(** X9. A history document of an older version is lost at the next save.
    On a store that accepts every operation, when the history document
    persisted has a version below 1, [getHistoryItems] logs the migration
    and returns the empty list, whatever items the document holds, and
    [saveHistoryItem] then persists a list holding the new item alone. *)
Theorem X9_stale_history_replaced (w : World) (old : HistoryStorage) (item : HistoryItem) :
  healthy w ->
  entries w !! STORAGE_KEYS.HISTORY = Some (StoredHistory old) ->
  (hst_version old < 1)%Z ->
  (getHistoryItems w).1 = Normal []
  /\ console (exec getHistoryItems w)
     = console w ++ [ConsoleLog "Migrating history storage to v1"]
  /\ storedItems w = hst_items old
  /\ storedItems (exec (saveHistoryItem item) w) = [item]
  /\ (getHistoryItems (exec (saveHistoryItem item) w)).1 = Normal [item].
Proof.
  intros Hw Hstored Hstale.
  apply Z.ltb_lt in Hstale.
  assert (listed w = []) as Hlisted.
  { unfold listed. rewrite Hstored, Hstale. reflexivity. }
  split; [rewrite getHistoryItems_healthy by exact Hw; rewrite Hlisted; reflexivity |].
  split.
  { unfold exec, getHistoryItems, bind, now.
    rewrite getItem_healthy by exact Hw.
    rewrite entries_probed, Hstored by discriminate.
    cbn. rewrite Hstale. reflexivity. }
  split; [unfold storedItems; rewrite Hstored; reflexivity |].
  destruct (record_healthy item w Hw) as [Hw' Hrecorded].
  rewrite Hlisted in Hrecorded.
  split.
  - unfold exec.
    destruct (saveHistoryItem_spec item w) as (w' & -> & _ & Hitems & _).
    cbn [snd]. rewrite Hitems, healthy_writable by exact Hw.
    unfold readList. rewrite healthy_readable by exact Hw.
    rewrite Hlisted. reflexivity.
  - rewrite getHistoryItems_healthy by exact Hw'. rewrite Hrecorded. reflexivity.
Qed.

(** A document of version 0 holding two items, on the example tab. *)
Lemma X9_stale_history_replaced_witness :
  let old := {| hst_items := [exampleItem "a"; exampleItem "b"]; hst_lastUpdated := 0;
                hst_version := 0 |} in
  let w := with_entries (insert STORAGE_KEYS.HISTORY (StoredHistory old))
             (exampleWorld (fun _ => 0%Q)) in
  storedItems w = [exampleItem "a"; exampleItem "b"]
  /\ storedItems (exec (saveHistoryItem (exampleItem "c")) w) = [exampleItem "c"].
Proof.
  intros old w. split; [reflexivity |].
  apply (X9_stale_history_replaced w old (exampleItem "c")).
  - intros op. reflexivity.
  - reflexivity.
  - reflexivity.
Defined.

(** X10. What [saveHistoryItem] evicts, on a store that accepts every
    operation and whose history has pairwise distinct ids and at most 5
    items. Saving an item whose id is already listed replaces that entry
    and moves it to the front: the list keeps its length and every other
    item. Saving an item of a new id to a list of fewer than 5 items
    prepends it; to a list of 5 items, it prepends it and drops the last
    item only. *)
Theorem X10_history_eviction (item : HistoryItem) (w : World) :
  healthy w ->
  NoDup (ids (listed w)) ->
  (length (listed w) <= 5)%nat ->
  let saved := listed (exec (saveHistoryItem item) w) in
  (getHistoryItems (exec (saveHistoryItem item) w)).1 = Normal saved
  /\ saved !! 0%nat = Some item
  /\ (hi_id item ∈ ids (listed w) ->
      length saved = length (listed w)
      /\ forall other, other ∈ listed w -> hi_id other <> hi_id item -> other ∈ saved)
  /\ (hi_id item ∉ ids (listed w) ->
      saved = item :: take 4 (listed w)
      /\ ((length (listed w) < 5)%nat -> saved = item :: listed w)).
Proof.
  intros Hw Hnodup Hbound saved. subst saved.
  destruct (record_healthy item w Hw) as [Hw' Hrecorded].
  split; [apply getHistoryItems_healthy, Hw' |].
  rewrite Hrecorded. unfold recorded, MAX_HISTORY_ITEMS.
  split; [reflexivity |].
  fold (removed (hi_id item) (listed w)).
  split.
  - intros Hin.
    pose proof (length_removed_listed (hi_id item) (listed w) Hnodup Hin) as Hlength.
    rewrite take_ge by (cbn [length]; lia).
    split; [cbn [length]; exact Hlength |].
    intros other Hother Hne. right. unfold removed.
    apply list_elem_of_filter. split; assumption.
  - intros Hout.
    assert (removed (hi_id item) (listed w) = listed w) as ->.
    { apply filter_none_out. intros y Hy Hsame. apply Hout. rewrite <- Hsame.
      apply list_elem_of_fmap. eexists. split; [reflexivity | exact Hy]. }
    split; [reflexivity |].
    intros Hroom. rewrite take_ge by (cbn [length]; lia). reflexivity.
Qed.

(** Five items on the example tab, then the oldest saved again: it moves
    to the front and nothing is lost. *)
Lemma X10_history_eviction_witness :
  let w := applyOps [OpRecord (exampleItem "a"); OpRecord (exampleItem "b");
                     OpRecord (exampleItem "c"); OpRecord (exampleItem "d");
                     OpRecord (exampleItem "e")] (exampleWorld (fun _ => 0%Q)) in
  length (listed (exec (saveHistoryItem (exampleItem "a")) w)) = 5%nat
  /\ listed (exec (saveHistoryItem (exampleItem "a")) w) !! 0%nat = Some (exampleItem "a").
Proof.
  intros w.
  destruct (X10_history_eviction (exampleItem "a") w) as (_ & Hfirst & Hsame & _).
  - intros op. reflexivity.
  - apply (bool_decide_unpack _). vm_compute. exact I.
  - vm_compute. lia.
  - split; [| exact Hfirst].
    destruct Hsame as [-> _]; [| reflexivity].
    apply (bool_decide_unpack _). vm_compute. exact I.
Defined.

(* ===================================================================== *)
(** ** Further properties of the mock endpoint and its retry loop         *)
(* ===================================================================== *)

Section Attempts.

Lemma validateGenerationRequest_world (request : GenerationRequest) (w : World) :
  (validateGenerationRequest request w).2 = w.
Proof.
  unfold validateGenerationRequest, bind, now.
  repeat match goal with |- context [if ?b then _ else _] => destruct b end; reflexivity.
Qed.

Lemma validateGenerationRequest_invalid (request : GenerationRequest) (w : World) :
  validRequest request = false ->
  exists e, validateGenerationRequest request w = (Throw (ThrownApiError e), w)
            /\ err_name e = "ApiError"
            /\ err_code e = "VALIDATION_ERROR"
            /\ err_retryable e = false
            /\ err_timestamp e = clock w
            /\ err_message e
               ∈ [ "Image data URL is required"; "Prompt is required";
                   "Prompt is too long (max 500 characters)"; "Invalid style option";
                   "Invalid image data URL format" ].
Proof.
  unfold validRequest, validateGenerationRequest, bind, now. intros Hinvalid.
  destruct (JsString.truthy (req_imageDataUrl request)); cbn [negb andb orb] in *;
    [| eexists; split; [reflexivity | repeat split; set_solver]].
  destruct (JsString.truthy (req_prompt request)); cbn [negb andb orb] in *;
    [| eexists; split; [reflexivity | repeat split; set_solver]].
  destruct (String.length (JsString.trim (req_prompt request)) =? 0)%nat;
    cbn [negb andb orb] in *;
    [eexists; split; [reflexivity | repeat split; set_solver] |].
  destruct (500 <? String.length (JsString.trim (req_prompt request)))%nat;
    cbn [negb andb orb] in *;
    [eexists; split; [reflexivity | repeat split; set_solver] |].
  destruct (isValidStyle (req_style request)); cbn [negb andb orb] in *;
    [| eexists; split; [reflexivity | repeat split; set_solver]].
  rewrite Hinvalid. cbn [negb].
  eexists; split; [reflexivity | repeat split; set_solver].
Qed.

(** The endpoint called with a request it rejects: no draw, no wait. *)
Lemma generateImage_invalid (request : GenerationRequest) (signal : option nat)
    (e : ApiError) (w : World) :
  validateGenerationRequest request (with_endpointCalls S w)
  = (Throw (ThrownApiError e), with_endpointCalls S w) ->
  generateImage request signal w
  = Settled (Throw (ThrownApiError e)) (with_endpointCalls S w).
Proof.
  intros Hrejected. unfold generateImage.
  rewrite await_lift. cbn [modify]. rewrite await_lift, Hrejected. reflexivity.
Qed.

(** Every call of the endpoint counts once, however it ends. *)
Lemma generateImage_counted (request : GenerationRequest) (signal : option nat)
    (w : World) :
  endpointCalls (settle (generateImage request signal w)).2 = S (endpointCalls w).
Proof.
  unfold generateImage. rewrite settle_await_lift. cbn [modify].
  rewrite settle_await_lift.
  pose proof (validateGenerationRequest_world request (with_endpointCalls S w)) as Hworld.
  destruct (validateGenerationRequest request (with_endpointCalls S w)) as [[[] | e] w1];
    cbn [snd] in Hworld; subst w1; [| reflexivity].
  rewrite settle_await_lift. cbn [drawProcessingTime bind Math_random ret].
  rewrite settle_await, settle_delay.
  unfold afterProcessing. rewrite settle_await_lift. cbn [signal_aborted].
  match goal with |- context [if ?b then _ else _] => destruct b end;
    [rewrite settle_reject; reflexivity |].
  rewrite settle_await_lift. cbn [shouldSimulateError bind Math_random ret].
  match goal with |- context [if ?b then _ else _] => destruct b end.
  - rewrite settle_await_lift. cbn. reflexivity.
  - rewrite settle_lift. cbn. reflexivity.
Qed.

Lemma retryLoop_counted (request : GenerationRequest) (config : RetryConfig)
    (signal : option nat) (callback : option (nat -> ApiError -> Sync unit)) :
  (forall attempt e w,
      endpointCalls (exec (callRetry callback attempt e) w) = endpointCalls w) ->
  forall (remaining attempt : nat) (lastError : option ApiError) (w : World),
    (endpointCalls w + Nat.min 1 remaining
     <= endpointCalls (settle (retryLoop request config signal callback
                                 remaining attempt lastError w)).2
     <= endpointCalls w + remaining)%nat.
Proof.
  intros Hcallback remaining.
  induction remaining as [| remaining IH]; intros attempt lastError w.
  - cbn [retryLoop]. rewrite settle_reject. cbn [snd]. lia.
  - rewrite settle_retryLoop.
    pose proof (generateImage_counted request signal w) as Hcalled.
    destruct (settle (generateImage request signal w)) as [[response | thrown] w1];
      cbn [snd] in Hcalled; [cbn [snd]; lia |].
    destruct (abortedIn signal w1); [cbn [snd]; lia |].
    destruct (isApiError thrown) as [apiError |]; [| cbn [snd]; lia].
    destruct (negb (err_retryable apiError)); [cbn [snd]; lia |].
    destruct (attempt =? maxAttempts config)%nat; [cbn [snd]; lia |].
    pose proof (Hcallback attempt apiError w1) as Hkept. unfold exec in Hkept.
    destruct (callRetry callback attempt apiError w1) as [[[] | e] w2];
      cbn [snd] in Hkept |- *; [| lia].
    pose proof (IH (S attempt) (Some apiError) (backedOff config attempt w2)) as Hrest.
    change (endpointCalls (backedOff config attempt w2)) with (endpointCalls w2) in Hrest.
    lia.
Qed.

End Attempts.

(** X11. A request that fails the endpoint's validation is not retried.
    Whatever the retry configuration (with at least one attempt) and the
    retry observer, [generateImageWithRetry] settles at once, without a
    timer: the endpoint has been called once, no random draw has been
    taken, the observer has not been called, and the rejection is the
    non-retryable [VALIDATION_ERROR] of the first check that failed. If
    the signal is already aborted, the rejection is "Request aborted"
    instead. *)
Theorem X11_invalid_request_not_retried (request : GenerationRequest)
    (config : RetryConfig) (signal : option nat)
    (callback : option (nat -> ApiError -> Sync unit)) (w : World) :
  validRequest request = false ->
  (1 <= maxAttempts config)%nat ->
  exists e,
    generateImageWithRetry request config signal callback w
    = Settled (Throw (if abortedIn signal w then ThrownError "Request aborted"
                      else ThrownApiError e))
              (with_endpointCalls S w)
    /\ err_code e = "VALIDATION_ERROR"
    /\ err_retryable e = false
    /\ err_message e
       ∈ [ "Image data URL is required"; "Prompt is required";
           "Prompt is too long (max 500 characters)"; "Invalid style option";
           "Invalid image data URL format" ]
    /\ (JsString.truthy (req_imageDataUrl request) = false ->
        err_message e = "Image data URL is required").
Proof.
  intros Hinvalid Hattempts.
  destruct (validateGenerationRequest_invalid request (with_endpointCalls S w) Hinvalid)
    as (e & Hrejected & _ & Hcode & Hretryable & _ & Hmessage).
  exists e. split; [| split; [exact Hcode |]; split; [exact Hretryable |];
                     split; [exact Hmessage |]].
  - unfold generateImageWithRetry.
    destruct (maxAttempts config) as [| remaining]; [lia |].
    cbn [retryLoop]. unfold await at 1, reify.
    rewrite (generateImage_invalid request signal e w Hrejected).
    cbn [Run_reify Run_bind]. rewrite await_lift. cbn [signal_aborted].
    change (abortedIn signal (with_endpointCalls S w)) with (abortedIn signal w).
    destruct (abortedIn signal w); [reflexivity |].
    cbn [isApiError]. rewrite Hretryable. reflexivity.
  - intros Hmissing. revert Hrejected.
    unfold validateGenerationRequest, bind, now. rewrite Hmissing. cbn [negb].
    intros [= <-]. reflexivity.
Qed.

(** The request of the end-to-end scenario with its prompt left blank. *)
Lemma X11_invalid_request_not_retried_witness :
  exists e,
    generateImageWithRetry
      {| req_imageDataUrl := "data:image/png;base64,AAAA"; req_prompt := "   ";
         req_style := "editorial"; req_requestId := None |}
      RETRY_CONFIG None None (exampleWorld (fun _ => 0%Q))
    = Settled (Throw (ThrownApiError e))
              (with_endpointCalls S (exampleWorld (fun _ => 0%Q)))
    /\ err_message e = "Prompt is required".
Proof.
  destruct (X11_invalid_request_not_retried
              {| req_imageDataUrl := "data:image/png;base64,AAAA"; req_prompt := "   ";
                 req_style := "editorial"; req_requestId := None |}
              RETRY_CONFIG None None (exampleWorld (fun _ => 0%Q)))
    as (e & Hrun & _).
  - reflexivity.
  - cbn. lia.
  - exists e. split; [exact Hrun |].
    revert Hrun. vm_compute. intros [= <-]. reflexivity.
Defined.

(** X12. [generateImageWithRetry] calls the endpoint at most
    [config.maxAttempts] times, whatever the request, the draws and the
    state of the signal, and at least once when [maxAttempts] is positive
    (the retry observer being one that leaves the call counter alone).
    With [maxAttempts] at 0 it calls nothing and rejects at once with
    "Maximum retry attempts exceeded". *)
Theorem X12_attempts_bounded (request : GenerationRequest) (config : RetryConfig)
    (signal : option nat) (callback : option (nat -> ApiError -> Sync unit)) (w : World) :
  (forall attempt e w,
      endpointCalls (exec (callRetry callback attempt e) w) = endpointCalls w) ->
  let w' := (settle (generateImageWithRetry request config signal callback w)).2 in
  (endpointCalls w' <= endpointCalls w + maxAttempts config)%nat
  /\ ((1 <= maxAttempts config)%nat -> (endpointCalls w + 1 <= endpointCalls w')%nat)
  /\ (maxAttempts config = 0%nat ->
      generateImageWithRetry request config signal callback w
      = Settled (Throw (ThrownError "Maximum retry attempts exceeded")) w).
Proof.
  intros Hcallback w'. subst w'. unfold generateImageWithRetry.
  pose proof (retryLoop_counted request config signal callback Hcallback
                (maxAttempts config) 1 None w) as Hcounted.
  split; [lia |]. split; [lia |].
  intros ->. reflexivity.
Qed.

(** The store's retry observer, on the example tab with draws that make
    every attempt fail: three calls at most. *)
Lemma X12_attempts_bounded_witness :
  (endpointCalls
     (settle (generateImageWithRetry exampleRequest RETRY_CONFIG None
                (onRetry actions.generationOptions)
                (exampleWorld (fun _ => 1 # 10)))).2
   <= 3)%nat.
Proof.
  apply (X12_attempts_bounded exampleRequest RETRY_CONFIG None
           (onRetry actions.generationOptions) (exampleWorld (fun _ => 1 # 10))).
  intros attempt e w. reflexivity.
Defined.

Section CancelAll.

Lemma abort_all_length (held : list (string * nat)) (cs : list bool) :
  length (foldr (fun kv acc => <[kv.2 := true]> acc) cs held) = length cs.
Proof.
  induction held as [| kv held IH]; [reflexivity |].
  cbn [foldr]. rewrite length_insert. exact IH.
Qed.

Lemma abort_all_lookup (held : list (string * nat)) (cs : list bool) (address : nat) :
  foldr (fun kv acc => <[kv.2 := true]> acc) cs held !! address
  = if bool_decide (address ∈ held.*2) then (fun _ => true) <$> cs !! address
    else cs !! address.
Proof.
  induction held as [| [id c] held IH]; cbn [foldr fmap list_fmap snd].
  - rewrite bool_decide_false by (apply not_elem_of_nil). reflexivity.
  - destruct (decide (address = c)) as [-> | Hne].
    + rewrite bool_decide_true by left.
      destruct (decide (c < length cs)%nat) as [Hlt | Hge].
      * rewrite list_lookup_insert_eq by (rewrite abort_all_length; exact Hlt).
        apply lookup_lt_is_Some_2 in Hlt as [b ->]. reflexivity.
      * rewrite list_insert_ge by (rewrite abort_all_length; lia).
        rewrite IH, (lookup_ge_None_2 cs c) by lia.
        destruct (bool_decide (c ∈ held.*2)); reflexivity.
    + rewrite list_lookup_insert_ne by congruence. rewrite IH.
      destruct (bool_decide_reflect (address ∈ held.*2)) as [Hin | Hout].
      * rewrite bool_decide_true by (right; exact Hin). reflexivity.
      * rewrite bool_decide_false; [reflexivity |].
        intros [Heq | Hin]%elem_of_cons; [congruence | exact (Hout Hin)].
Qed.

Lemma cancelAllRequests_eq (w : World) :
  RequestManager.cancelAllRequests w
  = (Normal tt,
     with_activeRequests (fun _ => ∅)
       (with_controllers
          (fun cs => foldr (fun kv acc => <[kv.2 := true]> acc) cs
                       (map_to_list (activeRequests w))) w)).
Proof. reflexivity. Qed.

End CancelAll.

(** X14. [cancelAllRequests] (and [cancelAllGenerations], which calls it)
    aborts the controller of every request the manager holds and forgets
    them all: afterwards no request is active and the count is 0; the
    controller of each request that was held has its flag set, so that the
    request in flight observes the cancellation; every other controller
    keeps its flag. *)
Theorem X14_cancel_all_requests (w : World) :
  let w' := exec cancelAllGenerations w in
  activeRequests w' = ∅
  /\ (RequestManager.getActiveRequestCount w').1 = Normal 0%nat
  /\ (forall requestId, (RequestManager.isRequestActive requestId w').1 = Normal false)
  /\ (forall requestId address,
        activeRequests w !! requestId = Some address ->
        (address < length (controllers w))%nat ->
        abortedIn (Some address) w' = true)
  /\ (forall address,
        (forall requestId, activeRequests w !! requestId <> Some address) ->
        controllers w' !! address = controllers w !! address).
Proof.
  intros w'. subst w'. unfold exec, cancelAllGenerations.
  rewrite cancelAllRequests_eq. cbn [snd].
  split; [reflexivity |]. split; [reflexivity |]. split; [reflexivity |].
  split.
  - intros requestId address Hheld Hlt. unfold abortedIn.
    cbn [controllers with_activeRequests with_controllers].
    rewrite abort_all_lookup, bool_decide_true.
    + apply lookup_lt_is_Some_2 in Hlt as [b ->]. reflexivity.
    + apply list_elem_of_fmap. exists (requestId, address).
      split; [reflexivity |]. apply elem_of_map_to_list, Hheld.
  - intros address Hfree. cbn [controllers with_activeRequests with_controllers].
    rewrite abort_all_lookup, bool_decide_false; [reflexivity |].
    intros ([requestId c] & Heq & Hin)%list_elem_of_fmap. cbn in Heq. subst c.
    apply elem_of_map_to_list in Hin. exact (Hfree requestId Hin).
Qed.

(** X15. The health check never reports the service offline.
    [getApiStatus] waits once, for 50 ms plus a hundred times a draw, and
    then, whatever happened in the tab meanwhile, resolves with [online]
    set, the configured error rate of 0.2, the time that has passed on the
    clock as latency and the number of requests the manager holds at that
    moment. With draws in [0, 1) the wait is at least 50 ms and at most
    150 ms. *)
Theorem X15_api_status_online (w : World) :
  at_settlement
    (fun c w' =>
       exists apiStatus,
         c = Normal apiStatus
         /\ online apiStatus = true
         /\ as_errorRate apiStatus = ERROR_RATE
         /\ latency apiStatus = (clock w' - clock w)%Z
         /\ as_activeRequests apiStatus = size (activeRequests w'))
    (getApiStatus w)
  /\ delays (getApiStatus w) = [(random w (drawn w) * 100 + 50)%Q]
  /\ (unit_draws w ->
      (50 <= random w (drawn w) * 100 + 50)%Q /\ (random w (drawn w) * 100 + 50 <= 150)%Q).
Proof.
  split; [| split].
  - unfold getApiStatus. rewrite await_lift. cbn [now].
    unfold await at 1, reify at 1. rewrite await_lift. cbn [Math_random].
    cbn [await delay Run_bind Run_reify at_settlement].
    intros w'. rewrite await_lift. cbn [now].
    rewrite await_lift. cbn [RequestManager.getActiveRequestCount bind get ret].
    cbn. eexists. split; [reflexivity |]. repeat split.
  - reflexivity.
  - intros Hdraws. destruct (Hdraws (drawn w)) as [Hr0 Hr1]. split; lra.
Qed.

Section BackoffGrowth.

Local Open Scope Q_scope.

Lemma backoffDelay_le_max (config : RetryConfig) (attempt : nat) :
  backoffDelay config attempt <= maxDelay config.
Proof. unfold backoffDelay. apply Q.le_min_r. Qed.

Lemma backoffDelay_grows (config : RetryConfig) (attempt : nat) :
  0 <= baseDelay config -> 1 <= backoffMultiplier config ->
  backoffDelay config attempt <= backoffDelay config (S attempt).
Proof.
  intros Hbase Hmultiplier. unfold backoffDelay.
  apply Q.min_le_compat_r.
  rewrite (Qmult_comm (baseDelay config)), (Qmult_comm (baseDelay config)).
  apply Qmult_le_compat_r; [| exact Hbase].
  apply Qpower_le_compat_l; [lia | exact Hmultiplier].
Qed.

Lemma backoffDelay_default_capped (attempt : nat) :
  (4 <= attempt)%nat -> backoffDelay RETRY_CONFIG attempt == 8000.
Proof.
  intros Hattempt. apply Qle_antisym; [apply (backoffDelay_le_max RETRY_CONFIG) |].
  induction Hattempt as [| attempt _ IH]; [rewrite backoffDelay_default_4; apply Qle_refl |].
  eapply Qle_trans; [exact IH |].
  apply backoffDelay_grows; [discriminate | discriminate].
Qed.

End BackoffGrowth.

(** X17. The capped exponential delay of the retry loop, before jitter:
    with a base delay that is not negative and a multiplier of at least
    1, it never decreases from one attempt to the next, and it never
    exceeds [maxDelay]. Under the default configuration it is 1000, 2000
    and 4000 ms for attempts 1, 2 and 3, and 8000 ms, the cap, for every
    attempt from the fourth on. *)
Theorem X17_backoff_grows_to_cap (config : RetryConfig) (attempt : nat) :
  (0 <= baseDelay config)%Q ->
  (1 <= backoffMultiplier config)%Q ->
  (backoffDelay config attempt <= backoffDelay config (S attempt))%Q
  /\ (backoffDelay config attempt <= maxDelay config)%Q
  /\ (backoffDelay RETRY_CONFIG 1 == 1000)%Q
  /\ (backoffDelay RETRY_CONFIG 2 == 2000)%Q
  /\ (backoffDelay RETRY_CONFIG 3 == 4000)%Q
  /\ ((4 <= attempt)%nat -> (backoffDelay RETRY_CONFIG attempt == 8000)%Q).
Proof.
  intros Hbase Hmultiplier.
  split; [apply backoffDelay_grows; assumption |].
  split; [apply backoffDelay_le_max |].
  split; [reflexivity |]. split; [reflexivity |]. split; [reflexivity |].
  apply backoffDelay_default_capped.
Qed.

(** The default configuration at the tenth attempt. *)
Lemma X17_backoff_grows_to_cap_witness :
  (backoffDelay RETRY_CONFIG 10 == 8000)%Q.
Proof.
  destruct (X17_backoff_grows_to_cap RETRY_CONFIG 10) as (_ & _ & _ & _ & _ & Hcap).
  - discriminate.
  - discriminate.
  - apply Hcap. lia.
Defined.

(* ===================================================================== *)
(** ** Further properties of the application store                        *)
(* ===================================================================== *)

Section Form.

Lemma firstMessage_validatePrompt (prompt : string) :
  let n := String.length (JsString.trim prompt) in
  actions.firstMessage (errors (validatePrompt prompt))
  = if (n =? 0)%nat then Some "Prompt is required"
    else if (n <? 3)%nat then Some "Prompt must be at least 3 characters"
    else if (500 <? n)%nat then Some "Prompt must be less than 500 characters"
    else if hasProblematic (JsString.trim prompt)
         then Some "Prompt contains inappropriate content"
         else None.
Proof.
  unfold validatePrompt. rewrite truthy_length.
  set (trimmed := JsString.trim prompt). cbn zeta.
  destruct (Nat.eqb_spec (String.length trimmed) 0);
    destruct (Nat.ltb_spec (String.length trimmed) 3);
    destruct (Nat.ltb_spec 500 (String.length trimmed));
    try lia;
    destruct (hasProblematic trimmed); reflexivity.
Qed.

End Form.

(** X18. What [setPrompt] records in the form. The prompt is kept as
    typed, in the form and in the preview; the field is valid exactly
    when [validatePrompt] accepts the prompt, and it carries an error
    message exactly when it is not valid. The message is that of the
    first rule broken, in the order required, minimal length, maximal
    length, content: a prompt that is too long shows the length message
    even if it also contains a banned word. Nothing else of the store
    changes. *)
Theorem X18_prompt_field (prompt : string) (w : World) :
  let n := String.length (JsString.trim prompt) in
  let state := app (exec (actions.setPrompt prompt) w) in
  let field := form_prompt (form state) in
  pf_value field = prompt
  /\ currentPrompt (preview state) = prompt
  /\ pf_isValid field = isValid (validatePrompt prompt)
  /\ (pf_error field = None <-> pf_isValid field = true)
  /\ pf_error field
     = (if (n =? 0)%nat then Some "Prompt is required"
        else if (n <? 3)%nat then Some "Prompt must be at least 3 characters"
        else if (500 <? n)%nat then Some "Prompt must be less than 500 characters"
        else if hasProblematic (JsString.trim prompt)
             then Some "Prompt contains inappropriate content"
             else None)
  /\ form_style (form state) = form_style (form (app w))
  /\ form_image (form state) = form_image (form (app w))
  /\ generation state = generation (app w)
  /\ history state = history (app w)
  /\ currentImage (preview state) = currentImage (preview (app w)).
Proof.
  intros n state field. subst state field.
  cbn [exec actions.setPrompt setState modify snd app with_app form form_prompt
       pf_value pf_isValid pf_error preview currentPrompt generation history
       form_style form_image currentImage].
  split; [reflexivity |]. split; [reflexivity |]. split; [reflexivity |].
  rewrite firstMessage_validatePrompt, validatePrompt_isValid. fold n.
  split; [| repeat split].
  destruct (Nat.eqb_spec n 0); destruct (Nat.ltb_spec n 3);
    destruct (Nat.ltb_spec 500 n); destruct (Nat.leb_spec 3 n);
    destruct (Nat.leb_spec n 500); try lia;
    destruct (hasProblematic (JsString.trim prompt)); cbn; split; congruence.
Qed.

(** X19. A submission on an incomplete form does nothing.
    [startGeneration] called after [setPrompt] recorded a prompt that
    [validatePrompt] rejects, or after [resetForm], settles at once: it
    logs "Form validation failed" and leaves the store, the request
    manager, the storage and the stream of draws as they were; the
    endpoint is not called. On a form that is valid while the preview
    holds no image, it logs "No image selected" and does nothing else. *)
Theorem X19_incomplete_form_not_submitted (w : World) :
  (forall prompt,
      isValid (validatePrompt prompt) = false ->
      actions.startGeneration (exec (actions.setPrompt prompt) w)
      = Settled (Normal tt)
          (with_console (fun c => c ++ [ConsoleError "Form validation failed"])
             (exec (actions.setPrompt prompt) w)))
  /\ actions.startGeneration (exec actions.resetForm w)
     = Settled (Normal tt)
         (with_console (fun c => c ++ [ConsoleError "Form validation failed"])
            (exec actions.resetForm w))
  /\ ((actions.validateForm w).1 = Normal false ->
      actions.startGeneration w
      = Settled (Normal tt)
          (with_console (fun c => c ++ [ConsoleError "Form validation failed"]) w))
  /\ ((actions.validateForm w).1 = Normal true ->
      currentImage (preview (app w)) = None ->
      actions.startGeneration w
      = Settled (Normal tt)
          (with_console (fun c => c ++ [ConsoleError "No image selected"]) w)).
Proof.
  assert (forall w0 : World,
            (actions.validateForm w0).1 = Normal false ->
            actions.startGeneration w0
            = Settled (Normal tt)
                (with_console (fun c => c ++ [ConsoleError "Form validation failed"]) w0))
    as Hinvalid.
  { intros w0 Hform. unfold actions.startGeneration.
    rewrite await_lift. cbn [getState].
    rewrite await_lift.
    unfold actions.validateForm, bind, getState, ret in *. cbn [fst] in Hform.
    injection Hform as ->. reflexivity. }
  split; [| split; [| split]].
  - intros prompt Hprompt. apply Hinvalid.
    unfold actions.validateForm, bind, getState, ret, exec, actions.setPrompt.
    cbn. rewrite Hprompt. reflexivity.
  - apply Hinvalid. reflexivity.
  - apply Hinvalid.
  - intros Hform Himage. unfold actions.startGeneration.
    rewrite await_lift. cbn [getState].
    rewrite await_lift.
    unfold actions.validateForm, bind, getState, ret in *. cbn [fst] in Hform.
    injection Hform as ->. cbn [negb]. rewrite Himage. reflexivity.
Qed.

(** X20. [retryGeneration] does nothing unless a request is recorded and
    [canRetry] is set: the tab is left as it was, and no submission is
    started. In particular it does nothing right after
    [abortGeneration], which clears [canRetry]. *)
Theorem X20_retry_guard (w : World) :
  (currentRequest (generation (app w)) = None \/ canRetry (generation (app w)) = false ->
   actions.retryGeneration w = Settled (Normal tt) w)
  /\ actions.retryGeneration (exec actions.abortGeneration w)
     = Settled (Normal tt) (exec actions.abortGeneration w).
Proof.
  assert (forall w0 : World,
            currentRequest (generation (app w0)) = None
            \/ canRetry (generation (app w0)) = false ->
            actions.retryGeneration w0 = Settled (Normal tt) w0) as Hguard.
  { intros w0 Hoff. unfold actions.retryGeneration.
    rewrite await_lift. cbn [getState].
    destruct (currentRequest (generation (app w0))) as [request |]; [| reflexivity].
    destruct Hoff as [Hnone | ->]; [discriminate | reflexivity]. }
  split; [apply Hguard |].
  apply Hguard. right.
  unfold exec, actions.abortGeneration, bind. cbn [getState].
  destruct (match currentRequest (generation (app w)) ≫= req_requestId with
            | Some requestId =>
                if JsString.truthy requestId then cancelGeneration requestId else ret tt
            | None => ret tt
            end w) as [[[] | e] w1] eqn:Hcancel; [reflexivity |].
  exfalso. destruct (currentRequest (generation (app w)) ≫= req_requestId) as [id |];
    [| discriminate].
  destruct (JsString.truthy id); [| discriminate].
  unfold cancelGeneration in Hcancel. rewrite cancelRequest_eq in Hcancel. discriminate.
Qed.

Section StoreHistory.

Local Abbreviation HISTORY := STORAGE_KEYS.HISTORY.

Lemma only_storage_getHistoryItems (w : World) :
  only_storage w (exec getHistoryItems w).
Proof.
  unfold exec, getHistoryItems, bind at 1, now. unfold bind.
  pose proof (only_storage_getItem HISTORY
                {| hst_items := []; hst_lastUpdated := clock w; hst_version := 1 |} w)
    as Hframe.
  unfold exec in Hframe.
  destruct (getItem HISTORY _ w) as [[h | e] w1]; cbn [snd] in *; [| exact Hframe].
  destruct (hst_version h <? 1)%Z; [| exact Hframe].
  refine (only_storage_trans _ _ _ Hframe _). repeat split.
Qed.

Lemma app_rewriteHistory (f : list HistoryItem -> list HistoryItem) (e : CustomEvent)
    (w : World) :
  app (exec (rewriteHistory f e) w) = app w.
Proof.
  unfold exec, rewriteHistory, bind at 1.
  pose proof (only_storage_getHistoryItems w) as Hread. unfold exec in Hread.
  destruct (getHistoryItems w) as [[history | thrown] w1]; cbn [snd] in *;
    [| apply Hread].
  unfold bind, now.
  pose proof (only_storage_setItem HISTORY
                {| hst_items := f history; hst_lastUpdated := clock w1; hst_version := 1 |}
                w1) as Hwrite.
  unfold exec in Hwrite.
  destruct (setItem HISTORY _ w1) as [[[] | thrown] w2]; cbn [snd] in *.
  - cbn. destruct Hread as [<- _]. apply Hwrite.
  - destruct Hread as [<- _]. apply Hwrite.
Qed.

Lemma app_clearHistory (w : World) : app (exec clearHistory w) = app w.
Proof.
  unfold exec, clearHistory, bind.
  pose proof (only_storage_removeItem HISTORY w) as Hframe. unfold exec in Hframe.
  destruct (removeItem HISTORY w) as [[[] | thrown] w1]; cbn [snd] in *; apply Hframe.
Qed.

Lemma app_applyOp (op : HistoryOp) (w : World) : app (exec (applyOp op) w) = app w.
Proof.
  destruct op as [item | id | id |]; cbn [applyOp].
  - apply (app_rewriteHistory (recorded item)).
  - apply (app_rewriteHistory (removed id)).
  - apply (app_rewriteHistory (toggled id)).
  - apply app_clearHistory.
Qed.

(** [loadHistory] copies into the store the list [getHistoryItems]
    returns. *)
Lemma loadHistory_spec (w : World) :
  exists w1,
    actions.loadHistory w
    = (Normal tt,
       with_app (with_history (fun h =>
         {| hs_items := readList w; hs_maxItems := hs_maxItems h;
            hs_currentItem := hs_currentItem h |})) w1)
    /\ only_storage w w1
    /\ entries w1 !! HISTORY = entries w !! HISTORY.
Proof.
  unfold actions.loadHistory, bind.
  pose proof (only_storage_getHistoryItems w) as Hframe. unfold exec in Hframe.
  destruct (getHistoryItems_spec w) as (w1 & Hrun & [_ Hentries] & _).
  rewrite Hrun in *. cbn [snd] in Hframe.
  exists w1. split; [reflexivity |]. split; assumption.
Qed.

Lemma readList_same (w w' : World) :
  throws w' = throws w -> entries w' !! HISTORY = entries w !! HISTORY ->
  readList w' = readList w.
Proof.
  intros Hthrows Hentries. unfold readList, listed, readable, probeOk.
  rewrite Hthrows, Hentries. reflexivity.
Qed.

(** After [loadHistory] the store shows what the storage returns. *)
Lemma loadHistory_shown (w : World) :
  let w' := exec actions.loadHistory w in
  hs_items (history (app w')) = readList w
  /\ readList w' = readList w
  /\ hs_currentItem (history (app w')) = hs_currentItem (history (app w))
  /\ throws w' = throws w
  /\ entries w' !! HISTORY = entries w !! HISTORY
  /\ dispatched w' = dispatched w.
Proof.
  intros w'. subst w'. unfold exec.
  destruct (loadHistory_spec w)
    as (w1 & -> & (Happ & _ & _ & Hthrows & Hdispatched & _) & Hentries).
  cbn. rewrite Happ. repeat split; try assumption.
  apply readList_same; assumption.
Qed.

End StoreHistory.

(** X21. What [abortGeneration] does, and to which request. Whatever the
    state of the store, it leaves the generation slice [aborted], with
    progress 0, no error and [canRetry] cleared, keeping the recorded
    request, the result and the retry count, and clears [isGenerating].
    When the request recorded in the store has a non-empty id, that
    request is cancelled in the request manager: it is no longer active,
    and the controller the manager held for it is aborted. No other
    request is touched: every other request stays active and its
    controller keeps its flag. With no id recorded, or an empty one, the
    manager is left as it was. The storage and the events are untouched. *)
Theorem X21_abort_touches_own_request (w : World) :
  let w' := exec actions.abortGeneration w in
  let own := currentRequest (generation (app w)) ≫= req_requestId in
  status (generation (app w')) = aborted
  /\ progress (generation (app w')) = 0%Z
  /\ gen_error (generation (app w')) = None
  /\ canRetry (generation (app w')) = false
  /\ isGenerating (preview (app w')) = false
  /\ currentRequest (generation (app w')) = currentRequest (generation (app w))
  /\ result (generation (app w')) = result (generation (app w))
  /\ retryCount (generation (app w')) = retryCount (generation (app w))
  /\ entries w' = entries w
  /\ dispatched w' = dispatched w
  /\ (forall requestId,
        own = Some requestId ->
        JsString.truthy requestId = true ->
        activeRequests w' !! requestId = None
        /\ (RequestManager.isRequestActive requestId w').1 = Normal false
        /\ forall address,
             activeRequests w !! requestId = Some address ->
             (address < length (controllers w))%nat ->
             controllers w' !! address = Some true
             /\ abortedIn (Some address) w' = true)
  /\ (forall requestId,
        own <> Some requestId ->
        activeRequests w' !! requestId = activeRequests w !! requestId)
  /\ (forall address,
        (forall requestId, own = Some requestId ->
                           activeRequests w !! requestId <> Some address) ->
        controllers w' !! address = controllers w !! address)
  /\ (own = None \/ own = Some "" ->
      activeRequests w' = activeRequests w /\ controllers w' = controllers w).
Proof.
  intros w' own. subst w' own.
  unfold exec, actions.abortGeneration, bind. cbn [getState].
  destruct (currentRequest (generation (app w)) ≫= req_requestId) as [id |].
  2: { cbn. do 10 (split; [reflexivity |]).
       split; [intros requestId Hown; discriminate Hown |].
       split; [reflexivity |]. split; [reflexivity |].
       intros _. split; reflexivity. }
  destruct (JsString.truthy id) eqn:Htruthy.
  2: { cbn. do 10 (split; [reflexivity |]).
       split; [intros requestId [= <-] Hid; congruence |].
       split; [reflexivity |]. split; [reflexivity |].
       intros _. split; reflexivity. }
  assert (Some id <> Some "") as Hnonempty.
  { intros [= ->]. discriminate Htruthy. }
  unfold cancelGeneration. rewrite cancelRequest_eq.
  destruct (activeRequests w !! id) as [c |] eqn:Hheld.
  2: { cbn. do 10 (split; [reflexivity |]).
       split.
       { intros requestId [= <-] _. rewrite Hheld.
         split; [reflexivity |]. split; [reflexivity |].
         intros address Haddress. discriminate Haddress. }
       split; [reflexivity |]. split; [reflexivity |].
       intros [Hown | Hown]; [discriminate Hown | contradiction]. }
  cbn. do 10 (split; [reflexivity |]).
  split.
  { intros requestId [= <-] _. rewrite lookup_delete_eq.
    split; [reflexivity |]. split; [reflexivity |].
    intros address Haddress Hlt.
    rewrite Hheld in Haddress. injection Haddress as <-.
    rewrite list_lookup_insert_eq by exact Hlt. split; reflexivity. }
  split.
  { intros requestId Hother. apply lookup_delete_ne. congruence. }
  split.
  { intros address Hfree. apply list_lookup_insert_ne.
    intros <-. exact (Hfree id eq_refl Hheld). }
  intros [Hown | Hown]; [discriminate Hown | contradiction].
Qed.

(** The example tab while a submission is under way: its request is
    registered under "id-0" with the controller at address 0. *)
Lemma X21_abort_touches_own_request_witness :
  let w := registered "id-0" (started (exampleWorld (fun _ => 1 # 2)) exampleImage) in
  activeRequests w !! "id-0" = Some 0%nat
  /\ activeRequests (exec actions.abortGeneration w) !! "id-0" = None
  /\ abortedIn (Some 0%nat) (exec actions.abortGeneration w) = true.
Proof.
  intros w. split; [reflexivity |].
  destruct (X21_abort_touches_own_request w)
    as (_ & _ & _ & _ & _ & _ & _ & _ & _ & _ & Hown & _).
  destruct (Hown "id-0" eq_refl eq_refl) as (Hgone & _ & Haborted).
  split; [exact Hgone |].
  destruct (Haborted 0%nat eq_refl) as [_ Hflag]; [vm_compute; lia | exact Hflag].
Defined.

(** X22. [clearAllHistory] empties the list the store shows and drops the
    selected item whether or not the persisted history could be removed,
    and dispatches [historyCleared]. When the store refuses the removal,
    the persisted items are still there, and the next [loadHistory] shows
    them again; when it accepts, the persisted history is empty. *)
Theorem X22_clear_all_history (w : World) :
  let w' := exec actions.clearAllHistory w in
  hs_items (history (app w')) = []
  /\ hs_currentItem (history (app w')) = None
  /\ dispatched w' = dispatched w ++ [historyCleared]
  /\ storedItems w'
     = (if removable w STORAGE_KEYS.HISTORY then [] else storedItems w)
  /\ hs_items (history (app (exec actions.loadHistory w')))
     = (if removable w STORAGE_KEYS.HISTORY then [] else readList w).
Proof.
  intros w'. subst w'. unfold exec at 1 2 3 4 6, actions.clearAllHistory, bind.
  destruct (clearHistory_spec w) as (w1 & Hrun & Hthrows & Hstored & Hlisted & Hevent).
  rewrite Hrun. cbn [setState modify snd].
  split; [reflexivity |]. split; [reflexivity |].
  split; [exact Hevent |]. split; [exact Hstored |].
  destruct (loadHistory_shown
              (with_app (with_history (fun h =>
                 {| hs_items := []; hs_maxItems := hs_maxItems h;
                    hs_currentItem := None |})) w1)) as (-> & _).
  unfold readList, readable, probeOk.
  change (throws (with_app _ w1)) with (throws w1).
  change (listed (with_app _ w1)) with (listed w1).
  rewrite Hthrows, Hlisted.
  destruct (removable w STORAGE_KEYS.HISTORY); [| reflexivity].
  destruct (_ && _); reflexivity.
Qed.

(** X23. After [loadHistory], [removeFromHistory], [toggleFavorite] or the
    store's [initializeSession], on every store, the list the store shows
    is the list [getHistoryItems] returns: the view never lags behind the
    storage. The selected item is kept as it was, also when it is the
    item just removed. On a store that lets the history be read and
    written the list shown after [removeFromHistory id] has no item of
    that id. *)
Theorem X23_history_view_in_sync (id : string) (w : World) :
  (forall action,
      action ∈ [actions.loadHistory; actions.removeFromHistory id;
                actions.toggleFavorite id; actions.initializeSession] ->
      let w' := exec action w in
      (getHistoryItems w').1 = Normal (hs_items (history (app w')))
      /\ hs_currentItem (history (app w')) = hs_currentItem (history (app w)))
  /\ (usable w STORAGE_KEYS.HISTORY = true ->
      hs_items (history (app (exec (actions.removeFromHistory id) w)))
      = filter (fun item => hi_id item ≠ id) (listed w)).
Proof.
  assert (forall w0 : World,
            let w' := exec actions.loadHistory w0 in
            (getHistoryItems w').1 = Normal (hs_items (history (app w')))
            /\ hs_currentItem (history (app w')) = hs_currentItem (history (app w0)))
    as Hload.
  { intros w0 w'. subst w'.
    destruct (loadHistory_shown w0) as (Hshown & Hread & Hcurrent & _).
    destruct (getHistoryItems_spec (exec actions.loadHistory w0)) as (w2 & -> & _).
    cbn [fst]. rewrite Hshown, Hread. auto. }
  split.
  - intros action Haction.
    repeat (apply elem_of_cons in Haction as [-> | Haction]);
      [| | | | inversion Haction].
    + apply Hload.
    + unfold actions.removeFromHistory, exec, bind.
      pose proof (app_applyOp (OpRemove id) w) as Happ. unfold exec in Happ.
      cbn [applyOp] in Happ.
      destruct (removeHistoryItem_spec id w) as (w1 & Hrun & _).
      rewrite Hrun in *. cbn [snd] in Happ.
      destruct (Hload w1) as [Hsync Hcurrent]. unfold exec in Hsync, Hcurrent.
      rewrite Hcurrent, Happ. auto.
    + unfold actions.toggleFavorite, exec, bind.
      pose proof (app_applyOp (OpToggleFavorite id) w) as Happ. unfold exec in Happ.
      cbn [applyOp] in Happ.
      destruct (toggleHistoryItemFavorite_spec id w) as (w1 & Hrun & _).
      rewrite Hrun in *. cbn [snd] in Happ.
      destruct (Hload w1) as [Hsync Hcurrent]. unfold exec in Hsync, Hcurrent.
      rewrite Hcurrent, Happ. auto.
    + unfold actions.initializeSession, exec, bind.
      pose proof (applySessionOp_spec OpActive w) as [(Happ & _) _].
      unfold exec in Happ. cbn [applySessionOp] in Happ.
      destruct (never_throws_updateSessionActivity w) as ([] & w1 & Hrun).
      rewrite Hrun in *. cbn [snd] in Happ.
      destruct (Hload w1) as [Hsync Hcurrent]. unfold exec in Hsync, Hcurrent.
      rewrite Hcurrent, Happ. auto.
  - intros Husable. unfold actions.removeFromHistory, exec, bind.
    destruct (removeHistoryItem_spec id w) as (w1 & -> & Hthrows & _ & Hlisted & _).
    destruct (loadHistory_shown w1) as (Hshown & _). unfold exec in Hshown.
    rewrite Hshown. unfold readList.
    pose proof Husable as [Hreadable Hwritable]%andb_true_iff.
    replace (readable w1 STORAGE_KEYS.HISTORY) with true
      by (unfold readable, probeOk in *; rewrite Hthrows; symmetry; exact Hreadable).
    rewrite Hlisted, Hwritable. unfold readList. rewrite Hreadable. reflexivity.
Qed.

(** On the example tab with items "a" and "b" recorded, removing "a"
    leaves "b" in the view. *)
Lemma X23_history_view_in_sync_witness :
  let w := applyOps [OpRecord (exampleItem "a"); OpRecord (exampleItem "b")]
             (exampleWorld (fun _ => 0%Q)) in
  hs_items (history (app (exec (actions.removeFromHistory "a") w))) = [exampleItem "b"].
Proof.
  intros w.
  destruct (X23_history_view_in_sync "a" w) as [_ Hremoved].
  rewrite Hremoved by reflexivity. reflexivity.
Defined.

(* ===================================================================== *)
(** ** Random utilities and the modal stack                               *)
(* ===================================================================== *)

(** X25. [randomBetween min max], for integers [min <= max] and a draw in
    [0, 1), returns an integer between [min] and [max], both included,
    and consumes one draw; with [min = max] it returns that value. *)
Theorem X25_randomBetween_range (min max : Z) (w : World) :
  (min <= max)%Z ->
  (0 <= random w (drawn w))%Q -> (random w (drawn w) < 1)%Q ->
  exists n,
    randomBetween min max w = (Normal n, with_drawn S w)
    /\ (min <= n <= max)%Z
    /\ (min = max -> n = min).
Proof.
  intros Hbounds Hr0 Hr1. unfold randomBetween, bind, Math_random, ret.
  eexists. split; [reflexivity |].
  set (r := random w (drawn w)) in *.
  set (x := (r * inject_Z (max - min + 1))%Q).
  assert (0 < inject_Z (max - min + 1))%Q as Hpos.
  { change 0%Q with (inject_Z 0). rewrite <- Zlt_Qlt. lia. }
  assert (0 <= x)%Q as Hlow.
  { subst x. apply Qmult_le_0_compat; [exact Hr0 | apply Qlt_le_weak, Hpos]. }
  assert (x < inject_Z (max - min + 1))%Q as Hhigh.
  { subst x. rewrite <- (Qmult_1_l (inject_Z (max - min + 1))) at 2.
    apply Qmult_lt_compat_r; assumption. }
  assert (0 <= Qfloor x)%Z as Hfloor0.
  { rewrite <- (Qfloor_Z 0). apply Qfloor_resp_le, Hlow. }
  assert (Qfloor x < max - min + 1)%Z as Hfloor1.
  { rewrite Zlt_Qlt. eapply Qle_lt_trans; [apply Qfloor_le | exact Hhigh]. }
  split; [lia |]. intros ->. lia.
Qed.

(** A die: the draw 5/6 gives 6. *)
Lemma X25_randomBetween_range_witness :
  exists n,
    randomBetween 1 6 (exampleWorld (fun _ => 5 # 6))
    = (Normal n, with_drawn S (exampleWorld (fun _ => 5 # 6)))
    /\ (1 <= n <= 6)%Z.
Proof.
  destruct (X25_randomBetween_range 1 6 (exampleWorld (fun _ => 5 # 6)))
    as (n & Hrun & Hrange & _).
  - lia.
  - discriminate.
  - reflexivity.
  - exists n. split; assumption.
Defined.

(** X26. [randomChoice array], for a draw in [0, 1), returns an element
    of the array when the array is not empty, and consumes one draw; on
    the empty array it returns [undefined] (rendered as the empty
    string) whatever the draw. *)
Theorem X26_randomChoice_member (array : list string) (w : World) :
  (0 <= random w (drawn w))%Q -> (random w (drawn w) < 1)%Q ->
  exists choice,
    randomChoice array w = (Normal choice, with_drawn S w)
    /\ (array <> [] -> choice ∈ array)
    /\ (array = [] -> choice = "").
Proof.
  intros Hr0 Hr1. unfold randomChoice, bind, Math_random, ret.
  eexists. split; [reflexivity |]. split.
  - intros Hnonempty.
    assert (0 < length array)%nat as Hlength by (destruct array; [contradiction | cbn; lia]).
    pose proof (randomChoice_index _ (length array) Hr0 Hr1 Hlength) as Hindex.
    destruct (lookup_lt_is_Some_2 array _ Hindex) as [choice Hchoice].
    rewrite Hchoice. cbn [default from_option id].
    apply list_elem_of_lookup. eexists. exact Hchoice.
  - intros ->. reflexivity.
Qed.

(** The pool of mock images with the draw 1/2. *)
Lemma X26_randomChoice_member_witness :
  exists choice,
    randomChoice MOCK_GENERATED_IMAGES (exampleWorld (fun _ => 1 # 2))
    = (Normal choice, with_drawn S (exampleWorld (fun _ => 1 # 2)))
    /\ choice ∈ MOCK_GENERATED_IMAGES.
Proof.
  destruct (X26_randomChoice_member MOCK_GENERATED_IMAGES (exampleWorld (fun _ => 1 # 2)))
    as (choice & Hrun & Hmember & _).
  - discriminate.
  - reflexivity.
  - exists choice. split; [exact Hrun |]. apply Hmember. discriminate.
Defined.

(** X27. The modal stack. [closeModal] without an id pops the modal
    opened last, so that it undoes [openModal]; on the empty stack it
    does nothing. [closeModal] with an id removes every occurrence of
    that modal, also when it was opened twice or is not on top, and keeps
    the other modals in order. An empty id counts as no id: the top modal
    is popped. *)
Theorem X27_modal_stack (modalId : string) (modalStack : list string) :
  actions.closeModal None (actions.openModal modalId modalStack) = modalStack
  /\ actions.closeModal None [] = []
  /\ actions.closeModal (Some "") modalStack = actions.closeModal None modalStack
  /\ (JsString.truthy modalId = true ->
      (modalId ∉ actions.closeModal (Some modalId) modalStack)
      /\ (forall other, other <> modalId ->
            other ∈ actions.closeModal (Some modalId) modalStack <-> other ∈ modalStack)
      /\ actions.closeModal (Some modalId)
           (actions.openModal modalId (actions.openModal modalId modalStack))
         = actions.closeModal (Some modalId) modalStack
      /\ (modalId ∉ modalStack ->
          actions.closeModal (Some modalId) (actions.openModal modalId modalStack)
          = modalStack)).
Proof.
  split; [| split; [reflexivity |]; split; [reflexivity |]].
  - unfold actions.closeModal, actions.openModal.
    rewrite length_app. cbn [length].
    replace (length modalStack + 1 - 1)%nat with (length modalStack) by lia.
    apply take_app_length.
  - intros Htruthy. unfold actions.closeModal, actions.openModal. rewrite Htruthy.
    split; [| split; [| split]].
    + rewrite list_elem_of_filter. intros [Hne _]. apply Hne. reflexivity.
    + intros other Hne. rewrite list_elem_of_filter. tauto.
    + rewrite !filter_app, !filter_cons_False, !filter_nil, !app_nil_r
        by (intros Hne; apply Hne; reflexivity).
      reflexivity.
    + intros Hout.
      rewrite filter_app, filter_cons_False, filter_nil, app_nil_r
        by (intros Hne; apply Hne; reflexivity).
      apply filter_none_out. intros other Hother ->. exact (Hout Hother).
Qed.

(** Settings opened twice over the about box, closed by id. *)
Lemma X27_modal_stack_witness :
  actions.closeModal (Some "settings")
    (actions.openModal "settings" (actions.openModal "settings" ["about"]))
  = ["about"].
Proof.
  destruct (X27_modal_stack "settings" ["about"]) as (_ & _ & _ & Hclose).
  destruct (Hclose eq_refl) as (_ & _ & -> & _). reflexivity.
Defined.

(* ===================================================================== *)
(** ** A successful submission, end to end                                *)
(* ===================================================================== *)

Section Preservation.

Context {X : Type} (proj : World -> X).

Lemma preserves_ret {A} (a : A) : preserves proj (ret a).
Proof. intros w. reflexivity. Qed.

Lemma preserves_now : preserves proj now.
Proof. intros w. reflexivity. Qed.

Lemma preserves_crypto_randomUUID : preserves proj crypto_randomUUID.
Proof. intros w. reflexivity. Qed.

Lemma preserves_bind {A B} (m : Sync A) (f : A -> Sync B) :
  preserves proj m -> (forall a, preserves proj (f a)) -> preserves proj (bind m f).
Proof.
  intros Hm Hf w. unfold bind. specialize (Hm w).
  destruct (m w) as [[a | e] w1]; cbn [snd] in *; [| exact Hm].
  rewrite Hf. exact Hm.
Qed.

Hypothesis Hquiet : quiet proj.

Lemma preserves_console_log (text : string) : preserves proj (console_log text).
Proof. intros w. apply Hquiet. Qed.

Lemma preserves_dispatchEvent (e : CustomEvent) : preserves proj (dispatchEvent e).
Proof. intros w. apply Hquiet. Qed.

Lemma preserves_setState (f : AppState -> AppState) :
  storeless proj -> preserves proj (setState f).
Proof. intros Hstoreless w. apply Hstoreless. Qed.

Lemma preserves_safeStorageOperation {T} (operation : Sync T) (fallback : T)
    (operationName : string) :
  preserves proj operation ->
  preserves proj (safeStorageOperation operation fallback operationName).
Proof.
  destruct Hquiet as (Hprobe & Hconsole & _).
  intros Hop w. rewrite safeStorageOperation_eq.
  destruct (probeOk w).
  - specialize (Hop (afterProbe w)). rewrite Hprobe in Hop.
    destruct (operation (afterProbe w)) as [[v | e] w']; cbn [snd] in *;
      [exact Hop | rewrite Hconsole; exact Hop].
  - cbn [snd]. rewrite Hconsole. apply Hprobe.
Qed.

Lemma preserves_getItem {T} `{Json T} (key : string) (fallback : T) :
  preserves proj (getItem key fallback).
Proof.
  apply preserves_safeStorageOperation. intros w.
  unfold bind, localStorage.getItem.
  destruct (throws w (OpGetItem key)); [reflexivity |].
  destruct (entries w !! key) as [text |]; [| reflexivity].
  unfold JSON_parse. destruct (parse text); reflexivity.
Qed.

Lemma preserves_setItem {T} `{Json T} (key : string) (value : T) :
  ignores key proj -> preserves proj (setItem key value).
Proof.
  intros [Hinsert _]. apply preserves_safeStorageOperation. intros w.
  unfold localStorage.setItem.
  destruct (throws w (OpSetItem key)); [reflexivity | apply Hinsert].
Qed.

Lemma preserves_removeItem (key : string) :
  ignores key proj -> preserves proj (removeItem key).
Proof.
  intros [_ Hdelete]. apply preserves_safeStorageOperation. intros w.
  unfold localStorage.removeItem.
  destruct (throws w (OpRemoveItem key)); [reflexivity | apply Hdelete].
Qed.

Lemma preserves_getHistoryItems : preserves proj getHistoryItems.
Proof.
  unfold getHistoryItems, migrateHistoryV1.
  apply preserves_bind; [apply preserves_now | intros t].
  apply preserves_bind; [apply preserves_getItem | intros h].
  destruct (hst_version h <? 1)%Z; [| apply preserves_ret].
  apply preserves_bind; [apply preserves_console_log | intros _; apply preserves_ret].
Qed.

Lemma preserves_loadHistory : storeless proj -> preserves proj actions.loadHistory.
Proof.
  intros Hstoreless. unfold actions.loadHistory.
  apply preserves_bind; [apply preserves_getHistoryItems | intros items].
  apply preserves_setState, Hstoreless.
Qed.

Lemma preserves_saveHistoryItem (item : HistoryItem) :
  ignores STORAGE_KEYS.HISTORY proj -> preserves proj (saveHistoryItem item).
Proof.
  intros Hignores. unfold saveHistoryItem.
  apply preserves_bind; [apply preserves_getHistoryItems | intros history].
  apply preserves_bind; [apply preserves_now | intros t].
  apply preserves_bind; [apply preserves_setItem, Hignores | intros _].
  apply preserves_dispatchEvent.
Qed.

Lemma preserves_addRecentPrompt (prompt : string) :
  ignores STORAGE_KEYS.PREFERENCES proj -> preserves proj (addRecentPrompt prompt).
Proof.
  intros Hignores. unfold addRecentPrompt, savePreferences, getPreferences.
  apply preserves_bind; [apply preserves_getItem | intros preferences].
  destruct (_ || _); [apply preserves_ret |].
  apply preserves_bind; [apply preserves_getItem | intros current].
  apply preserves_bind; [apply preserves_setItem, Hignores | intros _].
  apply preserves_dispatchEvent.
Qed.

Lemma preserves_getSessionData :
  ignores STORAGE_KEYS.SESSION proj -> preserves proj getSessionData.
Proof.
  intros Hignores. unfold getSessionData, initializeSession.
  apply preserves_bind; [apply preserves_getItem | intros [session |]];
    [apply preserves_ret |].
  apply preserves_bind; [apply preserves_crypto_randomUUID | intros sessionId].
  apply preserves_bind; [apply preserves_now | intros t].
  apply preserves_bind; [apply preserves_setItem, Hignores | intros _].
  apply preserves_ret.
Qed.

Lemma preserves_applySessionOp (op : SessionOp) :
  ignores STORAGE_KEYS.SESSION proj -> preserves proj (applySessionOp op).
Proof.
  intros Hignores. rewrite applySessionOp_touch. unfold touchSession.
  apply preserves_bind; [apply preserves_getSessionData, Hignores | intros session].
  apply preserves_bind; [apply preserves_now | intros t].
  apply preserves_setItem, Hignores.
Qed.

End Preservation.

Section Quiet.

Lemma quiet_app : quiet app.
Proof. repeat split. apply app_afterProbe. Qed.

Lemma quiet_throws : quiet throws.
Proof. repeat split. apply throws_afterProbe. Qed.

Lemma quiet_clock : quiet clock.
Proof. repeat split. intros w. apply (only_storage_afterProbe w). Qed.

Lemma quiet_uuid : quiet uuid.
Proof. repeat split. intros w. apply (only_storage_afterProbe w). Qed.

Lemma quiet_document (key : string) : key <> probeKey -> quiet (document key).
Proof. intros Hkey. repeat split. intros w. apply entries_afterProbe, Hkey. Qed.

Lemma ignores_app (key : string) : ignores key app.
Proof. split; reflexivity. Qed.

Lemma ignores_throws (key : string) : ignores key throws.
Proof. split; reflexivity. Qed.

Lemma ignores_clock (key : string) : ignores key clock.
Proof. split; reflexivity. Qed.

Lemma ignores_uuid (key : string) : ignores key uuid.
Proof. split; reflexivity. Qed.

Lemma ignores_document (key other : string) :
  other <> key -> ignores key (document other).
Proof.
  intros Hne. split; intros; unfold document; cbn [entries with_entries].
  - apply lookup_insert_ne. congruence.
  - apply lookup_delete_ne. congruence.
Qed.

End Quiet.

Section Success.

Lemma generateImage_success (request : GenerationRequest) (signal : option nat)
    (w : World) :
  validRequest request = true ->
  abortedIn signal w = false ->
  Qlt_bool (random w (S (drawn w))) ERROR_RATE = false ->
  settle (generateImage request signal w)
  = (Normal (mockResponseAt request (arrival w)),
     with_drawn S (with_drawn S (with_drawn S (with_drawn S (arrival w))))).
Proof.
  intros Hvalid Haborted Hpasses.
  rewrite settle_generateImage by exact Hvalid.
  rewrite afterProcessing_success; [reflexivity | exact Haborted | exact Hpasses].
Qed.

Lemma attempted_trans (w1 w2 w3 : World) :
  attempted w1 w2 -> attempted w2 w3 -> attempted w1 w3.
Proof.
  unfold attempted. intros (Htab1 & ? & ? & ? & ? & ? & ? & ? & ? & ?)
                           (Htab2 & ? & ? & ? & ? & ? & ? & ? & ? & ?).
  split; [exact (same_tab_trans _ _ _ Htab1 Htab2) |].
  repeat split; congruence.
Qed.

(** The retry loop of the store when the first [k] attempts fail and the
    next one succeeds. *)
Lemma retryLoop_succeeds (request : GenerationRequest) (config : RetryConfig)
    (signal : option nat) :
  validRequest request = true ->
  forall (k remaining attempt : nat) (lastError : option ApiError) (w : World),
    abortedIn signal w = false ->
    (attempt + remaining = S (maxAttempts config))%nat ->
    (k < remaining)%nat ->
    succeedsAfter k w ->
    exists response w',
      settle (retryLoop request config signal (onRetry actions.generationOptions)
                remaining attempt lastError w)
      = (Normal response, w')
      /\ res_prompt response = req_prompt request
      /\ res_style response = req_style request
      /\ res_createdAt response = clock w'
      /\ endpointCalls w' = (endpointCalls w + k + 1)%nat
      /\ retryCount (generation (app w'))
         = (if (k =? 0)%nat then retryCount (generation (app w)) else attempt + k - 1)%nat
      /\ attempted w w'.
Proof.
  intros Hvalid k.
  induction k as [| k IH]; intros remaining attempt lastError w Haborted Hsum Hroom
                                   [Hfails Hpasses];
    (destruct remaining as [| remaining]; [lia |]); rewrite settle_retryLoop.
  - replace (drawn w + 4 * 0 + 1)%nat with (S (drawn w)) in Hpasses by lia.
    rewrite generateImage_success by assumption.
    eexists _, _. split; [reflexivity |].
    split; [reflexivity |]. split; [reflexivity |]. split; [reflexivity |].
    split; [cbn; lia |]. split; [reflexivity |]. repeat split.
  - pose proof (Hfails 0%nat ltac:(lia)) as Hfirst.
    replace (drawn w + 4 * 0 + 1)%nat with (S (drawn w)) in Hfirst by lia.
    rewrite generateImage_failure by assumption.
    rewrite (abortedIn_controllers signal w) by reflexivity.
    rewrite Haborted. cbn [isApiError mockErrorAt err_retryable negb].
    assert ((attempt =? maxAttempts config)%nat = false) as ->
      by (apply Nat.eqb_neq; lia).
    rewrite callRetry_store.
    match goal with
    | |- context [settle (retryLoop _ _ _ _ _ _ _ ?w2)] =>
        destruct (IH remaining (S attempt) (Some (mockErrorAt (arrival w))) w2)
          as (response & w' & Hrun & Hprompt & Hstyle & Htime & Hcalls & Hcount & Hkept)
    end.
    + rewrite (abortedIn_controllers signal w) by reflexivity. exact Haborted.
    + lia.
    + lia.
    + split.
      * intros i Hi. specialize (Hfails (S i) ltac:(lia)).
        cbn [random drawn backedOff elapse noted with_app with_drawn with_console
             with_clock arrival with_endpointCalls].
        replace (S (S (S (S (drawn w)))) + 4 * i + 1)%nat
          with (drawn w + 4 * S i + 1)%nat by lia.
        exact Hfails.
      * cbn [random drawn backedOff elapse noted with_app with_drawn with_console
             with_clock arrival with_endpointCalls].
        replace (S (S (S (S (drawn w)))) + 4 * k + 1)%nat
          with (drawn w + 4 * S k + 1)%nat by lia.
        exact Hpasses.
    + rewrite Hrun. exists response, w'. split; [reflexivity |].
      split; [exact Hprompt |]. split; [exact Hstyle |]. split; [exact Htime |].
      split; [rewrite Hcalls; cbn; lia |].
      split.
      * rewrite Hcount. cbn [Nat.eqb].
        destruct (k =? 0)%nat eqn:Hlast; [| lia].
        apply Nat.eqb_eq in Hlast. cbn. lia.
      * eapply attempted_trans; [| exact Hkept]. repeat split.
Qed.

End Success.
Section SuccessfulSubmission.

Local Abbreviation HISTORY := STORAGE_KEYS.HISTORY.
Local Abbreviation PREFERENCES := STORAGE_KEYS.PREFERENCES.
Local Abbreviation SESSION := STORAGE_KEYS.SESSION.

Lemma uuid_registered (id : string) (w : World) : uuid (registered id w) = uuid w.
Proof.
  unfold registered, exec. rewrite cancelRequest_eq.
  destruct (activeRequests w !! id); reflexivity.
Qed.

Lemma throws_registered (id : string) (w : World) : throws (registered id w) = throws w.
Proof. apply registered_frame. Qed.

Lemma succeedsAfter_same (k : nat) (w w' : World) :
  random w' = random w -> drawn w' = drawn w -> succeedsAfter k w -> succeedsAfter k w'.
Proof.
  intros Hrandom Hdrawn [Hfails Hpasses]. unfold succeedsAfter.
  rewrite Hrandom, Hdrawn. split; assumption.
Qed.

Lemma drawn_progressed (w : World) : drawn (progressed w) = drawn w.
Proof. reflexivity. Qed.

Lemma createGeneration_succeeds (request : GenerationRequest) (id : string)
    (k : nat) (w : World) :
  req_requestId request = Some id ->
  JsString.truthy id = true ->
  validRequest request = true ->
  (k < 3)%nat ->
  succeedsAfter k w ->
  exists response w',
    settle (createGeneration request actions.generationOptions w)
    = (Normal response, w')
    /\ res_prompt response = req_prompt request
    /\ res_style response = req_style request
    /\ endpointCalls w' = (endpointCalls w + k + 1)%nat
    /\ retryCount (generation (app w'))
       = (if (k =? 0)%nat then retryCount (generation (app w)) else k)
    /\ activeRequests w' !! id = None
    /\ generatedFrom w w'.
Proof.
  intros Hid Htruthy Hvalid Hk Hdraws.
  rewrite (settle_createGeneration request id w Hid Htruthy).
  destruct (progressed_registered id w)
    as (Hrandom & Hcalls & Haborted & Hentries & Hdispatched & Hcount).
  unfold generateImageWithRetry. cbn [maxAttempts RETRY_CONFIG].
  destruct (retryLoop_succeeds request RETRY_CONFIG (Some (length (controllers w)))
              Hvalid k 3 1 None (progressed (registered id w)))
    as (response & w' & Hrun & Hprompt & Hstyle & _ & Hcalls' & Hcount' & Hkept).
  - exact Haborted.
  - reflexivity.
  - exact Hk.
  - apply (succeedsAfter_same k w); [exact Hrandom | | exact Hdraws].
    rewrite drawn_progressed. apply registered_frame.
  - rewrite Hrun.
    exists response, (with_activeRequests (delete id) (withProgress 100 w')).
    split; [reflexivity |]. split; [exact Hprompt |]. split; [exact Hstyle |].
    destruct Hkept as ((_ & _ & Hentries' & Hthrows' & Hdispatched' & _) & Huuid'
                       & Hpreview' & Hhistory' & Hform' & Hstatus' & _ & Hrequest' & _).
    unfold generatedFrom.
    cbn [endpointCalls app entries dispatched throws uuid activeRequests
         with_activeRequests withProgress with_app with_generation
         generation preview history form status currentRequest retryCount].
    split; [rewrite Hcalls', Hcalls; reflexivity |].
    split.
    { rewrite Hcount'. destruct (k =? 0)%nat eqn:Hzero; [exact Hcount |].
      apply Nat.eqb_neq in Hzero. lia. }
    split; [apply lookup_delete_eq |].
    pose proof (registered_app id w) as Happ.
    change (app (progressed (registered id w)))
      with (with_generation (fun g =>
              {| status := status g; progress := 90;
                 currentRequest := currentRequest g; result := result g;
                 gen_error := gen_error g; retryCount := retryCount g;
                 canRetry := canRetry g |}) (app (registered id w)))
      in Hpreview', Hhistory', Hform', Hstatus', Hrequest'.
    cbn [with_generation preview history form generation status currentRequest]
      in Hpreview', Hhistory', Hform', Hstatus', Hrequest'.
    rewrite Happ in Hpreview', Hhistory', Hform', Hstatus', Hrequest'.
    change (throws (progressed (registered id w))) with (throws (registered id w))
      in Hthrows'.
    change (uuid (progressed (registered id w))) with (uuid (registered id w)) in Huuid'.
    rewrite throws_registered in Hthrows'. rewrite uuid_registered in Huuid'.
    split; [rewrite Hentries'; exact Hentries |]. split; [exact Hthrows' |].
    split; [rewrite Hdispatched'; exact Hdispatched |].
    repeat split; assumption.
Qed.

Lemma never_throws_exec (m : Sync unit) (w : World) :
  never_throws m -> m w = (Normal tt, exec m w).
Proof.
  intros Hm. unfold exec. destruct (Hm w) as ([] & w' & ->). reflexivity.
Qed.

(** The statements that follow a successful [createGeneration] all
    return. *)
Lemma recordSuccess_eq (response : GenerationResponse) (image : ImageFile)
    (prompt : string) (w : World) :
  recordSuccess response image prompt w
  = (Normal tt,
     applySessionOps [OpGenerated; OpActive]
       (exec (addRecentPrompt (JsString.trim prompt))
          (exec actions.loadHistory
             (exec (saveHistoryItem (actions.historyItemOf response (img_dataUrl image)))
                (succeeded response w))))).
Proof.
  unfold recordSuccess, bind at 1. cbn [setState modify]. fold (succeeded response w).
  unfold bind at 1. rewrite (never_throws_exec _ _ (never_throws_saveHistoryItem _)).
  unfold bind at 1.
  assert (never_throws actions.loadHistory) as Hload.
  { unfold actions.loadHistory. apply never_throws_bind;
      [apply never_throws_getHistoryItems | intros items w0; eexists _, _; reflexivity]. }
  rewrite (never_throws_exec _ _ Hload).
  unfold bind at 1. rewrite (never_throws_exec _ _ (never_throws_addRecentPrompt _)).
  unfold bind. rewrite (never_throws_exec _ _ never_throws_incrementGenerationCount).
  rewrite (never_throws_exec _ _ never_throws_updateSessionActivity).
  reflexivity.
Qed.


Lemma trimStart_head (s : string) :
  match JsString.trimStart s with
  | EmptyString => True
  | String c _ => JsString.isWhiteSpace c = false
  end.
Proof.
  induction s as [| c s IH]; cbn [JsString.trimStart]; [exact I |].
  destruct (JsString.isWhiteSpace c) eqn:Hc; [exact IH | exact Hc].
Qed.

Lemma trimEnd_cons (c : ascii) (s : string) :
  JsString.trimEnd (String c s) =
  match JsString.trimEnd s with
  | EmptyString => if JsString.isWhiteSpace c then EmptyString else String c EmptyString
  | String d t => String c (String d t)
  end.
Proof. reflexivity. Qed.

Lemma trimEnd_idempotent (s : string) :
  JsString.trimEnd (JsString.trimEnd s) = JsString.trimEnd s.
Proof.
  induction s as [| c s IH]; [reflexivity |].
  rewrite (trimEnd_cons c s).
  destruct (JsString.trimEnd s) as [| d t] eqn:Hrest.
  - destruct (JsString.isWhiteSpace c) eqn:Hc; [reflexivity |].
    rewrite trimEnd_cons. cbn [JsString.trimEnd]. rewrite Hc. reflexivity.
  - rewrite (trimEnd_cons c (String d t)), IH. reflexivity.
Qed.

Lemma trimStart_trimEnd (s : string) :
  match s with
  | EmptyString => True
  | String c _ => JsString.isWhiteSpace c = false
  end ->
  JsString.trimStart (JsString.trimEnd s) = JsString.trimEnd s.
Proof.
  destruct s as [| c s]; [reflexivity |]. intros Hc.
  rewrite trimEnd_cons.
  destruct (JsString.trimEnd s) as [| d t]; rewrite ?Hc; cbn [JsString.trimStart];
    rewrite Hc; reflexivity.
Qed.

Lemma trim_idempotent (s : string) : JsString.trim (JsString.trim s) = JsString.trim s.
Proof.
  unfold JsString.trim.
  rewrite (trimStart_trimEnd _ (trimStart_head s)). apply trimEnd_idempotent.
Qed.

Lemma quiet_activeRequests : quiet activeRequests.
Proof. repeat split. intros w. apply (only_storage_afterProbe w). Qed.

Lemma quiet_endpointCalls : quiet endpointCalls.
Proof. repeat split. intros w. apply (only_storage_afterProbe w). Qed.

Lemma sessionOps_keep {X} (proj : World -> X) (ops : list SessionOp) :
  quiet proj -> ignores SESSION proj ->
  forall w, proj (applySessionOps ops w) = proj w.
Proof.
  intros Hquiet Hignores.
  induction ops as [| op ops IH]; intros w; cbn [applySessionOps]; [reflexivity |].
  rewrite IH. unfold exec. apply preserves_applySessionOp; assumption.
Qed.

Lemma recording_keeps {X} (proj : World -> X) (item : HistoryItem) (prompt : string)
    (w : World) :
  quiet proj -> storeless proj ->
  ignores HISTORY proj -> ignores PREFERENCES proj ->
  proj (exec (addRecentPrompt prompt)
          (exec actions.loadHistory (exec (saveHistoryItem item) w)))
  = proj w.
Proof.
  intros Hquiet Hstoreless Hhistory Hpreferences. unfold exec.
  rewrite (preserves_addRecentPrompt proj Hquiet prompt Hpreferences).
  rewrite (preserves_loadHistory proj Hquiet Hstoreless).
  apply (preserves_saveHistoryItem proj Hquiet item Hhistory).
Qed.

Lemma loadHistory_slices (w : World) :
  generation (app (exec actions.loadHistory w)) = generation (app w)
  /\ preview (app (exec actions.loadHistory w)) = preview (app w)
  /\ form (app (exec actions.loadHistory w)) = form (app w).
Proof.
  unfold exec. destruct (loadHistory_spec w) as (w1 & -> & (Happ & _) & _).
  cbn. rewrite Happ. repeat split.
Qed.

Lemma generationCount_same (w w' : World) :
  throws w' = throws w -> entries w' !! SESSION = entries w !! SESSION ->
  sd_generationCount (sessionOf w') = sd_generationCount (sessionOf w).
Proof.
  intros Hthrows Hentries. unfold sessionOf, sessionRead.
  rewrite (readItem_same SESSION None w w' Hthrows Hentries).
  destruct (readItem SESSION None w); reflexivity.
Qed.

(** What the statements after a successful call leave behind on a working
    store: the item at the head of the persisted list and of the list the
    store shows, the prompt among the recent ones, one more generation
    counted. *)
Lemma bookkeeping_spec (item : HistoryItem) (prompt : string) (w : World) :
  healthy w ->
  JsString.truthy (JsString.trim prompt) = true ->
  let w' :=
    applySessionOps [OpGenerated; OpActive]
      (exec (addRecentPrompt prompt)
         (exec actions.loadHistory (exec (saveHistoryItem item) w))) in
  healthy w'
  /\ listed w' = recorded item (listed w)
  /\ hs_items (history (app w')) = recorded item (listed w)
  /\ generation (app w') = generation (app w)
  /\ preview (app w') = preview (app w)
  /\ form (app w') = form (app w)
  /\ JsString.trim prompt ∈ pr_recentPrompts (preferencesOf w')
  /\ sd_generationCount (sessionOf w') = (sd_generationCount (sessionOf w) + 1)%Z
  /\ activeRequests w' = activeRequests w
  /\ endpointCalls w' = endpointCalls w.
Proof.
  intros Hw Htruthy.
  destruct (record_healthy item w Hw) as [HwA HlistedA].
  set (wA := exec (saveHistoryItem item) w) in *.
  assert (app wA = app w) as HappA
    by apply (preserves_saveHistoryItem app quiet_app item (ignores_app HISTORY)).
  destruct (loadHistory_shown wA) as (HitemsB & _ & _ & HthrowsB & HentriesB & _).
  destruct (loadHistory_slices wA) as (HgenB & HpreviewB & HformB).
  set (wB := exec actions.loadHistory wA) in *.
  assert (healthy wB) as HwB by exact (healthy_throws _ _ HthrowsB HwA).
  assert (hs_items (history (app wB)) = recorded item (listed w)) as Hshown.
  { rewrite HitemsB. unfold readList. rewrite healthy_readable by exact HwA.
    exact HlistedA. }
  destruct (addRecentPrompt_spec prompt wB) as (wC' & HrunC & HthrowsC & HprefsC).
  set (wC := exec (addRecentPrompt prompt) wB) in *.
  assert (wC' = wC) as -> by (unfold wC, exec; rewrite HrunC; reflexivity).
  assert (healthy wC) as HwC by exact (healthy_throws _ _ HthrowsC HwB).
  assert (app wC = app wB) as HappC
    by apply (preserves_addRecentPrompt app quiet_app prompt (ignores_app PREFERENCES)).
  assert (JsString.trim prompt ∈ pr_recentPrompts (preferencesOf wC)) as Hrecent.
  { rewrite Htruthy in HprefsC. cbn [negb orb] in HprefsC.
    destruct (bool_decide (JsString.trim prompt ∈ pr_recentPrompts (preferencesOf wB)))
      eqn:Hknown; destruct HprefsC as [Hentries _].
    - apply bool_decide_eq_true_1 in Hknown. unfold preferencesOf.
      rewrite (readItem_same PREFERENCES DEFAULT_PREFERENCES wB wC HthrowsC Hentries).
      exact Hknown.
    - rewrite (preferencesOf_written _ wB wC HthrowsC Hentries). unfold usable.
      rewrite healthy_readable, healthy_writable by exact HwB.
      cbn [andb withRecentPrompts pr_recentPrompts]. apply list_elem_of_here. }
  destruct (applySessionOps_spec [OpGenerated; OpActive] wC) as [HframeE HsessionE].
  pose proof (sessionOps_keep (document HISTORY) [OpGenerated; OpActive]
                (quiet_document HISTORY ltac:(discriminate))
                (ignores_document SESSION HISTORY ltac:(discriminate)) wC) as HhistoryE.
  pose proof (sessionOps_keep (document PREFERENCES) [OpGenerated; OpActive]
                (quiet_document PREFERENCES ltac:(discriminate))
                (ignores_document SESSION PREFERENCES ltac:(discriminate)) wC)
    as HpreferencesE.
  cbn zeta.
  set (wE := applySessionOps [OpGenerated; OpActive] wC) in *.
  pose proof HframeE as (HappE & HactiveE & _ & HthrowsE & _ & _ & _ & _ & _ & _ & HcallsE).
  unfold document in HhistoryE, HpreferencesE.
  split; [exact (healthy_throws _ _ HthrowsE HwC) |].
  split.
  { unfold listed at 1. rewrite HhistoryE. fold (listed wC).
    pose proof (preserves_addRecentPrompt (document HISTORY)
                  (quiet_document HISTORY ltac:(discriminate)) prompt
                  (ignores_document PREFERENCES HISTORY ltac:(discriminate)) wB) as HhistoryC.
    unfold document in HhistoryC. fold (exec (addRecentPrompt prompt) wB) in HhistoryC.
    fold wC in HhistoryC.
    unfold listed at 1. rewrite HhistoryC, HentriesB. exact HlistedA. }
  split; [rewrite HappE, HappC; exact Hshown |].
  split; [rewrite HappE, HappC, HgenB, HappA; reflexivity |].
  split; [rewrite HappE, HappC, HpreviewB, HappA; reflexivity |].
  split; [rewrite HappE, HappC, HformB, HappA; reflexivity |].
  split.
  { unfold preferencesOf.
    rewrite (readItem_same PREFERENCES DEFAULT_PREFERENCES wC wE HthrowsE HpreferencesE).
    exact Hrecent. }
  split.
  { rewrite HsessionE. unfold usable.
    rewrite healthy_readable, healthy_writable by exact HwC. cbn [andb].
    destruct (advance_tally (clock wC) [OpGenerated; OpActive] (sessionOf wC))
      as (_ & _ & _ & Hcount & _).
    cbn zeta in Hcount. rewrite Hcount.
    change (generated [OpGenerated; OpActive]) with 1%Z. f_equal.
    apply generationCount_same.
    - apply (recording_keeps throws item prompt w quiet_throws (fun _ _ => eq_refl)
               (ignores_throws HISTORY) (ignores_throws PREFERENCES)).
    - apply (recording_keeps (document SESSION) item prompt w
               (quiet_document SESSION ltac:(discriminate)) (fun _ _ => eq_refl)
               (ignores_document HISTORY SESSION ltac:(discriminate))
               (ignores_document PREFERENCES SESSION ltac:(discriminate))). }
  split.
  - rewrite HactiveE.
    apply (recording_keeps activeRequests item prompt w quiet_activeRequests
             (fun _ _ => eq_refl)); split; reflexivity.
  - rewrite HcallsE.
    apply (recording_keeps endpointCalls item prompt w quiet_endpointCalls
             (fun _ _ => eq_refl)); split; reflexivity.
Qed.

(** X13. A submission that succeeds, end to end. On a complete form and
    a working store, when the first [k] calls of the endpoint draw a
    simulated error and the next one does not ([k] below the three
    attempts allowed), [startGeneration] settles with status [success]:
    the response echoes the trimmed prompt and the style, the endpoint was
    called [k + 1] times and the store counts [k] retries, no error is
    left and no retry is offered. The new item heads both the persisted
    history and the list the store shows, cut to five items; the trimmed
    prompt is among the recent prompts, the session counts one more
    generation and the request is no longer registered. *)
Theorem X13_successful_submission (w : World) (image : ImageFile) (k : nat) :
  readyToGenerate w image ->
  ids_nonempty w ->
  healthy w ->
  (k < 3)%nat ->
  succeedsAfter k (started w image) ->
  exists response w',
    settle (actions.startGeneration w) = (Normal tt, w')
    /\ res_prompt response = JsString.trim (currentPrompt (preview (app w)))
    /\ res_style response = currentStyle (preview (app w))
    /\ endpointCalls w' = (endpointCalls w + k + 1)%nat
    /\ status (generation (app w')) = success
    /\ progress (generation (app w')) = 100%Z
    /\ result (generation (app w')) = Some response
    /\ gen_error (generation (app w')) = None
    /\ retryCount (generation (app w')) = k
    /\ canRetry (generation (app w')) = false
    /\ isGenerating (preview (app w')) = false
    /\ hs_items (history (app w'))
       = recorded (actions.historyItemOf response (img_dataUrl image)) (listed w)
    /\ listed w'
       = recorded (actions.historyItemOf response (img_dataUrl image)) (listed w)
    /\ JsString.trim (currentPrompt (preview (app w)))
       ∈ pr_recentPrompts (preferencesOf w')
    /\ sd_generationCount (sessionOf w') = (sd_generationCount (sessionOf w) + 1)%Z
    /\ activeRequests w' !! randomText w (drawn w) = None
    /\ healthy w'.
Proof.
  intros Hready Hids Hw Hk Hdraws. pose proof Hready as (_ & _ & Hvalid).
  destruct (createGeneration_succeeds (requestOf w image) (randomText w (drawn w)) k
              (started w image) eq_refl (Hids _) Hvalid Hk Hdraws)
    as (response & w1 & Hrun & Hprompt & Hstyle & Hcalls & Hcount & Hactive & Hfrom).
  rewrite (settle_startGeneration w image Hready), Hrun, recordSuccess_eq.
  destruct Hfrom as (Hentries1 & Hthrows1 & _).
  assert (healthy (succeeded response w1)) as Hw1.
  { apply (healthy_throws w); [| exact Hw]. exact Hthrows1. }
  assert (JsString.truthy (JsString.trim (JsString.trim (currentPrompt (preview (app w)))))
          = true) as Htruthy.
  { rewrite trim_idempotent. unfold validRequest in Hvalid.
    rewrite !andb_true_iff in Hvalid.
    destruct Hvalid as (((((_ & Htruthy) & _) & _) & _) & _). exact Htruthy. }
  destruct (bookkeeping_spec (actions.historyItemOf response (img_dataUrl image))
              (JsString.trim (currentPrompt (preview (app w))))
              (succeeded response w1) Hw1 Htruthy)
    as (Hhealthy & Hlisted & Hshown & Hgeneration & Hpreview & _ & Hrecent & Hsession
        & Hactive' & Hcalls').
  cbn zeta in *. rewrite trim_idempotent in Hrecent.
  assert (listed (succeeded response w1) = listed w) as Hlisted1.
  { unfold listed. change (entries (succeeded response w1)) with (entries w1).
    rewrite Hentries1. reflexivity. }
  eexists response, _. split; [reflexivity |].
  split; [exact Hprompt |]. split; [exact Hstyle |].
  split; [rewrite Hcalls'; exact Hcalls |].
  rewrite Hgeneration, Hpreview.
  split; [reflexivity |]. split; [reflexivity |]. split; [reflexivity |].
  split; [reflexivity |].
  split.
  { change (retryCount (generation (app (succeeded response w1))))
      with (retryCount (generation (app w1))).
    rewrite Hcount. destruct k; reflexivity. }
  split; [reflexivity |]. split; [reflexivity |].
  split; [rewrite Hshown, Hlisted1; reflexivity |].
  split; [rewrite Hlisted, Hlisted1; reflexivity |].
  split; [exact Hrecent |].
  split.
  { rewrite Hsession. f_equal. apply generationCount_same.
    - exact Hthrows1.
    - change (entries (succeeded response w1)) with (entries w1).
      rewrite Hentries1. reflexivity. }
  split; [rewrite Hactive'; exact Hactive |].
  exact Hhealthy.
Qed.

(** The example tab when the first call of the endpoint fails and the
    second succeeds. *)
Lemma X13_successful_submission_witness :
  exists response w',
    settle (actions.startGeneration
              (exampleWorld (fun n => if (n =? 2)%nat then 1 # 10 else 1 # 2)))
    = (Normal tt, w')
    /\ status (generation (app w')) = success
    /\ retryCount (generation (app w')) = 1%nat
    /\ endpointCalls w' = 2%nat
    /\ hs_items (history (app w'))
       = [actions.historyItemOf response (img_dataUrl exampleImage)]
    /\ res_prompt response = "red dress on runway".
Proof.
  destruct (X13_successful_submission
              (exampleWorld (fun n => if (n =? 2)%nat then 1 # 10 else 1 # 2))
              exampleImage 1)
    as (response & w' & Hrun & Hprompt & _ & Hcalls & Hstatus & _ & _ & _ & Hcount & _
        & _ & Hshown & _).
  - repeat split.
  - intros n. reflexivity.
  - intros op. reflexivity.
  - lia.
  - split; [intros i Hi; destruct i; [reflexivity | lia] | reflexivity].
  - exists response, w'. repeat split; assumption.
Defined.

End SuccessfulSubmission.

(* ===================================================================== *)
(** ** How long a submission waits                                        *)
(* ===================================================================== *)

Section Duration.

Lemma delays_bind {A B} (r : Run A) (f : A -> Async B) :
  delays (Run_bind r f)
  = delays r ++ match settle r with
                | (Normal a, w') => delays (f a w')
                | (Throw _, _) => []
                end.
Proof.
  induction r as [[a | e] w | ms w k IH]; cbn [Run_bind delays settle app];
    [reflexivity | reflexivity |].
  rewrite IH. reflexivity.
Qed.

Lemma delays_reify {A} (r : Run A) : delays (Run_reify r) = delays r.
Proof.
  induction r as [c w | ms w k IH]; cbn [Run_reify delays]; [reflexivity |].
  rewrite IH. reflexivity.
Qed.

Lemma delays_await {A B} (m : Async A) (f : A -> Async B) (w : World) :
  delays (await m f w)
  = delays (m w) ++ match settle (m w) with
                    | (Normal a, w') => delays (f a w')
                    | (Throw _, _) => []
                    end.
Proof. apply delays_bind. Qed.

Lemma delays_lift {A} (m : Sync A) (w : World) : delays (lift m w) = [].
Proof. unfold lift. destruct (m w) as [c w']. reflexivity. Qed.

Lemma delays_await_lift {A B} (m : Sync A) (f : A -> Async B) (w : World) :
  delays (await (lift m) f w)
  = match m w with
    | (Normal a, w') => delays (f a w')
    | (Throw _, _) => []
    end.
Proof. rewrite delays_await, delays_lift, settle_lift. reflexivity. Qed.

(** A continuation that sets no timer adds no wait. *)
Lemma delays_bind_sync {A B} (r : Run A) (f : A -> Async B) :
  (forall a w, delays (f a w) = []) -> delays (Run_bind r f) = delays r.
Proof.
  intros Hsync. rewrite delays_bind.
  destruct (settle r) as [[a | e] w']; rewrite ?Hsync; apply app_nil_r.
Qed.

Lemma delays_await_lift_sync {A B} (m : Sync A) (f : A -> Async B) (w : World) :
  (forall a w, delays (f a w) = []) -> delays (await (lift m) f w) = [].
Proof.
  intros Hsync. rewrite delays_await_lift.
  destruct (m w) as [[a | e] w']; [apply Hsync | reflexivity].
Qed.

Lemma delays_afterProcessing (request : GenerationRequest) (signal : option nat)
    (w : World) :
  delays (afterProcessing request signal w) = [].
Proof.
  unfold afterProcessing. rewrite delays_await_lift. cbn [signal_aborted].
  destruct (abortedIn signal w); [reflexivity |].
  rewrite delays_await_lift. cbn [shouldSimulateError bind Math_random ret].
  match goal with |- context [if ?b then _ else _] => destruct b end.
  - apply delays_await_lift_sync. intros. reflexivity.
  - apply delays_lift.
Qed.

Lemma delays_generateImage (request : GenerationRequest) (signal : option nat)
    (w : World) :
  validRequest request = true ->
  delays (generateImage request signal w)
  = [inject_Z (processingTimeOf (random w (drawn w)))].
Proof.
  intros Hvalid.
  destruct (generateImage_valid request signal w Hvalid) as (k & -> & Hk).
  cbn [delays]. rewrite Hk, delays_afterProcessing. reflexivity.
Qed.

Lemma random_generateImage (request : GenerationRequest) (signal : option nat)
    (w : World) :
  validRequest request = true ->
  random (settle (generateImage request signal w)).2 = random w.
Proof.
  intros Hvalid. rewrite settle_generateImage by exact Hvalid.
  unfold afterProcessing. rewrite settle_await_lift. cbn [signal_aborted].
  match goal with |- context [if ?b then _ else _] => destruct b end;
    [rewrite settle_reject; reflexivity |].
  rewrite settle_await_lift. cbn [shouldSimulateError bind Math_random ret].
  match goal with |- context [if ?b then _ else _] => destruct b end.
  - rewrite settle_await_lift. cbn. reflexivity.
  - rewrite settle_lift. cbn. reflexivity.
Qed.

(** The waits of the retry loop, one iteration at a time. *)
Lemma delays_retryLoop (request : GenerationRequest) (config : RetryConfig)
    (signal : option nat) (callback : option (nat -> ApiError -> Sync unit))
    (remaining attempt : nat) (lastError : option ApiError) (w : World) :
  validRequest request = true ->
  delays (retryLoop request config signal callback (S remaining) attempt lastError w)
  = inject_Z (processingTimeOf (random w (drawn w)))
    :: match settle (generateImage request signal w) with
       | (Normal response, w1) => []
       | (Throw thrown, w1) =>
           if abortedIn signal w1 then []
           else
             match isApiError thrown with
             | Some apiError =>
                 if negb (err_retryable apiError) then []
                 else if (attempt =? maxAttempts config)%nat then []
                 else
                   match callRetry callback attempt apiError w1 with
                   | (Normal _, w2) =>
                       delayWithJitter config attempt (random w2 (drawn w2))
                       :: delays (retryLoop request config signal callback remaining
                                    (S attempt) (Some apiError)
                                    (backedOff config attempt w2))
                   | (Throw e, w2) => []
                   end
             | None => []
             end
       end.
Proof.
  intros Hvalid.
  cbn [retryLoop]. rewrite delays_await. unfold reify.
  rewrite delays_reify, settle_reify, (delays_generateImage _ _ _ Hvalid).
  cbn [app]. f_equal.
  destruct (settle (generateImage request signal w)) as [[response | thrown] w1];
    cbn [fst snd]; [reflexivity |].
  rewrite delays_await_lift. cbn [signal_aborted].
  destruct (abortedIn signal w1); [reflexivity |].
  destruct (isApiError thrown) as [apiError |]; [| reflexivity].
  destruct (negb (err_retryable apiError)); [reflexivity |].
  destruct (attempt =? maxAttempts config)%nat; [reflexivity |].
  rewrite delays_await_lift.
  destruct (callRetry callback attempt apiError w1) as [[[] | e] w2]; [| reflexivity].
  rewrite delays_await_lift. cbn [Math_random].
  rewrite delays_await_lift. cbn [console_log modify].
  rewrite delays_await. reflexivity.
Qed.


Local Open Scope Q_scope.

Lemma longestWait_nonneg (config : RetryConfig) (remaining : nat) :
  (forall attempt, 0 <= backoffDelay config attempt) ->
  forall attempt, 0 <= longestWait config remaining attempt.
Proof.
  intros Hbackoff.
  induction remaining as [| remaining IH]; intros attempt; cbn [longestWait];
    [apply Qle_refl |].
  change (inject_Z MAX_PROCESSING_TIME) with 2000.
  destruct (attempt =? maxAttempts config)%nat; [discriminate |].
  specialize (IH (S attempt)). specialize (Hbackoff attempt). lra.
Qed.

Lemma total_cons (x : Q) (waits : list Q) : total (x :: waits) = x + total waits.
Proof. reflexivity. Qed.

Lemma processingTime_range (w : World) :
  unit_draws w ->
  1000 <= inject_Z (processingTimeOf (random w (drawn w))) <= 2000.
Proof.
  intros Hdraws. destruct (Hdraws (drawn w)) as [Hr0 Hr1].
  destruct (processingTimeOf_range _ Hr0 Hr1) as [Hlow Hhigh].
  change 1000 with (inject_Z 1000). change 2000 with (inject_Z 2000).
  rewrite <- !Zle_Qle. split; assumption.
Qed.

Lemma unit_draws_random (w w' : World) :
  random w' = random w -> unit_draws w -> unit_draws w'.
Proof. intros Heq Hdraws n. rewrite Heq. apply Hdraws. Qed.

(** The retry loop waits no longer than [longestWait], and at least a
    second when it calls the endpoint at all. *)
Lemma retryLoop_duration (request : GenerationRequest) (config : RetryConfig)
    (signal : option nat) (callback : option (nat -> ApiError -> Sync unit)) :
  validRequest request = true ->
  (forall attempt, 0 <= backoffDelay config attempt) ->
  (forall attempt e w, random (exec (callRetry callback attempt e) w) = random w) ->
  forall (remaining attempt : nat) (lastError : option ApiError) (w : World),
    unit_draws w ->
    0 <= total (delays (retryLoop request config signal callback remaining attempt
                          lastError w))
    /\ total (delays (retryLoop request config signal callback remaining attempt
                        lastError w))
       <= longestWait config remaining attempt
    /\ (remaining <> 0%nat ->
        1000 <= total (delays (retryLoop request config signal callback remaining attempt
                                 lastError w))).
Proof.
  intros Hvalid Hbackoff Hcallback.
  induction remaining as [| remaining IH]; intros attempt lastError w Hdraws.
  - cbn [retryLoop]. unfold reject. rewrite delays_lift. cbn [total foldr longestWait].
    split; [apply Qle_refl |]. split; [apply Qle_refl |]. intros Hne. contradiction.
  - rewrite (delays_retryLoop _ _ _ _ _ _ _ _ Hvalid).
    pose proof (processingTime_range w Hdraws) as [Hlow Hhigh].
    pose proof (random_generateImage request signal w Hvalid) as Hrandom.
    cbn [longestWait]. change (inject_Z MAX_PROCESSING_TIME) with 2000.
    pose proof (longestWait_nonneg config remaining Hbackoff (S attempt)) as Hrest.
    pose proof (Hbackoff attempt) as Hb.
    set (p := inject_Z (processingTimeOf (random w (drawn w)))) in *. clearbody p.
    assert (0 <= total [p] /\ total [p]
                               <= 2000 + (if (attempt =? maxAttempts config)%nat then 0
                                          else (5 # 4) * backoffDelay config attempt
                                               + longestWait config remaining (S attempt))
            /\ (S remaining <> 0%nat -> 1000 <= total [p])) as Hsingle.
    { rewrite total_cons. change (total []) with 0.
      destruct (attempt =? maxAttempts config)%nat;
        (split; [| split; [| intros _]]); lra. }
    destruct (settle (generateImage request signal w)) as [[response | thrown] w1];
      cbn [snd] in Hrandom; [exact Hsingle |].
    destruct (abortedIn signal w1); [exact Hsingle |].
    destruct (isApiError thrown) as [apiError |]; [| exact Hsingle].
    destruct (negb (err_retryable apiError)); [exact Hsingle |].
    destruct (attempt =? maxAttempts config)%nat; [exact Hsingle |].
    pose proof (Hcallback attempt apiError w1) as Hrandom2. unfold exec in Hrandom2.
    destruct (callRetry callback attempt apiError w1) as [[[] | e] w2];
      cbn [snd] in Hrandom2.
    + assert (unit_draws w2) as Hdraws2.
      { apply (unit_draws_random w); [congruence | exact Hdraws]. }
      destruct (Hdraws2 (drawn w2)) as [Hr0 Hr1].
      destruct (delayWithJitter_range config attempt _ Hr0 Hr1 Hb) as [_ Hjitter].
      pose proof (delayWithJitter_nonneg config attempt (random w2 (drawn w2))) as Hj0.
      destruct (IH (S attempt) (Some apiError) (backedOff config attempt w2)) as (H0 & Hle & _).
      { apply (unit_draws_random w2); [reflexivity | exact Hdraws2]. }
      rewrite !total_cons.
      split; [| split; [| intros _]]; lra.
    + exact Hsingle.
Qed.

Lemma delays_createGeneration (request : GenerationRequest) (id : string) (w : World) :
  req_requestId request = Some id ->
  JsString.truthy id = true ->
  delays (createGeneration request actions.generationOptions w)
  = 100 :: 200 :: 300
    :: delays (generateImageWithRetry request RETRY_CONFIG
                 (Some (length (controllers w)))
                 (onRetry actions.generationOptions)
                 (progressed (registered id w))).
Proof.
  intros Hid Htruthy. unfold createGeneration.
  rewrite Hid, Htruthy. rewrite delays_await_lift. cbn [ret].
  rewrite makeRequest_eq, delays_bind_sync, delays_reify.
  2: { intros [result | thrown] w0; apply delays_await_lift_sync; intros; reflexivity. }
  cbn [onProgress actions.generationOptions].
  rewrite delays_await.
  rewrite delays_await_lift; cbn [setState modify].
  rewrite delays_await; cbn [delay delays settle app].
  rewrite delays_await_lift; cbn [setState modify].
  rewrite delays_await; cbn [delay delays settle app].
  rewrite delays_await_lift; cbn [setState modify].
  rewrite delays_await; cbn [delay delays settle app].
  rewrite delays_lift; cbn [setState modify app].
  cbn [app]. do 3 f_equal.
  rewrite settle_await, settle_lift; cbn [setState modify].
  rewrite settle_await, settle_delay.
  rewrite settle_await, settle_lift; cbn [setState modify].
  rewrite settle_await, settle_delay.
  rewrite settle_await, settle_lift; cbn [setState modify].
  rewrite settle_await, settle_delay.
  rewrite settle_lift; cbn [setState modify].
  change (mergeRetryConfig (retryConfig actions.generationOptions)) with RETRY_CONFIG.
  unfold await at 1.
  rewrite delays_bind_sync
    by (intros; apply delays_await_lift_sync; intros; reflexivity).
  reflexivity.
Qed.

End Duration.

Section SubmissionDuration.

Local Open Scope Q_scope.

Lemma backoffDelay_default_nonneg (attempt : nat) : 0 <= backoffDelay RETRY_CONFIG attempt.
Proof.
  unfold backoffDelay. apply Q.min_glb; [| discriminate].
  apply Qmult_le_0_compat; [discriminate |]. apply Qpower_0_le. discriminate.
Qed.

Lemma longestWait_default : longestWait RETRY_CONFIG (maxAttempts RETRY_CONFIG) 1 == 9750.
Proof. vm_compute. reflexivity. Qed.

(** The waits of a submission are those of [createGeneration]: what
    [startGeneration] does before and after sets no timer. *)
Lemma validateForm_true (w : World) :
  (actions.validateForm w).1 = Normal true -> actions.validateForm w = (Normal true, w).
Proof.
  intros Hform. unfold actions.validateForm, bind, getState, ret in *.
  cbn [fst] in Hform. injection Hform as ->. reflexivity.
Qed.

Lemma delays_startGeneration (w : World) (image : ImageFile) :
  (actions.validateForm w).1 = Normal true ->
  currentImage (preview (app w)) = Some image ->
  delays (actions.startGeneration w)
  = delays (createGeneration (requestOf w image) actions.generationOptions
              (started w image)).
Proof.
  intros Hform Himage.
  unfold actions.startGeneration.
  rewrite delays_await_lift. cbn [getState].
  rewrite delays_await_lift, (validateForm_true w Hform).
  cbn [negb]. rewrite Himage.
  rewrite delays_await_lift. cbn [randomId].
  rewrite delays_await_lift. cbn [setState modify].
  unfold await at 1. rewrite delays_bind_sync.
  2: { intros [[] | thrown] w0; [apply delays_lift |].
       apply delays_await_lift_sync. intros. apply delays_lift. }
  unfold reify at 1. rewrite delays_reify.
  unfold await at 1. rewrite delays_bind_sync.
  2: { intros response w0. repeat (apply delays_await_lift_sync; intros).
       apply delays_lift. }
  reflexivity.
Qed.

End SubmissionDuration.

(** X16. How long a submission waits. On a complete form and a store
    that accepts every operation, with draws in [0, 1), the timers
    [startGeneration] sets when nothing interferes begin with the three
    progress waits of 100, 200 and 300 ms, and add up to at least 1600 ms
    (one call of the endpoint takes at least a second) and at most
    10353 ms: at most three calls, of at most 2001 ms each (2000 ms by
    the formula, one more when the largest draw is rounded up), and
    backoff waits of at most 1250 and 2500 ms between them. *)
Theorem X16_submission_duration (w : World) (image : ImageFile) :
  readyToGenerate w image ->
  ids_nonempty w ->
  unit_draws w ->
  healthy w ->
  let waits := delays (actions.startGeneration w) in
  take 3 waits = [100; 200; 300]%Q
  /\ (1600 <= total waits)%Q
  /\ (total waits <= 10353)%Q.
Proof.
  intros Hready Hids Hdraws _. pose proof Hready as (Hform & Himage & Hvalid).
  cbn zeta.
  rewrite (delays_startGeneration w image Hform Himage).
  rewrite (delays_createGeneration (requestOf w image) (randomText w (drawn w))
             (started w image) eq_refl (Hids _)).
  unfold generateImageWithRetry.
  destruct (retryLoop_duration (requestOf w image) RETRY_CONFIG
              (Some (length (controllers (started w image))))
              (onRetry actions.generationOptions) Hvalid backoffDelay_default_nonneg
              (fun _ _ _ => eq_refl) (maxAttempts RETRY_CONFIG) 1 None
              (progressed (registered (randomText w (drawn w)) (started w image))))
    as (_ & Hle & Hlow).
  { apply (unit_draws_random w); [| exact Hdraws].
    destruct (progressed_registered (randomText w (drawn w)) (started w image))
      as (Hrandom & _).
    exact Hrandom. }
  specialize (Hlow ltac:(discriminate)).
  rewrite longestWait_default in Hle.
  rewrite !total_cons.
  split; [reflexivity |]. split; lra.
Qed.

(** The example tab when every call of the endpoint fails: three calls
    and two backoff waits. *)
Lemma X16_submission_duration_witness :
  (1600 <= total (delays (actions.startGeneration (exampleWorld (fun _ => 1 # 10)))))%Q
  /\ (total (delays (actions.startGeneration (exampleWorld (fun _ => 1 # 10)))) <= 10353)%Q.
Proof.
  destruct (X16_submission_duration (exampleWorld (fun _ => 1 # 10)) exampleImage)
    as (_ & Hlow & Hhigh).
  - repeat split.
  - intros n. reflexivity.
  - intros n. split; [discriminate | reflexivity].
  - intros op. reflexivity.
  - split; assumption.
Defined.

(* ===================================================================== *)
(** ** Submitting a selected history item                                 *)
(* ===================================================================== *)

Section SelectedItem.

(** A submission whose [createGeneration] rejects ends in the [catch]. *)
Lemma startGeneration_rejected (w w1 : World) (image : ImageFile) (thrown : Thrown) :
  (actions.validateForm w).1 = Normal true ->
  currentImage (preview (app w)) = Some image ->
  settle (createGeneration (requestOf w image) actions.generationOptions
            (started w image))
  = (Throw thrown, w1) ->
  settle (actions.startGeneration w) = (Normal tt, failed thrown w1).
Proof.
  intros Hform Himage Hrun.
  unfold actions.startGeneration.
  rewrite settle_await, settle_lift. cbn [getState].
  rewrite settle_await, settle_lift, (validateForm_true w Hform).
  cbn [negb]. rewrite Himage.
  rewrite settle_await, settle_lift. cbn [randomId].
  rewrite settle_await, settle_lift. cbn [setState modify].
  rewrite settle_await. unfold reify at 1. rewrite settle_reify.
  rewrite settle_await.
  change (with_app _ (with_drawn S w)) with (started w image).
  change {| req_imageDataUrl := img_dataUrl image;
            req_prompt := JsString.trim (currentPrompt (preview (app w)));
            req_style := currentStyle (preview (app w));
            req_requestId := Some (randomText w (drawn w)) |}
    with (requestOf w image).
  rewrite Hrun. cbn [fst snd].
  rewrite settle_await, settle_lift. cbn [now]. rewrite settle_lift. reflexivity.
Qed.

(** The retry loop on a request the endpoint's validation rejects. *)
Lemma generateImageWithRetry_rejected (request : GenerationRequest)
    (signal : option nat) (callback : option (nat -> ApiError -> Sync unit))
    (w : World) :
  validRequest request = false ->
  abortedIn signal w = false ->
  exists e,
    generateImageWithRetry request RETRY_CONFIG signal callback w
    = Settled (Throw (ThrownApiError e)) (with_endpointCalls S w)
    /\ err_code e = "VALIDATION_ERROR"
    /\ err_retryable e = false.
Proof.
  intros Hinvalid Haborted.
  destruct (validateGenerationRequest_invalid request (with_endpointCalls S w) Hinvalid)
    as (e & Hrejected & _ & Hcode & Hretryable & _).
  exists e. split; [| split; assumption].
  unfold generateImageWithRetry. cbn [maxAttempts RETRY_CONFIG retryLoop].
  unfold await at 1, reify.
  rewrite (generateImage_invalid request signal e w Hrejected).
  cbn [Run_reify Run_bind]. rewrite await_lift. cbn [signal_aborted].
  change (abortedIn signal (with_endpointCalls S w)) with (abortedIn signal w).
  rewrite Haborted. cbn [isApiError]. rewrite Hretryable. reflexivity.
Qed.

Lemma currentRequest_progressed (w : World) :
  currentRequest (generation (app (progressed w))) = currentRequest (generation (app w)).
Proof. reflexivity. Qed.

(** A submission that passes the form check with a request the endpoint's
    validation rejects. *)
Lemma startGeneration_invalid_request (w : World) (image : ImageFile)
    (request : GenerationRequest) (id : string) :
  (actions.validateForm w).1 = Normal true ->
  currentImage (preview (app w)) = Some image ->
  requestOf w image = request ->
  req_requestId request = Some id ->
  JsString.truthy id = true ->
  validRequest request = false ->
  exists e w',
    settle (actions.startGeneration w) = (Normal tt, w')
    /\ delays (actions.startGeneration w) = [100; 200; 300]%Q
    /\ endpointCalls w' = S (endpointCalls w)
    /\ status (generation (app w')) = error
    /\ gen_error (generation (app w')) = Some e
    /\ err_code e = "VALIDATION_ERROR"
    /\ err_retryable e = false
    /\ canRetry (generation (app w')) = false
    /\ currentRequest (generation (app w')) = Some request
    /\ isGenerating (preview (app w')) = false
    /\ entries w' = entries w
    /\ dispatched w' = dispatched w.
Proof.
  intros Hform Himage Hrequest Hid Htruthy Hinvalid.
  assert (currentRequest (generation (app (started w image))) = Some request)
    as Hrecorded0 by (rewrite <- Hrequest; reflexivity).
  pose proof (delays_startGeneration w image Hform Himage) as Hwaits.
  pose proof (startGeneration_rejected w) as Hcatch.
  specialize (fun w1 thrown => Hcatch w1 image thrown Hform Himage).
  rewrite Hrequest in Hwaits, Hcatch.
  rewrite (delays_createGeneration request id (started w image) Hid Htruthy) in Hwaits.
  rewrite (settle_createGeneration request id (started w image) Hid Htruthy) in Hcatch.
  destruct (progressed_registered id (started w image))
    as (_ & Hcalls & Haborted & Hentries & Hdispatched & _).
  pose proof (currentRequest_progressed (registered id (started w image))) as Hrecorded.
  rewrite registered_app, Hrecorded0 in Hrecorded.
  destruct (generateImageWithRetry_rejected request
              (Some (length (controllers (started w image))))
              (onRetry actions.generationOptions)
              (progressed (registered id (started w image)))
              Hinvalid Haborted)
    as (e & Hloop & Hcode & Hretryable).
  rewrite Hloop in Hwaits, Hcatch. cbn [settle delays] in Hwaits, Hcatch.
  set (w1 := progressed (registered id (started w image))) in *. clearbody w1.
  specialize (Hcatch _ _ eq_refl).
  eexists _, _. split; [exact Hcatch |]. split; [exact Hwaits |].
  cbn [failed endpointCalls app with_app with_activeRequests with_endpointCalls
       with_generation with_preview with_isGenerating generation preview
       status gen_error retryCount canRetry currentRequest isGenerating
       entries dispatched actions.apiErrorOf err_code err_retryable].
  rewrite Hcode, Hretryable, Hcalls, Hentries, Hdispatched, Hrecorded.
  repeat split.
Qed.

End SelectedItem.

(** X28. Selecting a history item skips the form's prompt check. On a
    store that accepts every operation, [selectHistoryItem] copies the
    prompt and the style of the item into the preview and the form and
    marks both fields valid without validating them, so that with an
    image loaded [validateForm] passes whatever the item holds. When the
    request built from the item fails the endpoint's validation (a blank
    or overlong prompt, an unknown style), [startGeneration] does not stop
    at the form: it records the request, waits for the three progress
    delays, calls the endpoint once and ends with status [error], the
    non-retryable [VALIDATION_ERROR] and [canRetry] cleared; the storage
    is not touched. *)
Theorem X28_selected_item_skips_form_check (item : HistoryItem) (image : ImageFile)
    (w : World) :
  currentImage (preview (app w)) = Some image ->
  if_isValid (form_image (form (app w))) = true ->
  ids_nonempty w ->
  healthy w ->
  let w0 := exec (actions.selectHistoryItem item) w in
  let request :=
    {| req_imageDataUrl := img_dataUrl image;
       req_prompt := JsString.trim (hi_prompt item);
       req_style := hi_style item;
       req_requestId := Some (randomText w (drawn w)) |} in
  (actions.validateForm w0).1 = Normal true
  /\ hs_currentItem (history (app w0)) = Some item
  /\ currentPrompt (preview (app w0)) = hi_prompt item
  /\ currentStyle (preview (app w0)) = hi_style item
  /\ pf_error (form_prompt (form (app w0))) = None
  /\ (validRequest request = false ->
      exists e w',
        settle (actions.startGeneration w0) = (Normal tt, w')
        /\ delays (actions.startGeneration w0) = [100; 200; 300]%Q
        /\ endpointCalls w' = S (endpointCalls w)
        /\ status (generation (app w')) = error
        /\ gen_error (generation (app w')) = Some e
        /\ err_code e = "VALIDATION_ERROR"
        /\ err_retryable e = false
        /\ canRetry (generation (app w')) = false
        /\ currentRequest (generation (app w')) = Some request
        /\ isGenerating (preview (app w')) = false
        /\ entries w' = entries w
        /\ dispatched w' = dispatched w).
Proof.
  intros Himage Hfield Hids _. cbv zeta.
  split.
  { unfold actions.validateForm, bind, getState, ret. cbn [fst].
    change (form (app (exec (actions.selectHistoryItem item) w)))
      with {| form_prompt :=
                {| pf_value := hi_prompt item; pf_error := None; pf_isValid := true |};
              form_style := {| sf_value := hi_style item; sf_isValid := true |};
              form_image := form_image (form (app w)) |}.
    cbn [form_prompt form_style form_image pf_isValid sf_isValid andb].
    rewrite Hfield. reflexivity. }
  split; [reflexivity |]. split; [reflexivity |]. split; [reflexivity |].
  split; [reflexivity |].
  intros Hinvalid.
  apply (startGeneration_invalid_request (exec (actions.selectHistoryItem item) w) image
           _ (randomText w (drawn w))).
  - unfold actions.validateForm, bind, getState, ret. cbn [fst].
    change (form (app (exec (actions.selectHistoryItem item) w)))
      with {| form_prompt :=
                {| pf_value := hi_prompt item; pf_error := None; pf_isValid := true |};
              form_style := {| sf_value := hi_style item; sf_isValid := true |};
              form_image := form_image (form (app w)) |}.
    cbn [form_prompt form_style form_image pf_isValid sf_isValid andb].
    rewrite Hfield. reflexivity.
  - exact Himage.
  - reflexivity.
  - reflexivity.
  - apply Hids.
  - exact Hinvalid.
Qed.

(** The example tab after a history item with a blank prompt was
    selected. *)
Lemma X28_selected_item_skips_form_check_witness :
  exists e w',
    settle (actions.startGeneration
              (exec (actions.selectHistoryItem
                       {| hi_id := "h1"; hi_imageUrl := "https://example.com/h1";
                          hi_prompt := "  "; hi_style := "editorial"; hi_createdAt := 0;
                          hi_processingTime := None; hi_thumbnail := None;
                          hi_isFavorite := None; hi_tags := None |})
                    (exampleWorld (fun _ => 1 # 2))))
    = (Normal tt, w')
    /\ status (generation (app w')) = error
    /\ gen_error (generation (app w')) = Some e
    /\ err_code e = "VALIDATION_ERROR"
    /\ canRetry (generation (app w')) = false.
Proof.
  destruct (X28_selected_item_skips_form_check
              {| hi_id := "h1"; hi_imageUrl := "https://example.com/h1";
                 hi_prompt := "  "; hi_style := "editorial"; hi_createdAt := 0;
                 hi_processingTime := None; hi_thumbnail := None;
                 hi_isFavorite := None; hi_tags := None |}
              exampleImage (exampleWorld (fun _ => 1 # 2)))
    as (_ & _ & _ & _ & _ & Hrejected).
  - reflexivity.
  - reflexivity.
  - intros n. reflexivity.
  - intros op. reflexivity.
  - destruct (Hrejected eq_refl)
      as (e & w' & Hrun & _ & _ & Hstatus & Herror & Hcode & _ & Hretry & _).
    exists e, w'. repeat split; assumption.
Defined.

(* ===================================================================== *)
(** ** Relative times                                                     *)
(* ===================================================================== *)

(** X24. [formatRelativeTime] by the age of the date, in milliseconds.
    Under a minute, and for every date in the future, the text is "Just
    now". From a minute to under an hour it counts whole minutes, from 1
    to 59; from an hour to under a day whole hours, from 1 to 23; from a
    day to under a week whole days, from 1 to 6, each count rounded down.
    From a week on it is the date in the locale of the host. The clock is
    read and nothing is changed. *)
Theorem X24_relative_time (toLocaleDateString : Z -> string) (date : Z) (w : World) :
  let age := (clock w - date)%Z in
  exists text,
    formatRelativeTime toLocaleDateString date w = (Normal text, w)
    /\ ((age < 60000)%Z -> text = "Just now")
    /\ ((60000 <= age < 3600000)%Z ->
        exists minutes,
          (1 <= minutes <= 59)%Z
          /\ (60000 * minutes <= age < 60000 * (minutes + 1))%Z
          /\ text = pretty minutes +:+ "m ago")
    /\ ((3600000 <= age < 86400000)%Z ->
        exists hours,
          (1 <= hours <= 23)%Z
          /\ (3600000 * hours <= age < 3600000 * (hours + 1))%Z
          /\ text = pretty hours +:+ "h ago")
    /\ ((86400000 <= age < 604800000)%Z ->
        exists days,
          (1 <= days <= 6)%Z
          /\ (86400000 * days <= age < 86400000 * (days + 1))%Z
          /\ text = pretty days +:+ "d ago")
    /\ ((604800000 <= age)%Z -> text = toLocaleDateString date).
Proof.
  intros age. unfold formatRelativeTime, bind, now, ret. cbv zeta.
  fold age. change (1000 * 60)%Z with 60000%Z.
  change (60000 * 60)%Z with 3600000%Z. change (3600000 * 24)%Z with 86400000%Z.
  generalize dependent age. intros age.
  pose proof (Z.div_mod age 60000 ltac:(lia)) as Hminutes.
  pose proof (Z.mod_pos_bound age 60000 ltac:(lia)) as Hminutes'.
  pose proof (Z.div_mod age 3600000 ltac:(lia)) as Hhours.
  pose proof (Z.mod_pos_bound age 3600000 ltac:(lia)) as Hhours'.
  pose proof (Z.div_mod age 86400000 ltac:(lia)) as Hdays.
  pose proof (Z.mod_pos_bound age 86400000 ltac:(lia)) as Hdays'.
  eexists. split; [reflexivity |].
  destruct (Z.ltb_spec (age / 60000) 1) as [Hm1 | Hm1];
    [| destruct (Z.ltb_spec (age / 60000) 60) as [Hm60 | Hm60];
       [| destruct (Z.ltb_spec (age / 3600000) 24) as [Hh24 | Hh24];
          [| destruct (Z.ltb_spec (age / 86400000) 7) as [Hd7 | Hd7]]]].
  all: repeat split; intros Hage; try lia.
  - exists (age / 60000)%Z. split; [lia |]. split; [lia | reflexivity].
  - exists (age / 3600000)%Z. split; [lia |]. split; [lia | reflexivity].
  - exists (age / 86400000)%Z. split; [lia |]. split; [lia | reflexivity].
Qed.
